(** * Combat round engine and progression ledger of the auto-battler

    A shallow embedding of the combat and progression core
    (CombatManager, SkillManager, PassiveManager, GearManager and
    ProgressionManager) together with the properties its specification
    states about it.

    Conventions of the embedding:
    - a JavaScript [number] is the rational it denotes ([Q]); [NaN] and
      the infinities are outside the model, [Math.floor] is [Qfloor],
      [Math.max]/[Math.min] are [Qmax]/[Qmin].  In [calculateSkillEffect],
      [calculatePassiveEffect], the scaling of [levelUpGear],
      [createEnemyStats], [isWithinAttackRange] and [findNearestEnemy],
      where the rounding of the doubles decides a result of [Math.floor]
      or a comparison of computed distances, every operation is rounded
      to the nearest double as in the code ([Double]).  Elsewhere sums and
      products are exact, also under the [Math.floor] of the rewards and
      of the price of an upgrade in ProgressionManager, where the result
      of the code can be one unit away when the product of the doubles
      is not the exact product;
    - objects that the code shares and mutates in place (combat entities,
      skills) live in a heap indexed by references, so that an action
      queued earlier observes every later mutation of its source and
      target;
    - a JavaScript [Map] that is iterated is an insertion-ordered
      association list. *)

From Stdlib Require Import QArith Qround Qminmax Qabs Qpower ZArith Lia Lqa
  Sorted.
From Stdlib Require SpecFloat.
From stdpp Require Import base option list gmap strings.

Local Open Scope Q_scope.

(** ** Numbers *)

Module Num.

Definition ltb (a b : Q) : bool := negb (Qle_bool b a).
Definition leb (a b : Q) : bool := Qle_bool a b.
Definition eqb (a b : Q) : bool := Qeq_bool a b.

(** [Math.floor], read back as a number. *)
Definition floor (a : Q) : Q := inject_Z (Qfloor a).

(** Truthiness of a number: [0] is falsy. *)
Definition truthy (a : Q) : bool := negb (Qeq_bool a 0).

End Num.

(** ** Doubles

    The finite IEEE 754 binary64 numbers are the rationals [m * 2^k] with
    [|m| <= 2^53] and [-1074 <= k]; an arithmetic operation of JavaScript
    returns the double nearest to the exact result, ties going to the even
    significand.  Results of magnitude [2^1024] and above, which the code
    turns into an infinity, are outside the model. *)

Module Double.

Definition pow2 (k : Z) : Q := 2 ^ k.

(** The exponent of the leading bit of a positive number:
    [2^(ilog2 a) <= a < 2^(ilog2 a + 1)]. *)
Definition ilog2 (a : Q) : Z :=
  let e := (Z.log2 (Qnum a) - Z.log2 (Zpos (Qden a)))%Z in
  if Qle_bool (pow2 e) a then e else (e - 1)%Z.

(** The nearest integer, ties to even. *)
Definition rne (x : Q) : Z :=
  let f := Qfloor x in
  match Qcompare (x - inject_Z f) (1 # 2) with
  | Lt => f
  | Gt => (f + 1)%Z
  | Eq => if Z.even f then f else (f + 1)%Z
  end.

(** The exponent of the last bit of the significand of the doubles around
    a positive number; below [2^-1022] the doubles are subnormal. *)
Definition ulpExp (a : Q) : Z := Z.max (ilog2 a - 52) (-1074).

(** The nearest double. *)
Definition round (q : Q) : Q :=
  if Qeq_bool q 0 then 0
  else
    let k := ulpExp (Qabs q) in
    Qred (inject_Z (rne (q / pow2 k)) * pow2 k).

Definition add (a b : Q) : Q := round (a + b).
Definition sub (a b : Q) : Q := round (a - b).
Definition mul (a b : Q) : Q := round (a * b).
Definition div (a b : Q) : Q := round (a / b).

(** [Math.sqrt]: the double nearest to the square root of a positive
    number, found from the integer square root of the argument scaled so
    that the root has 53 bits. *)
Definition sqrt (q : Q) : Q :=
  if Qle_bool q 0 then 0
  else
    let k := (ilog2 q / 2 - 52)%Z in
    let x := q / pow2 (2 * k) in
    let m := Z.sqrt (Qfloor x) in
    let h := inject_Z m + (1 # 2) in
    let m' :=
      match Qcompare x (h * h) with
      | Lt => m
      | Gt => (m + 1)%Z
      | Eq => if Z.even m then m else (m + 1)%Z
      end in
    Qred (inject_Z m' * pow2 k).

(** The unit roundoff and the half of the least subnormal number. *)
Definition u : Q := pow2 (-53).
Definition eta : Q := pow2 (-1075).

(** Decimal bounds of the two: [u <= uBound], [eta <= etaBound]. *)
Definition uBound : Q := 12 # 100000000000000000.
Definition etaBound : Q := 1 # 1000000000000000000000000000000.

#[global] Arguments pow2 : simpl never.
#[global] Arguments round : simpl never.
#[global] Arguments add : simpl never.
#[global] Arguments sub : simpl never.
#[global] Arguments mul : simpl never.
#[global] Arguments div : simpl never.
#[global] Arguments sqrt : simpl never.

End Double.

(** The binary64 operations of the Standard Library's specification of
    IEEE 754 ([SpecFloat]), read back as rationals; the rounding of
    [Double] is compared with them below. *)

Module DoubleSpec.

Definition ofZ (z : Z) : SpecFloat.spec_float :=
  SpecFloat.binary_normalize 53 1024 z 0 false.

Definition toQ (f : SpecFloat.spec_float) : Q :=
  match f with
  | SpecFloat.S754_finite s m e =>
      (if s then -1 else 1) * inject_Z (Zpos m) * Double.pow2 e
  | _ => 0
  end.

Definition add := SpecFloat.SFadd 53 1024.
Definition sub := SpecFloat.SFsub 53 1024.
Definition mul := SpecFloat.SFmul 53 1024.
Definition div := SpecFloat.SFdiv 53 1024.
Definition sqrt := SpecFloat.SFsqrt 53 1024.

End DoubleSpec.

(** ** Data model (CombatTypes.ts) *)

Record Vector3 := mkVec { vx : Q; vy : Q; vz : Q }.

Record CombatStats := mkStats {
  level : Q;
  maxHealth : Q;
  currentHealth : Q;
  attack : Q;
  defense : Q;
  speed : Q;
  maxEnergy : Q;
  currentEnergy : Q
}.

Record CombatEntity := mkEntity {
  ent_id : string;
  ent_name : string;
  stats : CombatStats;
  position : Vector3;
  isPlayer : bool
}.

Inductive CombatState := WAITING | IN_PROGRESS | VICTORY | DEFEAT.

Definition set_currentHealth (h : Q) (s : CombatStats) : CombatStats :=
  mkStats (level s) (maxHealth s) h (attack s) (defense s) (speed s)
          (maxEnergy s) (currentEnergy s).

Definition set_currentEnergy (e : Q) (s : CombatStats) : CombatStats :=
  mkStats (level s) (maxHealth s) (currentHealth s) (attack s) (defense s)
          (speed s) (maxEnergy s) e.

Definition set_stats (s : CombatStats) (e : CombatEntity) : CombatEntity :=
  mkEntity (ent_id e) (ent_name e) s (position e) (isPlayer e).

Definition set_position (p : Vector3) (e : CombatEntity) : CombatEntity :=
  mkEntity (ent_id e) (ent_name e) (stats e) p (isPlayer e).

(** The invariant the specification states for a stat block. *)
Definition stats_inv (s : CombatStats) : Prop :=
  0 <= currentHealth s /\ currentHealth s <= maxHealth s /\
  0 <= currentEnergy s /\ currentEnergy s <= maxEnergy s.

(** ** Skills (SkillData.ts) *)

Module SkillType.
Inductive t := ATTACK | HEAL | BUFF | DEBUFF.
End SkillType.

Module TargetType.
Inductive t := SELF | SINGLE_ENEMY | ALL_ENEMIES | AREA.
End TargetType.

Record SkillEffect := mkSkillEffect {
  se_type : SkillType.t;
  se_value : Q;
  se_duration : option Q;
  se_radius : option Q
}.

Record Skill := mkSkill {
  skill_id : string;
  skill_name : string;
  skill_type : SkillType.t;
  targetType : TargetType.t;
  skill_effects : list SkillEffect;
  cooldown : Q;
  currentCooldown : Q;
  energyCost : Q
}.

Definition set_currentCooldown (c : Q) (s : Skill) : Skill :=
  mkSkill (skill_id s) (skill_name s) (skill_type s) (targetType s)
          (skill_effects s) (cooldown s) c (energyCost s).

(** ** The object heap

    References to [CombatEntity] and [Skill] objects are natural numbers;
    reading through a reference is total, as it is in the source. *)

Definition defaultStats : CombatStats := mkStats 0 0 0 0 0 0 0 0.
Definition defaultEntity : CombatEntity :=
  mkEntity EmptyString EmptyString defaultStats (mkVec 0 0 0) false.
Definition defaultSkill : Skill :=
  mkSkill EmptyString EmptyString SkillType.ATTACK TargetType.SELF [] 0 0 0.

#[global] Instance CombatEntity_inhabited : Inhabited CombatEntity :=
  populate defaultEntity.
#[global] Instance Skill_inhabited : Inhabited Skill := populate defaultSkill.

Record Heap := mkHeap {
  ents : gmap nat CombatEntity;
  skills : gmap nat Skill
}.

Definition entity (h : Heap) (r : nat) : CombatEntity := ents h !!! r.
Definition skill (h : Heap) (r : nat) : Skill := skills h !!! r.

Definition update_entity (r : nat) (f : CombatEntity -> CombatEntity)
    (h : Heap) : Heap :=
  mkHeap (<[r := f (entity h r)]> (ents h)) (skills h).

Definition update_skill (r : nat) (f : Skill -> Skill) (h : Heap) : Heap :=
  mkHeap (ents h) (<[r := f (skill h r)]> (skills h)).

Definition update_stats (r : nat) (f : CombatStats -> CombatStats)
    (h : Heap) : Heap :=
  update_entity r (fun e => set_stats (f (stats e)) e) h.

(** ** SkillManager *)

Record SkillResult := mkSkillResult {
  success : bool;
  sr_targets : list nat;
  sr_effects : list (nat * SkillEffect * Q);
  sr_message : string
}.

Module SkillManager.

(** [calculateSkillEffect(baseValue, source, target)] *)
Definition calculateSkillEffect (baseValue : Q)
    (source target : CombatEntity) : Q :=
  let attackMultiplier := Double.div (attack (stats source)) 100 in
  let defenseMultiplier := Double.div (defense (stats target)) 100 in
  Num.floor
    (Double.mul (Double.mul baseValue attackMultiplier)
       (Double.sub 1 defenseMultiplier)).

(** [executeSkill(skill, source, targets)]: the result and the heap after
    the call. *)
Definition executeSkill (h : Heap) (sk source : nat) (targets : list nat)
    : SkillResult * Heap :=
  if Num.ltb 0 (currentCooldown (skill h sk)) then
    (mkSkillResult false [] [] "Skill is on cooldown", h)
  else if Num.ltb (currentEnergy (stats (entity h source)))
                  (energyCost (skill h sk)) then
    (mkSkillResult false [] [] "Not enough energy", h)
  else
    let effects :=
      flat_map (fun target =>
        map (fun effect =>
               (target, effect,
                calculateSkillEffect (se_value effect)
                  (entity h source) (entity h target)))
            (skill_effects (skill h sk)))
        targets in
    let h1 := update_skill sk
                (fun s => set_currentCooldown (cooldown s) s) h in
    let h2 := update_stats source
                (fun s => set_currentEnergy
                            (currentEnergy s - energyCost (skill h1 sk)) s) h1 in
    (mkSkillResult true targets effects
       (skill_name (skill h sk) ++ " executed successfully"), h2).

(** One loadout slot holds a reference to a skill, or nothing. *)
Definition Slots := list (option nat).

(** [updateCooldowns()] *)
Definition updateCooldowns (slots : Slots) (h : Heap) : Heap :=
  fold_left
    (fun h slot =>
       match slot with
       | Some sk =>
           if Num.ltb 0 (currentCooldown (skill h sk)) then
             update_skill sk
               (fun s => set_currentCooldown (currentCooldown s - 1) s) h
           else h
       | None => h
       end)
    slots h.

(** [getAvailableSkills(source)] *)
Definition getAvailableSkills (slots : Slots) (h : Heap) (source : nat)
    : list nat :=
  omap id
    (List.filter
       (fun slot =>
          match slot with
          | Some sk =>
              Num.eqb (currentCooldown (skill h sk)) 0 &&
              Num.leb (energyCost (skill h sk))
                      (currentEnergy (stats (entity h source)))
          | None => false
          end)
       (List.filter (fun slot : option nat => bool_decide (is_Some slot))
                    slots)).

End SkillManager.

(** ** Passives (PassiveData.ts, PassiveManager) *)

Module PassiveTrigger.
Inductive t := ON_ATTACK | ON_DAMAGED | ON_KILL | ON_HEAL | PERMANENT.
#[global] Instance eq_dec : EqDecision t.
Proof. solve_decision. Defined.
End PassiveTrigger.

Module PassiveType.
Inductive t :=
  STAT_BOOST | LIFE_STEAL | DAMAGE_REFLECT | CRIT_CHANCE | DODGE_CHANCE
| HEAL_BOOST.
#[global] Instance eq_dec : EqDecision t.
Proof. solve_decision. Defined.
End PassiveType.

Record PassiveEffect := mkPassiveEffect {
  pe_type : PassiveType.t;
  pe_value : Q;
  pe_chance : option Q;
  pe_duration : option Q
}.

Record Passive := mkPassive {
  passive_id : string;
  passive_name : string;
  trigger : PassiveTrigger.t;
  passive_effects : list PassiveEffect;
  passive_level : Q;
  passive_maxLevel : Q
}.

Record PassiveResult := mkPassiveResult {
  pr_passive : Passive;
  triggered : bool;
  pr_source : nat;
  pr_target : option nat;
  pr_effects : list (PassiveType.t * Q);
  pr_message : string
}.

(** [Math.random] is an oracle: the sequence of numbers it will return,
    and how many of them have been drawn. *)
Record Random := mkRandom { draws : nat -> Q; drawn : nat }.

Definition random (r : Random) : Q * Random :=
  (draws r (drawn r), mkRandom (draws r) (S (drawn r))).

Module PassiveManager.

Definition Slots := list (option Passive).

(** [passive.effects.every(effect => !effect.chance || Math.random() <
    effect.chance)]; [every] stops at the first effect that fails. *)
Fixpoint everyChance (effects : list PassiveEffect) (r : Random)
    : bool * Random :=
  match effects with
  | [] => (true, r)
  | effect :: rest =>
      match pe_chance effect with
      | Some chance =>
          if Num.truthy chance then
            let '(x, r1) := random r in
            if Num.ltb x chance then everyChance rest r1 else (false, r1)
          else everyChance rest r
      | None => everyChance rest r
      end
  end.

(** [rollPassive(passive)] *)
Definition rollPassive (passive : Passive) (r : Random) : bool * Random :=
  if decide (trigger passive = PassiveTrigger.PERMANENT) then (true, r)
  else everyChance (passive_effects passive) r.

(** [calculatePassiveEffect(baseValue, source, target, triggerValue)] *)
Definition calculatePassiveEffect (baseValue : Q) (source : CombatEntity)
    (triggerValue : option Q) : Q :=
  let levelMultiplier :=
    Double.add 1
      (Double.mul (Double.sub (level (stats source)) 1)
         (Double.round (1 # 10))) in
  let tv := match triggerValue with
            | Some v => if Num.truthy v then v else 1
            | None => 1
            end in
  Num.floor (Double.mul (Double.mul baseValue levelMultiplier) tv).

(** [checkTrigger(trigger, source, target, value)] *)
Fixpoint checkTrigger (slots : Slots) (h : Heap) (tr : PassiveTrigger.t)
    (source : nat) (target : option nat) (value : option Q) (r : Random)
    : list PassiveResult * Random :=
  match slots with
  | [] => ([], r)
  | None :: rest => checkTrigger rest h tr source target value r
  | Some passive :: rest =>
      if decide (trigger passive = tr) then
        let '(ok, r1) := rollPassive passive r in
        let '(results, r2) := checkTrigger rest h tr source target value r1 in
        if ok then
          let effects :=
            map (fun effect =>
                   (pe_type effect,
                    calculatePassiveEffect (pe_value effect)
                      (entity h source) value))
                (passive_effects passive) in
          (mkPassiveResult passive true source target effects
             (passive_name passive ++ " triggered") :: results, r2)
        else (results, r2)
      else checkTrigger rest h tr source target value r
  end.

(** [getActivePassives()] *)
Definition getActivePassives (slots : Slots) : list Passive := omap id slots.

(** The body of the inner [forEach] of [applyPermanentPassives]. *)
Definition applyPermanentEffect (s : CombatStats) (effect : PassiveEffect)
    : CombatStats :=
  if decide (pe_type effect = PassiveType.STAT_BOOST) then
    let maxHealth' := maxHealth s + pe_value effect * 10 in
    mkStats (level s) maxHealth'
      (Qmin (currentHealth s + pe_value effect * 10) maxHealth')
      (attack s + pe_value effect) (defense s + pe_value effect)
      (speed s) (maxEnergy s) (currentEnergy s)
  else s.

(** [applyPermanentPassives(entity)], on the entity's stat block. *)
Definition applyPermanentPassives (slots : Slots) (s : CombatStats)
    : CombatStats :=
  let permanentPassives :=
    List.filter
      (fun p => bool_decide (trigger p = PassiveTrigger.PERMANENT))
      (getActivePassives slots) in
  fold_left
    (fun s passive => fold_left applyPermanentEffect (passive_effects passive) s)
    permanentPassives s.

End PassiveManager.

(** ** A JavaScript [Map] with string keys, in insertion order *)

Module JsMap.

Definition t (V : Type) := list (string * V).

Fixpoint get {V} (k : string) (m : t V) : option V :=
  match m with
  | [] => None
  | (k', v) :: rest => if decide (k = k') then Some v else get k rest
  end.

(** [set] keeps the position of a key that is already present. *)
Fixpoint set {V} (k : string) (v : V) (m : t V) : t V :=
  match m with
  | [] => [(k, v)]
  | (k', v') :: rest =>
      if decide (k = k') then (k, v) :: rest else (k', v') :: set k v rest
  end.

Definition values {V} (m : t V) : list V := map snd m.
Definition keys {V} (m : t V) : list string := map fst m.

End JsMap.

(** ** Gear (GearData.ts) *)

Module GearSlot.
Inductive t :=
  HEAD | CHEST | LEGS | FEET | WEAPON | OFFHAND | ACCESSORY1 | ACCESSORY2.
#[global] Instance eq_dec : EqDecision t.
Proof. solve_decision. Defined.
(** The key order of the loadout object, which [Object.values] follows. *)
Definition all : list t :=
  [HEAD; CHEST; LEGS; FEET; WEAPON; OFFHAND; ACCESSORY1; ACCESSORY2].
End GearSlot.

Module GearRarity.
Inductive t := COMMON | UNCOMMON | RARE | EPIC | LEGENDARY.
End GearRarity.

Record GearStats := mkGearStats {
  g_attack : Q;
  g_defense : Q;
  g_health : Q;
  g_speed : Q;
  g_energy : Q
}.

Record GearItem := mkGearItem {
  gear_id : string;
  gear_name : string;
  slot : GearSlot.t;
  rarity : GearRarity.t;
  gear_level : Q;
  baseStats : GearStats;
  setId : option string
}.

Record GearSetBonus := mkGearSetBonus {
  pieces : Q;
  bonus_stats : GearStats
}.

Record GearSet := mkGearSet {
  set_id : string;
  set_name : string;
  bonuses : list GearSetBonus
}.

Definition GearLoadout := GearSlot.t -> option GearItem.

Record ActiveSetBonus := mkActiveSetBonus {
  asb_setId : string;
  activeBonuses : list Q
}.

Record GearTotalStats := mkGearTotalStats {
  total_stats : GearStats;
  setBonuses : list ActiveSetBonus
}.

(** ** GearManager *)

Module GearManager.

Record t := mk {
  gear : gmap string GearItem;
  loadout : GearLoadout;
  gearSets : gmap string GearSet
}.

Definition zeroStats : GearStats := mkGearStats 0 0 0 0 0.

(** [Object.entries(v).forEach(([stat, value]) => acc[stat] += value)] *)
Definition addStats (acc v : GearStats) : GearStats :=
  mkGearStats (g_attack acc + g_attack v) (g_defense acc + g_defense v)
              (g_health acc + g_health v) (g_speed acc + g_speed v)
              (g_energy acc + g_energy v).

(** [Object.values(this.loadout)] *)
Definition loadoutValues (l : GearLoadout) : list (option GearItem) :=
  map l GearSlot.all.

(** [equipGear(gearId, slot)] *)
Definition equipGear (gearId : string) (sl : GearSlot.t) (g : t) : bool * t :=
  match gear g !! gearId with
  | Some item =>
      if decide (slot item = sl) then
        (true,
         mk (gear g)
            (fun s => if decide (s = sl) then Some item else loadout g s)
            (gearSets g))
      else (false, g)
  | None => (false, g)
  end.

(** A set id counts when it is a non-empty string ([item?.setId]). *)
Definition itemSetId (item : option GearItem) : option string :=
  match item with
  | Some it =>
      match setId it with
      | Some sid => if decide (sid = EmptyString) then None else Some sid
      | None => None
      end
  | None => None
  end.

(** The loop that counts the equipped pieces per set. *)
Definition countStep (setPieces : JsMap.t Q) (item : option GearItem)
    : JsMap.t Q :=
  match itemSetId item with
  | Some sid => JsMap.set sid (default 0 (JsMap.get sid setPieces) + 1) setPieces
  | None => setPieces
  end.

Definition countSetPieces (l : GearLoadout) : JsMap.t Q :=
  fold_left countStep (loadoutValues l) [].

(** The tiers of a set that [count] pieces unlock. *)
Definition activeTiers (count : Q) (s : GearSet) : list GearSetBonus :=
  List.filter (fun bonus => Num.leb (pieces bonus) count) (bonuses s).

(** [calculateSetBonuses()] *)
Definition calculateSetBonuses (g : t) : GearStats :=
  fold_left
    (fun acc '(sid, count) =>
       match gearSets g !! sid with
       | Some s => fold_left addStats (map bonus_stats (activeTiers count s)) acc
       | None => acc
       end)
    (countSetPieces (loadout g)) zeroStats.

(** [getActiveSetBonuses()] *)
Definition getActiveSetBonuses (g : t) : list ActiveSetBonus :=
  fold_left
    (fun acc '(sid, count) =>
       match gearSets g !! sid with
       | Some s =>
           let active := map pieces (activeTiers count s) in
           match active with
           | [] => acc
           | _ => acc ++ [mkActiveSetBonus sid active]
           end
       | None => acc
       end)
    (countSetPieces (loadout g)) [].

(** The first loop of [calculateTotalStats]: the equipped items' stats. *)
Definition sumBaseStats (l : GearLoadout) : GearStats :=
  fold_left
    (fun acc item =>
       match item with
       | Some it => addStats acc (baseStats it)
       | None => acc
       end)
    (loadoutValues l) zeroStats.

(** [calculateTotalStats()] *)
Definition calculateTotalStats (g : t) : GearTotalStats :=
  mkGearTotalStats
    (addStats (sumBaseStats (loadout g)) (calculateSetBonuses g))
    (getActiveSetBonuses g).

(** [applyGearStats(entity)], on the entity's stat block. *)
Definition applyGearStats (g : t) (s : CombatStats) : CombatStats :=
  let totalStats := total_stats (calculateTotalStats g) in
  let maxHealth' := maxHealth s + g_health totalStats in
  let maxEnergy' := maxEnergy s + g_energy totalStats in
  mkStats (level s) maxHealth'
    (Qmin (currentHealth s + g_health totalStats) maxHealth')
    (attack s + g_attack totalStats) (defense s + g_defense totalStats)
    (speed s + g_speed totalStats) maxEnergy'
    (Qmin (currentEnergy s + g_energy totalStats) maxEnergy').

End GearManager.

(** ** Progression (ProgressionTypes.ts, ProgressionManager) *)

Module RunResult.
Inductive t := VICTORY | DEFEAT.
End RunResult.

Module MetaUpgradeType.
Inductive t :=
  DAMAGE_BOOST | HEALTH_BOOST | DEFENSE_BOOST | SPEED_BOOST | RESOURCE_GAIN
| XP_GAIN | ENERGY_BOOST | SKILL_COOLDOWN.
#[global] Instance eq_dec : EqDecision t.
Proof. solve_decision. Defined.
End MetaUpgradeType.

Record RunStats := mkRunStats {
  runId : string;
  startTime : Q;
  endTime : Q;
  enemiesDefeated : Q;
  damageDealt : Q;
  damageTaken : Q;
  resourcesGained : Q;
  result : RunResult.t;
  difficulty : Q;
  wave : Q
}.

Record MetaUpgrade := mkMetaUpgrade {
  upgrade_id : string;
  upgrade_name : string;
  upgrade_type : MetaUpgradeType.t;
  value : Q;
  cost : Q;
  maxLevel : Q;
  currentLevel : Q
}.

Record Statistics := mkStatistics {
  totalEnemiesDefeated : Q;
  totalDamageDealt : Q;
  totalDamageTaken : Q;
  totalResourcesGained : Q;
  totalPlayTime : Q
}.

Record PlayerProgress := mkPlayerProgress {
  totalRuns : Q;
  bestRun : option RunStats;
  resources : Q;
  metaUpgrades : JsMap.t MetaUpgrade;
  unlockedContent : list string;
  statistics : Statistics
}.

Inductive CombatEvent := damage_dealt | damage_taken | enemy_defeated.

Module ProgressionManager.

(** The manager's fields; [storage] is what [saveProgress] last wrote
    under the save key. *)
Record t := mk {
  currentRun : option RunStats;
  progress : PlayerProgress;
  storage : option PlayerProgress
}.

(** [getMetaUpgradeEffect(type)] *)
Definition getMetaUpgradeEffect (p : PlayerProgress)
    (ty : MetaUpgradeType.t) : Q :=
  match List.find (fun u => bool_decide (upgrade_type u = ty))
                  (JsMap.values (metaUpgrades p)) with
  | Some upgrade => value upgrade * currentLevel upgrade
  | None => 0
  end.

(** [x || 0] on a number. *)
Definition orZero (x : Q) : Q := if Num.truthy x then x else 0.

(** [calculateResourceGain(enemyLevel)] *)
Definition calculateResourceGain (p : PlayerProgress) (enemyLevel : Q) : Q :=
  let baseGain := enemyLevel * 5 in
  let resourceMultiplier :=
    1 + orZero (getMetaUpgradeEffect p MetaUpgradeType.RESOURCE_GAIN) in
  Num.floor (baseGain * resourceMultiplier).

(** [trackCombatEvent(type, value)] *)
Definition trackCombatEvent (ev : CombatEvent) (v : Q) (m : t) : t :=
  match currentRun m with
  | None => m
  | Some run =>
      let run' :=
        match ev with
        | damage_dealt =>
            mkRunStats (runId run) (startTime run) (endTime run)
              (enemiesDefeated run) (damageDealt run + v) (damageTaken run)
              (resourcesGained run) (result run) (difficulty run) (wave run)
        | damage_taken =>
            mkRunStats (runId run) (startTime run) (endTime run)
              (enemiesDefeated run) (damageDealt run) (damageTaken run + v)
              (resourcesGained run) (result run) (difficulty run) (wave run)
        | enemy_defeated =>
            mkRunStats (runId run) (startTime run) (endTime run)
              (enemiesDefeated run + 1) (damageDealt run) (damageTaken run)
              (resourcesGained run + calculateResourceGain (progress m) v)
              (result run) (difficulty run) (wave run)
        end in
      mk (Some run') (progress m) (storage m)
  end.

(** [saveProgress()] *)
Definition saveProgress (m : t) : t :=
  mk (currentRun m) (progress m) (Some (progress m)).

(** [purchaseUpgrade(upgradeId)]: the returned flag and the manager after
    the call. *)
Definition purchaseUpgrade (upgradeId : string) (m : t) : bool * t :=
  let p := progress m in
  match JsMap.get upgradeId (metaUpgrades p) with
  | None => (false, m)
  | Some upgrade =>
      if Num.leb (maxLevel upgrade) (currentLevel upgrade)
         || Num.ltb (resources p) (cost upgrade) then (false, m)
      else
        let upgrade' :=
          mkMetaUpgrade (upgrade_id upgrade) (upgrade_name upgrade)
            (upgrade_type upgrade) (value upgrade)
            (Num.floor (cost upgrade * (3 # 2)))
            (maxLevel upgrade) (currentLevel upgrade + 1) in
        let p' :=
          mkPlayerProgress (totalRuns p) (bestRun p)
            (resources p - cost upgrade)
            (JsMap.set upgradeId upgrade' (metaUpgrades p))
            (unlockedContent p) (statistics p) in
        (true, saveProgress (mk (currentRun m) p' (storage m)))
  end.

End ProgressionManager.

(** ** Combat actions and the state of a combat session *)

(** A [MOVE] action holds a reference to the position vector of its target
    entity, not a copy: [targetPosition] names the entity that owns the
    vector. *)
Inductive CombatAction :=
| MOVE (source targetPosition : nat)
| ATTACK (source target : nat) (damage : Q)
| SKILL (source target sk : nat).

Definition action_source (a : CombatAction) : nat :=
  match a with
  | MOVE s _ | ATTACK s _ _ | SKILL s _ _ => s
  end.

Record CombatRound := mkRound {
  roundNumber : Q;
  actions : list CombatAction;
  timestamp : Q
}.

Record CombatResult := mkResult {
  state : CombatState;
  winner : option nat;
  experienceGained : option Q;
  lootDropped : option (list unit)
}.

(** Calls to the animation sink and to the enemy spawner, which the core
    fires and forgets. *)
Inductive Effect :=
| PlayPlayerAnimation (animation : string)
| SpawnerPlayAnimation (enemyId animation : string)
| SpawnerRemoveEnemy (enemyId : string).

(** The fields of [CombatManager], the managers it holds, the object heap
    and the environment. *)
Record World := mkWorld {
  heap : Heap;
  player : nat;
  enemies : list nat;
  currentState : CombatState;
  rounds : list CombatRound;
  currentRound : Q;
  actionQueue : list CombatAction;
  lastRoundTime : Q;
  skillSlots : SkillManager.Slots;
  passiveSlots : PassiveManager.Slots;
  progression : ProgressionManager.t;
  rng : Random;
  trace : list Effect
}.

Definition set_heap (h : Heap) (w : World) : World :=
  mkWorld h (player w) (enemies w) (currentState w) (rounds w)
    (currentRound w) (actionQueue w) (lastRoundTime w) (skillSlots w)
    (passiveSlots w) (progression w) (rng w) (trace w).

Definition set_enemies (l : list nat) (w : World) : World :=
  mkWorld (heap w) (player w) l (currentState w) (rounds w)
    (currentRound w) (actionQueue w) (lastRoundTime w) (skillSlots w)
    (passiveSlots w) (progression w) (rng w) (trace w).

Definition set_currentState (s : CombatState) (w : World) : World :=
  mkWorld (heap w) (player w) (enemies w) s (rounds w)
    (currentRound w) (actionQueue w) (lastRoundTime w) (skillSlots w)
    (passiveSlots w) (progression w) (rng w) (trace w).

Definition push_round (r : CombatRound) (w : World) : World :=
  mkWorld (heap w) (player w) (enemies w) (currentState w) (rounds w ++ [r])
    (currentRound w + 1) (actionQueue w) (lastRoundTime w) (skillSlots w)
    (passiveSlots w) (progression w) (rng w) (trace w).

Definition set_actionQueue (q : list CombatAction) (w : World) : World :=
  mkWorld (heap w) (player w) (enemies w) (currentState w) (rounds w)
    (currentRound w) q (lastRoundTime w) (skillSlots w)
    (passiveSlots w) (progression w) (rng w) (trace w).

Definition set_lastRoundTime (t : Q) (w : World) : World :=
  mkWorld (heap w) (player w) (enemies w) (currentState w) (rounds w)
    (currentRound w) (actionQueue w) t (skillSlots w)
    (passiveSlots w) (progression w) (rng w) (trace w).

Definition set_progression (p : ProgressionManager.t) (w : World) : World :=
  mkWorld (heap w) (player w) (enemies w) (currentState w) (rounds w)
    (currentRound w) (actionQueue w) (lastRoundTime w) (skillSlots w)
    (passiveSlots w) p (rng w) (trace w).

Definition set_rng (r : Random) (w : World) : World :=
  mkWorld (heap w) (player w) (enemies w) (currentState w) (rounds w)
    (currentRound w) (actionQueue w) (lastRoundTime w) (skillSlots w)
    (passiveSlots w) (progression w) r (trace w).

Definition emit (e : Effect) (w : World) : World :=
  mkWorld (heap w) (player w) (enemies w) (currentState w) (rounds w)
    (currentRound w) (actionQueue w) (lastRoundTime w) (skillSlots w)
    (passiveSlots w) (progression w) (rng w) (trace w ++ [e]).

(** Reading an entity of the session through its reference. *)
Definition ent (w : World) (r : nat) : CombatEntity := entity (heap w) r.
Definition health (w : World) (r : nat) : Q := currentHealth (stats (ent w r)).

(** ** [Array.prototype.sort] with a comparator

    The sort of the language is stable: an element moves behind another
    one only when the comparator is positive on the pair. *)
Section Sort.

Context {A : Type} (cmp : A -> A -> Q).

Fixpoint insertBy (x : A) (l : list A) : list A :=
  match l with
  | [] => [x]
  | y :: ys => if Num.ltb 0 (cmp x y) then y :: insertBy x ys else x :: l
  end.

Definition sortBy (l : list A) : list A := foldr insertBy [] l.

End Sort.

(** ** CombatManager *)

Module CombatManager.

Definition ROUND_DURATION : Q := 2000.
Definition MOVE_SPEED : Q := 1 # 10.
Definition ATTACK_RANGE : Q := 1.

(** [calculateDamage(attacker, defender)] *)
Definition calculateDamage (attacker defender : CombatEntity) : Q :=
  let baseDamage := attack (stats attacker) in
  let defense := defense (stats defender) in
  Qmax 1 (baseDamage - defense).

(** [isWithinAttackRange(pos1, pos2)] *)
Definition isWithinAttackRange (pos1 pos2 : Vector3) : bool :=
  let dx := Double.sub (vx pos1) (vx pos2) in
  let dz := Double.sub (vz pos1) (vz pos2) in
  Num.leb (Double.add (Double.mul dx dx) (Double.mul dz dz))
          (Double.mul ATTACK_RANGE ATTACK_RANGE).

(** [findNearestEnemy(position)]; [minDistance] starts at infinity, which
    is [None] here. *)
Definition findNearestEnemy (w : World) (pos : Vector3) : option nat :=
  fst
    (fold_left
       (fun '(nearest, minDistance) enemy =>
          if Num.leb (health w enemy) 0 then (nearest, minDistance)
          else
            let dx := Double.sub (vx (position (ent w enemy))) (vx pos) in
            let dz := Double.sub (vz (position (ent w enemy))) (vz pos) in
            let distSq := Double.add (Double.mul dx dx) (Double.mul dz dz) in
            match minDistance with
            | Some m =>
                if Num.ltb distSq m then (Some enemy, Some distSq)
                else (nearest, minDistance)
            | None => (Some enemy, Some distSq)
            end)
       (enemies w) (None, None)).

(** [determinePlayerAction()] *)
Definition determinePlayerAction (w : World) : option CombatAction :=
  match findNearestEnemy w (position (ent w (player w))) with
  | None => None
  | Some nearestEnemy =>
      match SkillManager.getAvailableSkills (skillSlots w) (heap w)
              (player w) with
      | sk :: _ => Some (SKILL (player w) nearestEnemy sk)
      | [] =>
          if isWithinAttackRange (position (ent w (player w)))
                                 (position (ent w nearestEnemy)) then
            Some (ATTACK (player w) nearestEnemy
                    (calculateDamage (ent w (player w)) (ent w nearestEnemy)))
          else Some (MOVE (player w) nearestEnemy)
      end
  end.

(** [determineEnemyAction(enemy)] *)
Definition determineEnemyAction (w : World) (enemy : nat)
    : option CombatAction :=
  if isWithinAttackRange (position (ent w enemy))
                         (position (ent w (player w))) then
    Some (ATTACK enemy (player w)
            (calculateDamage (ent w enemy) (ent w (player w))))
  else Some (MOVE enemy (player w)).

(** [determineAction(entity)] *)
Definition determineAction (w : World) (e : nat) : option CombatAction :=
  if isPlayer (ent w e) then determinePlayerAction w
  else determineEnemyAction w e.

(** The entities that act in a round, in the order in which they act. *)
Definition aliveEntities (w : World) : list nat :=
  sortBy (fun a b => speed (stats (ent w b)) - speed (stats (ent w a)))
    (List.filter (fun e => Num.ltb 0 (health w e)) (player w :: enemies w)).

(** [processRound()], at the time [now] that [Date.now()] returns. *)
Definition processRound (now : Q) (w : World) : World :=
  let queue := omap (determineAction w) (aliveEntities w) in
  push_round (mkRound (currentRound w) queue now) (set_actionQueue queue w).

(** [removeEnemy(enemy)]: [indexOf] and [splice] remove the first
    occurrence of the reference. *)
Fixpoint removeFirst (r : nat) (l : list nat) : list nat :=
  match l with
  | [] => []
  | x :: xs => if decide (x = r) then xs else x :: removeFirst r xs
  end.

Definition removeEnemy (enemy : nat) (w : World) : World :=
  if bool_decide (enemy ∈ enemies w) then
    emit (SpawnerRemoveEnemy (ent_id (ent w enemy)))
      (set_enemies (removeFirst enemy (enemies w)) w)
  else w.

Definition track (ev : CombatEvent) (v : Q) (w : World) : World :=
  set_progression (ProgressionManager.trackCombatEvent ev v (progression w)) w.

Definition playAnimation (who : nat) (animation : string) (w : World)
    : World :=
  if isPlayer (ent w who) then emit (PlayPlayerAnimation animation) w
  else emit (SpawnerPlayAnimation (ent_id (ent w who)) animation) w.

(** [handleAttack(attacker, target)] *)
Definition handleAttack (attacker target : nat) (w : World) : World :=
  let damage :=
    Qmax 1 (attack (stats (ent w attacker)) - defense (stats (ent w target))) in
  let w1 :=
    set_heap
      (update_stats target
         (fun s => set_currentHealth (Qmax 0 (currentHealth s - damage)) s)
         (heap w)) w in
  let w2 := playAnimation attacker "attack" w1 in
  let w3 := playAnimation target "hit" w2 in
  let w4 :=
    if isPlayer (ent w3 attacker) then track damage_dealt damage w3
    else track damage_taken damage w3 in
  if Num.leb (health w4 target) 0 then
    if isPlayer (ent w4 target) then w4
    else removeEnemy target
           (track enemy_defeated (level (stats (ent w4 target))) w4)
  else w4.

(** [handleSkillEffect(source, effect)] *)
Definition handleSkillEffect (source : nat)
    (effect : nat * SkillEffect * Q) (w : World) : World :=
  let '(target, eff, v) := effect in
  match se_type eff with
  | SkillType.ATTACK => handleAttack source target w
  | SkillType.HEAL =>
      set_heap
        (update_stats target
           (fun s => set_currentHealth
                       (Qmin (maxHealth s) (currentHealth s + v)) s)
           (heap w)) w
  | SkillType.BUFF => w
  | SkillType.DEBUFF => w
  end.

(** The damage that the [ATTACK] case of [processActions] accumulates in
    its local variable [finalDamage] from the triggered passives. *)
Definition finalDamage (damage : Q) (attackPassives : list PassiveResult)
    : Q :=
  fold_left
    (fun fd res =>
       fold_left (fun fd effect => fd * (1 + snd effect)) (pr_effects res) fd)
    attackPassives damage.

Section WithSqrt.

(** [Math.sqrt], which the vector library uses to normalise a direction;
    [Double.sqrt] is the function of the code. *)
Variable sqrt : Q -> Q.

(** The operations of the vector library that [moveEntity] calls. *)
Definition vsub (a b : Vector3) : Vector3 :=
  mkVec (vx a - vx b) (vy a - vy b) (vz a - vz b).

Definition vlength (a : Vector3) : Q :=
  sqrt (vx a * vx a + vy a * vy a + vz a * vz a).

Definition vnormalize (a : Vector3) : Vector3 :=
  let len := if Num.truthy (vlength a) then vlength a else 1 in
  mkVec (vx a * (1 / len)) (vy a * (1 / len)) (vz a * (1 / len)).

Definition addScaledVector (a v : Vector3) (s : Q) : Vector3 :=
  mkVec (vx a + vx v * s) (vy a + vy v * s) (vz a + vz v * s).

(** [moveEntity(entity, targetPosition)] *)
Definition moveEntity (e targetPosition : nat) (w : World) : World :=
  let direction :=
    vnormalize (vsub (position (ent w targetPosition)) (position (ent w e))) in
  set_heap
    (update_entity e
       (fun x => set_position (addScaledVector (position x) direction MOVE_SPEED) x)
       (heap w)) w.

(** One iteration of the loop of [processActions]. *)
Definition processAction (action : CombatAction) (w : World) : World :=
  match action with
  | ATTACK source target damage =>
      let '(attackPassives, r) :=
        PassiveManager.checkTrigger (passiveSlots w) (heap w)
          PassiveTrigger.ON_ATTACK source (Some target) (Some damage) (rng w) in
      let finalDamage := finalDamage damage attackPassives in
      handleAttack source target (set_rng r w)
  | SKILL source target sk =>
      let '(res, h) := SkillManager.executeSkill (heap w) sk source [target] in
      let w1 := set_heap h w in
      if success res then
        fold_left (fun w effect => handleSkillEffect source effect w)
                  (sr_effects res) w1
      else w1
  | MOVE source targetPosition => moveEntity source targetPosition w
  end.

(** [processActions()]: the queue is drained from its head; no action
    reads or extends the queue while it is resolved. *)
Definition processActions (w : World) : World :=
  set_actionQueue []
    (fold_left (fun w action => processAction action w) (actionQueue w) w).

(** [calculateExperienceGain()] *)
Definition calculateExperienceGain (w : World) : Q :=
  fold_left (fun total enemy => total + level (stats (ent w enemy)) * 10)
            (enemies w) 0.

(** [generateLoot()] *)
Definition generateLoot (w : World) : list unit := [].

Definition allEnemiesDown (w : World) : bool :=
  forallb (fun enemy => Num.leb (health w enemy) 0) (enemies w).

(** [checkCombatEnd()]: the result that is handed to [endCombat], if any. *)
Definition checkCombatEnd (w : World) : option CombatResult :=
  if Num.leb (health w (player w)) 0 then
    Some (mkResult DEFEAT
            (List.find (fun e => Num.ltb 0 (health w e)) (enemies w))
            None None)
  else if allEnemiesDown w then
    Some (mkResult VICTORY (Some (player w))
            (Some (calculateExperienceGain w)) (Some (generateLoot w)))
  else None.

(** [endCombat(result)] *)
Definition endCombat (res : CombatResult) (w : World) : World :=
  set_currentState (state res) w.

(** [update()] up to the check of the end conditions. *)
Definition advance (now : Q) (w : World) : World :=
  let deltaTime := now - lastRoundTime w in
  let w1 :=
    if Num.leb ROUND_DURATION deltaTime then
      let w' := set_lastRoundTime now (processRound now w) in
      set_heap (SkillManager.updateCooldowns (skillSlots w') (heap w')) w'
    else w in
  processActions w1.

(** [update()], at the time [now] that [Date.now()] returns. *)
Definition update (now : Q) (w : World) : World :=
  match currentState w with
  | IN_PROGRESS =>
      let w1 := advance now w in
      if Num.leb (health w1 (player w1)) 0 || allEnemiesDown w1 then
        match checkCombatEnd w1 with
        | Some res => endCombat res w1
        | None => w1
        end
      else w1
  | _ => w
  end.

(** [addEnemy(enemy)] and [startCombat()] *)
Definition addEnemy (enemy : nat) (w : World) : World :=
  set_enemies (enemies w ++ [enemy]) w.

Definition startCombat (now : Q) (w : World) : World :=
  mkWorld (heap w) (player w) (enemies w) IN_PROGRESS (rounds w) 1
    (actionQueue w) now (skillSlots w) (passiveSlots w) (progression w)
    (rng w) (trace w).

End WithSqrt.

End CombatManager.

Import CombatManager.

(** ** The loadouts of the managers

    A manager keeps its objects in a [Map] keyed by their id and puts the
    same objects into its slots; the slots of the models below hold
    references into that store, so that a change of an object is seen
    through every slot that holds it.  The index of a slot is an integer
    (the source indexes an array with it). *)

#[global] Instance Passive_inhabited : Inhabited Passive :=
  populate (mkPassive EmptyString EmptyString PassiveTrigger.PERMANENT [] 0 0).

#[global] Instance GearItem_inhabited : Inhabited GearItem :=
  populate (mkGearItem EmptyString EmptyString GearSlot.HEAD GearRarity.COMMON 0
              (mkGearStats 0 0 0 0 0) None).

Module SkillLoadout.

(** [this.skills] maps an id to the reference of the skill object in the
    heap; [this.loadout] is [slots] and [maxSlots]. *)
Record t := mk {
  registry : gmap string nat;
  slots : SkillManager.Slots;
  maxSlots : Z
}.

(** [new SkillManager(maxSlots)], before the default skills are added. *)
Definition create (n : nat) : t := mk ∅ (replicate n None) (Z.of_nat n).

Definition outOfRange (slotIndex : Z) (m : t) : bool :=
  (slotIndex <? 0)%Z || (maxSlots m <=? slotIndex)%Z.

(** [equipSkill(skillId, slotIndex)] *)
Definition equipSkill (skillId : string) (slotIndex : Z) (h : Heap) (m : t)
    : bool * t :=
  if outOfRange slotIndex m then (false, m)
  else
    match registry m !! skillId with
    | None => (false, m)
    | Some sk =>
        let vacated :=
          map (fun slot =>
                 match slot with
                 | Some s =>
                     if decide (skill_id (skill h s) = skillId) then None
                     else Some s
                 | None => None
                 end)
              (slots m) in
        (true,
         mk (registry m) (<[Z.to_nat slotIndex := Some sk]> vacated)
            (maxSlots m))
    end.

(** [unequipSkill(slotIndex)] *)
Definition unequipSkill (slotIndex : Z) (m : t) : bool * t :=
  if outOfRange slotIndex m then (false, m)
  else (true, mk (registry m) (<[Z.to_nat slotIndex := None]> (slots m))
                 (maxSlots m)).

End SkillLoadout.

Module PassiveLoadout.

(** [this.passives] is the store of the passive objects, keyed by id; a
    slot holds the key of its passive. *)
Record t := mk {
  passives : gmap string Passive;
  slots : list (option string);
  maxSlots : Z
}.

Definition passiveAt (m : t) (key : string) : Passive := passives m !!! key.

Definition outOfRange (slotIndex : Z) (m : t) : bool :=
  (slotIndex <? 0)%Z || (maxSlots m <=? slotIndex)%Z.

(** [equipPassive(passiveId, slotIndex)] *)
Definition equipPassive (passiveId : string) (slotIndex : Z) (m : t)
    : bool * t :=
  if outOfRange slotIndex m then (false, m)
  else
    match passives m !! passiveId with
    | None => (false, m)
    | Some _ =>
        let vacated :=
          map (fun slot =>
                 match slot with
                 | Some key =>
                     if decide (passive_id (passiveAt m key) = passiveId)
                     then None else Some key
                 | None => None
                 end)
              (slots m) in
        (true,
         mk (passives m) (<[Z.to_nat slotIndex := Some passiveId]> vacated)
            (maxSlots m))
    end.

(** [unequipPassive(slotIndex)] *)
Definition unequipPassive (slotIndex : Z) (m : t) : bool * t :=
  if outOfRange slotIndex m then (false, m)
  else (true, mk (passives m) (<[Z.to_nat slotIndex := None]> (slots m))
                 (maxSlots m)).



(** The slots as [PassiveManager] reads them: each with its object. *)
Definition resolve (m : t) : PassiveManager.Slots :=
  map (fun slot => passiveAt m <$> slot) (slots m).

End PassiveLoadout.

Module GearLedger.

(** [this.gear] is the store of the items, keyed by id; a slot of the
    loadout holds the key of its item. *)
Record t := mk {
  gear : gmap string GearItem;
  loadout : GearSlot.t -> option string;
  gearSets : gmap string GearSet
}.

Definition itemAt (m : t) (key : string) : GearItem := gear m !!! key.

Definition setSlot (sl : GearSlot.t) (v : option string)
    (l : GearSlot.t -> option string) : GearSlot.t -> option string :=
  fun s => if decide (s = sl) then v else l s.

(** [equipGear(gearId, slot)] *)
Definition equipGear (gearId : string) (sl : GearSlot.t) (m : t) : bool * t :=
  match gear m !! gearId with
  | Some item =>
      if decide (slot item = sl) then
        (true, mk (gear m) (setSlot sl (Some gearId) (loadout m)) (gearSets m))
      else (false, m)
  | None => (false, m)
  end.

(** [unequipGear(slot)] *)
Definition unequipGear (sl : GearSlot.t) (m : t) : bool * t :=
  match loadout m sl with
  | None => (false, m)
  | Some _ => (true, mk (gear m) (setSlot sl None (loadout m)) (gearSets m))
  end.

(** [getRarityMultiplier(rarity)] *)
Definition getRarityMultiplier (r : GearRarity.t) : Q :=
  match r with
  | GearRarity.COMMON => 1
  | GearRarity.UNCOMMON => Double.round (6 # 5)
  | GearRarity.RARE => 3 # 2
  | GearRarity.EPIC => 2
  | GearRarity.LEGENDARY => 3
  end.

(** The new value of one stat of an item whose level has been raised to
    [lvl]: [Math.floor(value * (1 + item.level * 0.1 * multiplier))]. *)
Definition scaleStat (lvl multiplier value : Q) : Q :=
  Num.floor
    (Double.mul value
       (Double.add 1
          (Double.mul (Double.mul lvl (Double.round (1 # 10))) multiplier))).

(** What [levelUpGear] does to the item. *)
Definition levelUpItem (item : GearItem) : GearItem :=
  let lvl := gear_level item + 1 in
  let multiplier := getRarityMultiplier (rarity item) in
  let b := baseStats item in
  mkGearItem (gear_id item) (gear_name item) (slot item) (rarity item) lvl
    (mkGearStats (scaleStat lvl multiplier (g_attack b))
                 (scaleStat lvl multiplier (g_defense b))
                 (scaleStat lvl multiplier (g_health b))
                 (scaleStat lvl multiplier (g_speed b))
                 (scaleStat lvl multiplier (g_energy b)))
    (setId item).

(** [levelUpGear(gearId)] *)
Definition levelUpGear (gearId : string) (m : t) : bool * t :=
  match gear m !! gearId with
  | None => (false, m)
  | Some item =>
      (true, mk (<[gearId := levelUpItem item]> (gear m)) (loadout m)
                (gearSets m))
  end.

(** The manager as [calculateTotalStats] reads it: each slot with its
    item. *)
Definition resolve (m : t) : GearManager.t :=
  GearManager.mk (gear m) (fun sl => itemAt m <$> loadout m sl) (gearSets m).

End GearLedger.

(** ** EnemySpawner *)

Module EnemySpawner.

(** [createEnemyStats(level)] *)
Definition createEnemyStats (lvl : Q) : CombatStats :=
  let levelMultiplier :=
    Double.add 1 (Double.mul (Double.sub lvl 1) (Double.round (1 # 5))) in
  mkStats lvl
    (Num.floor (Double.mul 50 levelMultiplier))
    (Num.floor (Double.mul 50 levelMultiplier))
    (Num.floor (Double.mul 10 levelMultiplier))
    (Num.floor (Double.mul 5 levelMultiplier))
    (Num.floor (Double.mul 5 levelMultiplier))
    (Num.floor (Double.mul 50 levelMultiplier))
    (Num.floor (Double.mul 50 levelMultiplier)).

End EnemySpawner.

(** ** ProgressionManager: runs, rewards and meta upgrades *)

Module Progression.

Definition BASE_DIFFICULTY_MULTIPLIER : Q := 1 # 10.

(** The sum that [calculateDifficulty] reduces over the upgrades. *)
Definition upgradeOffset (p : PlayerProgress) : Q :=
  fold_left (fun total upgrade => total + value upgrade * currentLevel upgrade)
            (JsMap.values (metaUpgrades p)) 0.

(** [calculateDifficulty()] *)
Definition calculateDifficulty (p : PlayerProgress) : Q :=
  let baseMultiplier := 1 + totalRuns p * BASE_DIFFICULTY_MULTIPLIER in
  Qmax 1 (baseMultiplier - upgradeOffset p).

(** [startNewRun()], with the fresh run id and the time of the call. *)
Definition startNewRun (newId : string) (now : Q) (m : ProgressionManager.t)
    : ProgressionManager.t :=
  ProgressionManager.mk
    (Some (mkRunStats newId now 0 0 0 0 0 RunResult.DEFEAT
             (calculateDifficulty (ProgressionManager.progress m)) 1))
    (ProgressionManager.progress m) (ProgressionManager.storage m).

(** [advanceWave()] *)
Definition advanceWave (m : ProgressionManager.t) : ProgressionManager.t :=
  match ProgressionManager.currentRun m with
  | None => m
  | Some run =>
      ProgressionManager.mk
        (Some (mkRunStats (runId run) (startTime run) (endTime run)
                 (enemiesDefeated run) (damageDealt run) (damageTaken run)
                 (resourcesGained run) (result run) (difficulty run)
                 (wave run + 1)))
        (ProgressionManager.progress m) (ProgressionManager.storage m)
  end.

(** [calculateRunReward()] *)
Definition calculateRunReward (m : ProgressionManager.t) : Q :=
  match ProgressionManager.currentRun m with
  | None => 0
  | Some run =>
      let baseReward := wave run * 50 in
      let enemyBonus := enemiesDefeated run * 10 in
      let difficultyBonus := Num.floor (difficulty run * 100) in
      let victoryBonus :=
        match result run with
        | RunResult.VICTORY => 500
        | RunResult.DEFEAT => 0
        end in
      let resourceMultiplier :=
        1 + ProgressionManager.orZero
              (ProgressionManager.getMetaUpgradeEffect
                 (ProgressionManager.progress m)
                 MetaUpgradeType.RESOURCE_GAIN) in
      Num.floor ((baseReward + enemyBonus + difficultyBonus + victoryBonus)
                 * resourceMultiplier)
  end.

(** The test of [endRun] that decides whether the finished run replaces
    the best one. *)
Definition beatsBest (run : RunStats) (best : option RunStats) : bool :=
  match best with
  | None => true
  | Some b =>
      Num.ltb (wave b) (wave run)
      || (Num.eqb (wave run) (wave b)
          && Num.ltb (resourcesGained b) (resourcesGained run))
  end.

(** [endRun(result)], at the time [now] that [Date.now()] returns. *)
Definition endRun (res : RunResult.t) (now : Q) (m : ProgressionManager.t)
    : ProgressionManager.t :=
  match ProgressionManager.currentRun m with
  | None => m
  | Some run =>
      let run' :=
        mkRunStats (runId run) (startTime run) now (enemiesDefeated run)
          (damageDealt run) (damageTaken run) (resourcesGained run) res
          (difficulty run) (wave run) in
      let p := ProgressionManager.progress m in
      let st := statistics p in
      let st' :=
        mkStatistics
          (totalEnemiesDefeated st + enemiesDefeated run')
          (totalDamageDealt st + damageDealt run')
          (totalDamageTaken st + damageTaken run')
          (totalResourcesGained st + resourcesGained run')
          (totalPlayTime st + (endTime run' - startTime run')) in
      let best' := if beatsBest run' (bestRun p) then Some run' else bestRun p in
      let p1 :=
        mkPlayerProgress (totalRuns p + 1) best' (resources p)
          (metaUpgrades p) (unlockedContent p) st' in
      let m1 := ProgressionManager.mk (Some run') p1 (ProgressionManager.storage m) in
      let p2 :=
        mkPlayerProgress (totalRuns p1) (bestRun p1)
          (resources p1 + calculateRunReward m1)
          (metaUpgrades p1) (unlockedContent p1) (statistics p1) in
      ProgressionManager.saveProgress
        (ProgressionManager.mk (Some run') p2 (ProgressionManager.storage m))
  end.

(** The body of the [forEach] of [applyMetaUpgrades]. *)
Definition applyUpgrade (s : CombatStats) (upgrade : MetaUpgrade)
    : CombatStats :=
  if Num.eqb (currentLevel upgrade) 0 then s
  else
    let multiplier := 1 + value upgrade * currentLevel upgrade in
    match upgrade_type upgrade with
    | MetaUpgradeType.DAMAGE_BOOST =>
        mkStats (level s) (maxHealth s) (currentHealth s)
          (attack s * multiplier) (defense s) (speed s) (maxEnergy s)
          (currentEnergy s)
    | MetaUpgradeType.HEALTH_BOOST =>
        mkStats (level s) (maxHealth s * multiplier)
          (maxHealth s * multiplier) (attack s) (defense s) (speed s)
          (maxEnergy s) (currentEnergy s)
    | MetaUpgradeType.DEFENSE_BOOST =>
        mkStats (level s) (maxHealth s) (currentHealth s) (attack s)
          (defense s * multiplier) (speed s) (maxEnergy s) (currentEnergy s)
    | MetaUpgradeType.SPEED_BOOST =>
        mkStats (level s) (maxHealth s) (currentHealth s) (attack s)
          (defense s) (speed s * multiplier) (maxEnergy s) (currentEnergy s)
    | MetaUpgradeType.ENERGY_BOOST =>
        mkStats (level s) (maxHealth s) (currentHealth s) (attack s)
          (defense s) (speed s) (maxEnergy s * multiplier)
          (maxEnergy s * multiplier)
    | _ => s
    end.

(** [applyMetaUpgrades(entity)], on the entity's stat block. *)
Definition applyMetaUpgrades (p : PlayerProgress) (s : CombatStats)
    : CombatStats :=
  fold_left applyUpgrade (JsMap.values (metaUpgrades p)) s.

End Progression.

(** ** Concrete sessions

    The entities that the game creates: the player of
    [Game.createPlayerEntity] and an enemy of
    [EnemySpawner.createEnemyStats], here of level 1 and standing within
    attack range of the player. *)

Module Scenario.

Definition playerStats : CombatStats := mkStats 1 100 100 15 10 10 100 100.

Definition thePlayer : CombatEntity :=
  mkEntity "player" "Player" playerStats (mkVec 0 0 0) true.

Definition enemyStats : CombatStats := mkStats 1 50 50 10 5 5 50 50.

Definition enemyAt (ident : string) (x : Q) (s : CombatStats) : CombatEntity :=
  mkEntity ident "Enemy 1" s (mkVec x 0 0) false.

Definition newRun : RunStats :=
  mkRunStats "run" 0 0 0 0 0 0 RunResult.DEFEAT 1 1.

Definition freshProgress : PlayerProgress :=
  mkPlayerProgress 0 None 0 [] [] (mkStatistics 0 0 0 0 0).

Definition ledger : ProgressionManager.t :=
  ProgressionManager.mk (Some newRun) freshProgress None.

Definition noRandom : Random := mkRandom (fun _ => 0) 0%nat.

(** A session in progress with the given entities, passives and queue;
    reference [0] is the player, the enemies follow. *)
Definition session (es : list CombatEntity) (passives : PassiveManager.Slots)
    (queue : list CombatAction) : World :=
  mkWorld
    (mkHeap (list_to_map (zip (seq 0 (S (length es))) (thePlayer :: es))) ∅)
    0%nat (seq 1 (length es)) IN_PROGRESS [] 1 queue 0
    [None; None; None; None] passives ledger noRandom [].

(** The player against one enemy of level 1, no skill and no passive
    equipped. *)
Definition duel : World :=
  session [enemyAt "enemy-1" (1 # 2) enemyStats] [None; None; None] [].

(** [update] called once per round interval, [n] times from time [t]. *)
Fixpoint rounds_from (sqrt : Q -> Q) (n : nat) (t : Q) (w : World) : World :=
  match n with
  | O => w
  | S n' => rounds_from sqrt n' (t + ROUND_DURATION) (update sqrt t w)
  end.

(** The player at the origin and two enemies at the first two spawn points
    of [EnemySpawner], [(5, 0, 0)] and [(5 cos 45, 0, 5 sin 45)], the
    latter with the doubles [3.5355339059327378] and
    [3.5355339059327373]. *)
Definition twoSpawned : World :=
  session
    [mkEntity "enemy-1" "Enemy 1" enemyStats (mkVec 5 0 0) false;
     mkEntity "enemy-2" "Enemy 1" enemyStats
       (mkVec (124395540479019 # 35184372088832) 0
              (7961314590657215 # 2251799813685248)) false]
    [None; None; None] [].

(** The default passive "Life Steal" of [PassiveManager]. *)
Definition lifeSteal : Passive :=
  mkPassive "life-steal" "Life Steal" PassiveTrigger.ON_ATTACK
    [mkPassiveEffect PassiveType.LIFE_STEAL (1 # 10) None None] 1 5.

(** The duel with "Life Steal" equipped and the player's attack queued. *)
Definition duelWithLifeSteal : World :=
  session [enemyAt "enemy-1" (1 # 2) enemyStats] [Some lifeSteal; None; None]
    [ATTACK 0 1 10].

(** One enemy and two queued attacks of the player on it. *)
Definition twoAttacksQueued : World :=
  session [enemyAt "enemy-1" (1 # 2) (mkStats 1 10 10 10 5 5 50 50)]
    [None; None; None] [ATTACK 0 1 10; ATTACK 0 1 10].

(** The player (speed 10) with two enemies of speed 5 and 15. *)
Definition threeSpeeds : World :=
  session [enemyAt "enemy-1" (1 # 2) (mkStats 1 50 50 10 5 5 50 50);
           enemyAt "enemy-2" (-1 # 2) (mkStats 1 50 50 10 5 15 50 50)]
    [None; None; None] [].

(** The default skill "Heal" of [SkillManager]. *)
Definition heal : Skill :=
  mkSkill "heal" "Heal" SkillType.HEAL TargetType.SELF
    [mkSkillEffect SkillType.HEAL 50 None None] 5 0 40.

(** The player with "Heal" in the first skill slot, against a wounded
    enemy of level 196 (defense 200, as [createEnemyStats] scales it). *)
Definition healOnArmouredEnemy : World :=
  let w :=
    session [enemyAt "enemy-1" (1 # 2) (mkStats 196 2000 5 400 200 200 2000 2000)]
      [None; None; None] [SKILL 0 1 0] in
  mkWorld (mkHeap (ents (heap w)) {[ 0%nat := heal ]}) (player w) (enemies w)
    (currentState w) (rounds w) (currentRound w) (actionQueue w)
    (lastRoundTime w) [Some 0%nat; None; None; None] (passiveSlots w)
    (progression w) (rng w) (trace w).

(** A skill that gives energy back instead of costing some. *)
Definition meditate : Skill :=
  mkSkill "meditate" "Meditate" SkillType.BUFF TargetType.SELF
    [mkSkillEffect SkillType.BUFF 0 None None] 2 0 (-10).

(** The default passive "Toughness" of [PassiveManager]. *)
Definition toughness : Passive :=
  mkPassive "toughness" "Toughness" PassiveTrigger.PERMANENT
    [mkPassiveEffect PassiveType.STAT_BOOST 10 None None] 1 5.

End Scenario.

(** ** Set bonuses, as the specification words them

    The set ids of the equipped items, the distinct ones among them in the
    order of their first occurrence, the number of equipped pieces of a
    set, and the sum over the distinct sets of the tiers whose threshold
    the number of pieces reaches. *)

Module SetBonusSpec.

Definition equippedSetIds (l : GearLoadout) : list string :=
  omap GearManager.itemSetId (GearManager.loadoutValues l).

Definition distinctIds (ids : list string) : list string :=
  fold_left (fun acc x => if bool_decide (x ∈ acc) then acc else acc ++ [x])
            ids [].

Definition pieceCount (sid : string) (ids : list string) : Q :=
  inject_Z (Z.of_nat (length (List.filter (fun x => bool_decide (x = sid)) ids))).

Definition tiersReached (count : Q) (s : GearSet) : list GearSetBonus :=
  List.filter (fun bonus => Num.leb (pieces bonus) count) (bonuses s).

Definition setBonuses (g : GearManager.t) : GearStats :=
  let ids := equippedSetIds (GearManager.loadout g) in
  fold_left
    (fun acc sid =>
       match GearManager.gearSets g !! sid with
       | Some s =>
           fold_left GearManager.addStats
             (map bonus_stats (tiersReached (pieceCount sid ids) s)) acc
       | None => acc
       end)
    (distinctIds ids) GearManager.zeroStats.

End SetBonusSpec.

(** ** The default gear of [GearManager] *)

Module Armoury.

Definition basicSword : GearItem :=
  mkGearItem "basic-sword" "Basic Sword" GearSlot.WEAPON GearRarity.COMMON 1
    (mkGearStats 10 0 0 0 0) (Some "warrior"%string).

Definition basicShield : GearItem :=
  mkGearItem "basic-shield" "Basic Shield" GearSlot.OFFHAND GearRarity.COMMON 1
    (mkGearStats 0 10 20 (-1) 0) (Some "warrior"%string).

Definition leatherHelmet : GearItem :=
  mkGearItem "leather-helmet" "Leather Helmet" GearSlot.HEAD GearRarity.COMMON 1
    (mkGearStats 0 5 10 0 5) (Some "warrior"%string).

(** A fourth piece of the set, which the default gear does not have. *)
Definition leatherBoots : GearItem :=
  mkGearItem "leather-boots" "Leather Boots" GearSlot.FEET GearRarity.COMMON 1
    (mkGearStats 0 2 5 1 0) (Some "warrior"%string).

(** An item that trades health for attack, as the shield trades speed for
    defense; not among the default gear either. *)
Definition bloodRing : GearItem :=
  mkGearItem "blood-ring" "Blood Ring" GearSlot.ACCESSORY1 GearRarity.RARE 1
    (mkGearStats 12 0 (-20) 0 0) None.

Definition twoPieces : GearStats := mkGearStats 5 5 20 0 10.
Definition fourPieces : GearStats := mkGearStats 15 15 50 2 20.

Definition warriorSet : GearSet :=
  mkGearSet "warrior" "Warrior Set"
    [mkGearSetBonus 2 twoPieces; mkGearSetBonus 4 fourPieces].

Definition unequipped : GearManager.t :=
  GearManager.mk
    (list_to_map
       (map (fun item => (gear_id item, item))
            [basicSword; basicShield; leatherHelmet; leatherBoots; bloodRing]))
    (fun _ => None)
    {[ "warrior"%string := warriorSet ]}.

(** The manager after [equipGear] of each of the items in its slot. *)
Definition wearing (items : list GearItem) : GearManager.t :=
  fold_left
    (fun g item => snd (GearManager.equipGear (gear_id item) (slot item) g))
    items unequipped.

End Armoury.

(** ** Concrete managers *)

Module Examples.

Definition basicAttack : Skill :=
  mkSkill "basic-attack" "Basic Attack" SkillType.ATTACK
    TargetType.SINGLE_ENEMY [mkSkillEffect SkillType.ATTACK 100 None None]
    0 0 0.

Definition powerStrike : Skill :=
  mkSkill "power-strike" "Power Strike" SkillType.ATTACK
    TargetType.SINGLE_ENEMY [mkSkillEffect SkillType.ATTACK 200 None None]
    3 0 30.

(** The player and one enemy, with the default skills at references 0, 1
    and 2. *)
Definition skillHeap : Heap :=
  mkHeap {[ 0%nat := Scenario.thePlayer;
            1%nat := Scenario.enemyAt "enemy-1" (1 # 2) Scenario.enemyStats ]}
         {[ 0%nat := basicAttack; 1%nat := powerStrike;
            2%nat := Scenario.heal ]}.

(** "Power Strike" in the first slot and "Basic Attack" in the second. *)
Definition skillLoadout : SkillLoadout.t :=
  SkillLoadout.mk
    {[ "basic-attack"%string := 0%nat; "power-strike"%string := 1%nat;
       "heal"%string := 2%nat ]}
    [Some 1%nat; Some 0%nat; None; None] 4.

(** The default passive "Critical Strike" of [PassiveManager]. *)
Definition criticalStrike : Passive :=
  mkPassive "critical-strike" "Critical Strike" PassiveTrigger.ON_ATTACK
    [mkPassiveEffect PassiveType.CRIT_CHANCE (3 # 20) (Some (1 # 5)) None] 1 5.

(** The default passives, "Life Steal" in the first slot and "Toughness"
    in the third. *)
Definition passiveLoadout : PassiveLoadout.t :=
  PassiveLoadout.mk
    {[ "life-steal"%string := Scenario.lifeSteal;
       "critical-strike"%string := criticalStrike;
       "toughness"%string := Scenario.toughness ]}
    [Some "life-steal"%string; None; Some "toughness"%string] 3.

(** The default items in the store, the sword and the shield equipped. *)
Definition gearLedger : GearLedger.t :=
  GearLedger.mk
    (list_to_map
       (map (fun item => (gear_id item, item))
            [Armoury.basicSword; Armoury.basicShield; Armoury.leatherHelmet]))
    (fun sl =>
       match sl with
       | GearSlot.WEAPON => Some "basic-sword"%string
       | GearSlot.OFFHAND => Some "basic-shield"%string
       | _ => None
       end)
    {[ "warrior"%string := Armoury.warriorSet ]}.

(** The default upgrades of [ProgressionManager], none bought, and a
    balance of 120. *)
Definition defaultUpgrades : JsMap.t MetaUpgrade :=
  [("damage-boost"%string,
    mkMetaUpgrade "damage-boost" "Power Surge" MetaUpgradeType.DAMAGE_BOOST
      (1 # 20) 100 10 0);
   ("health-boost"%string,
    mkMetaUpgrade "health-boost" "Vitality" MetaUpgradeType.HEALTH_BOOST
      (1 # 10) 100 10 0);
   ("defense-boost"%string,
    mkMetaUpgrade "defense-boost" "Iron Skin" MetaUpgradeType.DEFENSE_BOOST
      (1 # 20) 100 10 0);
   ("resource-gain"%string,
    mkMetaUpgrade "resource-gain" "Fortune Finder"
      MetaUpgradeType.RESOURCE_GAIN (1 # 10) 150 5 0)].

Definition progress0 : PlayerProgress :=
  mkPlayerProgress 3 None 120 defaultUpgrades [] (mkStatistics 0 0 0 0 0).

Definition manager0 : ProgressionManager.t :=
  ProgressionManager.mk None progress0 None.


(** The manager after "Vitality" has been bought and a run has been
    started. *)
Definition manager1 : ProgressionManager.t :=
  Progression.startNewRun "run-1" 1000
    (snd (ProgressionManager.purchaseUpgrade "health-boost" manager0)).

End Examples.

(** ** Notions used in the statements *)

(** The damage that [handleAttack] computes for a pair of entities. *)
Definition attackDamage (w : World) (attacker target : nat) : Q :=
  Qmax 1 (attack (stats (ent w attacker)) - defense (stats (ent w target))).

(** The call that [playAnimation] makes for an entity. *)
Definition animationOf (w : World) (who : nat) (animation : string) : Effect :=
  if isPlayer (ent w who) then PlayPlayerAnimation animation
  else SpawnerPlayAnimation (ent_id (ent w who)) animation.

(** [handleAttack] in terms of the world it starts from. *)
Definition handleAttackFrom (attacker target : nat) (w : World) : World :=
  let damage := attackDamage w attacker target in
  let w1 :=
    set_heap
      (update_stats target
         (fun s => set_currentHealth (Qmax 0 (currentHealth s - damage)) s)
         (heap w)) w in
  let w4 :=
    track (if isPlayer (ent w attacker) then damage_dealt else damage_taken)
      damage
      (emit (animationOf w target "hit")
         (emit (animationOf w attacker "attack") w1)) in
  if Num.leb (Qmax 0 (health w target - damage)) 0 then
    if isPlayer (ent w target) then w4
    else removeEnemy target
           (track enemy_defeated (level (stats (ent w target))) w4)
  else w4.

(** The step of the counting loop, on the set id of the item. *)
Definition bump (m : JsMap.t Q) (sid : string) : JsMap.t Q :=
  JsMap.set sid (default 0 (JsMap.get sid m) + 1) m.

(** The effects that [applyPermanentPassives] applies have a magnitude
    that is not negative. *)
Definition boosts_nonneg (slots : PassiveManager.Slots) : Prop :=
  forall passive effect,
    Some passive ∈ slots ->
    trigger passive = PassiveTrigger.PERMANENT ->
    effect ∈ passive_effects passive ->
    pe_type effect = PassiveType.STAT_BOOST ->
    0 <= pe_value effect.

(** The comparator [(a, b) => key(b) - key(a)]: descending by key. *)
Definition descending {A : Type} (key : A -> Q) (a b : A) : Q :=
  key b - key a.

(** An effect without a chance: none given, or a chance of 0. *)
Definition chanceless (e : PassiveEffect) : Prop :=
  match pe_chance e with
  | Some c => c == 0
  | None => True
  end.

(** Every occupied slot of the loadout holds a stored item made for that
    slot. *)
Definition slotsConsistent (m : GearLedger.t) : Prop :=
  forall sl key,
    GearLedger.loadout m sl = Some key ->
    exists item, GearLedger.gear m !! key = Some item /\ slot item = sl.

(** The five stats of a block, in the order of its keys. *)
Definition statList (b : GearStats) : list Q :=
  [g_attack b; g_defense b; g_health b; g_speed b; g_energy b].

(** A whole number. *)
Definition whole (x : Q) : Prop := exists z : Z, x == inject_Z z.

(** The balance is not negative and every upgrade has a whole number of
    levels left to its maximum: [maxLevel - currentLevel] is 0, 1, 2, ...
    The default upgrades start so (level 0, maximum 10 or 5), and the
    level changes by [currentLevel++] only. *)
Definition ledgerSound (p : PlayerProgress) : Prop :=
  0 <= resources p
  /\ forall ident u,
       JsMap.get ident (metaUpgrades p) = Some u ->
       exists n : nat, maxLevel u == currentLevel u + inject_Z (Z.of_nat n).

(** Run [a] is at least as good as run [b]: a later wave, or the same wave
    and at least as many resources. *)
Definition atLeastAsGood (a b : RunStats) : Prop :=
  wave b < wave a \/ (wave a == wave b /\ resourcesGained b <= resourcesGained a).

(** A run with another result. *)
Definition withResult (res : RunResult.t) (run : RunStats) : RunStats :=
  mkRunStats (runId run) (startTime run) (endTime run) (enemiesDefeated run)
    (damageDealt run) (damageTaken run) (resourcesGained run) res
    (difficulty run) (wave run).

(** An upgrade that [applyMetaUpgrades] passes over: not bought yet, or of
    a type that does not act on the stats. *)
Definition inert (u : MetaUpgrade) : Prop :=
  currentLevel u == 0
  \/ upgrade_type u = MetaUpgradeType.RESOURCE_GAIN
  \/ upgrade_type u = MetaUpgradeType.XP_GAIN
  \/ upgrade_type u = MetaUpgradeType.SKILL_COOLDOWN.

(** The squared distance in the plane as [findNearestEnemy] computes it,
    every operation rounded to the nearest double. *)
Definition distSq (w : World) (pos : Vector3) (e : nat) : Q :=
  let dx := Double.sub (vx (position (ent w e))) (vx pos) in
  let dz := Double.sub (vz (position (ent w e))) (vz pos) in
  Double.add (Double.mul dx dx) (Double.mul dz dz).

(** The loop of [findNearestEnemy] over the enemies seen so far. *)
Definition nearestSoFar (w : World) (pos : Vector3) (seen : list nat)
    (acc : option nat * option Q) : Prop :=
  match acc with
  | (None, None) => forall e, e ∈ seen -> health w e <= 0
  | (Some e, Some d) =>
      d = distSq w pos e /\ 0 < health w e
      /\ exists before after,
           seen = before ++ e :: after
           /\ (forall x, x ∈ before -> 0 < health w x -> d < distSq w pos x)
           /\ (forall x, x ∈ after -> 0 < health w x -> d <= distSq w pos x)
  | _ => False
  end.

(** What the actions of a round never change in an entity. *)
Definition fixedPart (e : CombatEntity) : string * bool * (Q * Q * Q * Q * Q * Q) :=
  (ent_id e, isPlayer e,
   (level (stats e), maxHealth (stats e), attack (stats e), defense (stats e),
    speed (stats e), maxEnergy (stats e))).

(** The flag [isPlayer] marks the player and nobody else. *)
Definition rolesConsistent (w : World) : Prop :=
  isPlayer (ent w (player w)) = true
  /\ forall e, e ∈ enemies w -> isPlayer (ent w e) = false.

(** What resolving actions leaves in place: the fixed part of every
    entity, the player, the state of the session, the loadouts; no enemy
    joins the roster. *)
Definition steady (w w' : World) : Prop :=
  (forall r, fixedPart (ent w' r) = fixedPart (ent w r))
  /\ player w' = player w
  /\ currentState w' = currentState w
  /\ skillSlots w' = skillSlots w
  /\ passiveSlots w' = passiveSlots w
  /\ (forall e, e ∈ enemies w' -> e ∈ enemies w).

(** The product that the specification gives for the value of a skill
    effect, in exact arithmetic and before [floor]. *)
Definition exactSkillEffect (baseValue : Q) (source target : CombatEntity)
    : Q :=
  baseValue * (attack (stats source) / 100)
  * (1 - defense (stats target) / 100).

(** Some enemy of the roster has positive health. *)
Definition anyEnemyAlive (w : World) : bool :=
  existsb (fun e => Num.ltb 0 (health w e)) (enemies w).

(** * Properties *)

(** ** Numbers, the heap and maps *)

Lemma Num_ltb_lt a b : Num.ltb a b = true <-> a < b.
Proof.
  unfold Num.ltb. rewrite negb_true_iff.
  split; intros H.
  - apply Qnot_le_lt. intros Hle. apply Qle_bool_iff in Hle. congruence.
  - destruct (Qle_bool b a) eqn:E; [|reflexivity].
    apply Qle_bool_iff in E. exfalso. exact (Qlt_not_le _ _ H E).
Qed.

Lemma Num_ltb_ge a b : Num.ltb a b = false <-> b <= a.
Proof.
  unfold Num.ltb. rewrite negb_false_iff. apply Qle_bool_iff.
Qed.

Lemma Num_leb_le a b : Num.leb a b = true <-> a <= b.
Proof. apply Qle_bool_iff. Qed.

Lemma Num_leb_gt a b : Num.leb a b = false <-> b < a.
Proof.
  unfold Num.leb. split; intros H.
  - apply Qnot_le_lt. intros Hle. apply Qle_bool_iff in Hle. congruence.
  - destruct (Qle_bool a b) eqn:E; [|reflexivity].
    apply Qle_bool_iff in E. exfalso. exact (Qlt_not_le _ _ H E).
Qed.

Lemma Qfloor_lower (z : Z) (x : Q) : inject_Z z <= x -> (z <= Qfloor x)%Z.
Proof. intros H. rewrite <- (Qfloor_Z z). by apply Qfloor_resp_le. Qed.

Lemma Qfloor_upper (z : Z) (x : Q) : x < inject_Z z -> (Qfloor x < z)%Z.
Proof.
  intros H. rewrite Zlt_Qlt.
  apply Qle_lt_trans with (2 := H). apply Qfloor_le.
Qed.

Lemma entity_update_entity_eq r f h :
  entity (update_entity r f h) r = f (entity h r).
Proof. unfold entity, update_entity. simpl. apply lookup_total_insert_eq. Qed.

Lemma entity_update_entity_ne r r' f h :
  r <> r' -> entity (update_entity r f h) r' = entity h r'.
Proof.
  intros Hne. unfold entity, update_entity. simpl.
  by apply lookup_total_insert_ne.
Qed.

Lemma entity_update_skill r r' f h :
  entity (update_skill r f h) r' = entity h r'.
Proof. reflexivity. Qed.

Lemma skill_update_skill_eq r f h :
  skill (update_skill r f h) r = f (skill h r).
Proof. unfold skill, update_skill. simpl. apply lookup_total_insert_eq. Qed.

Lemma skill_update_skill_ne r r' f h :
  r <> r' -> skill (update_skill r f h) r' = skill h r'.
Proof.
  intros Hne. unfold skill, update_skill. simpl.
  by apply lookup_total_insert_ne.
Qed.

Lemma skill_update_entity r r' f h :
  skill (update_entity r f h) r' = skill h r'.
Proof. reflexivity. Qed.

Lemma JsMap_get_set_eq {V} k (v : V) m :
  JsMap.get k (JsMap.set k v m) = Some v.
Proof.
  induction m as [|[k' v'] m IH]; simpl.
  - by rewrite decide_True.
  - destruct (decide (k = k')) as [->|Hne]; simpl.
    + by rewrite decide_True.
    + by rewrite decide_False.
Qed.

Lemma JsMap_get_set_ne {V} k k' (v : V) m :
  k <> k' -> JsMap.get k' (JsMap.set k v m) = JsMap.get k' m.
Proof.
  intros Hne. induction m as [|[k0 v0] m IH]; simpl.
  - by rewrite decide_False.
  - destruct (decide (k = k0)) as [->|Hne0]; simpl.
    + by rewrite !decide_False.
    + destruct (decide (k' = k0)); [done | exact IH].
Qed.


(** ** Rounding to the nearest double *)

Lemma Double_pow2_pos k : 0 < Double.pow2 k.
Proof. unfold Double.pow2. apply Qpower_0_lt. reflexivity. Qed.

Lemma Double_pow2_plus a b :
  Double.pow2 (a + b) == Double.pow2 a * Double.pow2 b.
Proof. unfold Double.pow2. apply Qpower_plus. discriminate. Qed.

Lemma Double_pow2_Z k : (0 <= k)%Z -> Double.pow2 k == inject_Z (2 ^ k).
Proof. intros Hk. unfold Double.pow2. by rewrite Zpower_Qpower. Qed.

Lemma Qmult_den (a : Q) :
  a * inject_Z (Zpos (Qden a)) == inject_Z (Qnum a).
Proof. destruct a as [n d]. unfold Qeq, Qmult, inject_Z. simpl. lia. Qed.

(** [ilog2] is the exponent of the leading bit. *)
Lemma Double_ilog2_spec (a : Q) :
  0 < a ->
  Double.pow2 (Double.ilog2 a) <= a /\ a < Double.pow2 (Double.ilog2 a + 1).
Proof.
  intros Ha.
  assert (Hn : (0 < Qnum a)%Z).
  { destruct a as [n d]. unfold Qlt in Ha. simpl in *. lia. }
  pose proof (Z.log2_spec _ Hn) as [Hn1 Hn2].
  pose proof (Z.log2_spec (Zpos (Qden a)) ltac:(lia)) as [Hd1 Hd2].
  pose proof (Z.log2_nonneg (Qnum a)) as Hln.
  pose proof (Z.log2_nonneg (Zpos (Qden a))) as Hld.
  set (ln := Z.log2 (Qnum a)) in *. set (ld := Z.log2 (Zpos (Qden a))) in *.
  pose proof (Qmult_den a) as Had.
  assert (Hdpos : 0 < inject_Z (Zpos (Qden a))) by (unfold Qlt; simpl; lia).
  rewrite Zle_Qle in Hn1, Hd1. rewrite Zlt_Qlt in Hn2, Hd2.
  rewrite <- !Double_pow2_Z in Hn1, Hn2, Hd1, Hd2 by lia.
  set (D := inject_Z (Zpos (Qden a))) in *.
  set (N := inject_Z (Qnum a)) in *.
  unfold Double.ilog2. fold ln ld.
  destruct (Qle_bool (Double.pow2 (ln - ld)) a) eqn:E.
  - apply Qle_bool_iff in E. split; [exact E|].
    assert (Hp : Double.pow2 (Z.succ ln)
                 == Double.pow2 (ln - ld + 1) * Double.pow2 ld).
    { replace (Z.succ ln) with (ln - ld + 1 + ld)%Z by lia.
      apply Double_pow2_plus. }
    apply Qmult_lt_r with (z := D); [exact Hdpos|].
    rewrite Had.
    apply Qlt_le_trans with (1 := Hn2). rewrite Hp.
    apply Qmult_le_l; [apply Double_pow2_pos|exact Hd1].
  - assert (E' : a < Double.pow2 (ln - ld)).
    { apply Qnot_le_lt. intros H. apply Qle_bool_iff in H. congruence. }
    split.
    + assert (Hp : Double.pow2 ln
                   == Double.pow2 (ln - ld - 1) * Double.pow2 (Z.succ ld)).
      { replace ln with (ln - ld - 1 + Z.succ ld)%Z at 1 by lia.
        apply Double_pow2_plus. }
      apply Qmult_le_r with (z := D); [exact Hdpos|].
      rewrite Had. apply Qle_trans with (2 := Hn1). rewrite Hp.
      apply Qmult_le_l; [apply Double_pow2_pos|]. by apply Qlt_le_weak.
    + replace (ln - ld - 1 + 1)%Z with (ln - ld)%Z by lia. exact E'.
Qed.

(** [rne] is at most one half away. *)
Lemma Double_rne_close (x : Q) :
  - (1 # 2) <= inject_Z (Double.rne x) - x <= 1 # 2.
Proof.
  unfold Double.rne.
  pose proof (Qfloor_le x) as H1. pose proof (Qlt_floor x) as H2.
  rewrite inject_Z_plus in H2. change (inject_Z 1) with 1 in H2.
  assert (Hs : inject_Z (Qfloor x + 1) == inject_Z (Qfloor x) + 1)
    by (by rewrite inject_Z_plus).
  destruct (Qcompare_spec (x - inject_Z (Qfloor x)) (1 # 2)) as [E|E|E].
  - destruct (Z.even (Qfloor x)); lra.
  - lra.
  - lra.
Qed.

Lemma Double_u_pos : 0 < Double.u.
Proof. apply Double_pow2_pos. Qed.

Lemma Double_eta_pos : 0 < Double.eta.
Proof. apply Double_pow2_pos. Qed.

Lemma Double_u_bound : Double.u <= Double.uBound.
Proof. vm_compute. discriminate. Qed.

Lemma Double_eta_bound : Double.eta <= Double.etaBound.
Proof. vm_compute. discriminate. Qed.

(** Half a unit in the last place. *)
Lemma Double_half_ulp (a : Q) :
  0 < a ->
  Double.pow2 (Double.ulpExp a) * (1 # 2) <= a * Double.u + Double.eta.
Proof.
  intros Ha. destruct (Double_ilog2_spec a Ha) as [Hlo _].
  pose proof Double_u_pos. pose proof Double_eta_pos.
  unfold Double.ulpExp.
  destruct (Z.max_spec (Double.ilog2 a - 52) (-1074)) as [[_ ->]|[_ ->]].
  - change (Double.pow2 (-1074) * (1 # 2))
      with (Double.pow2 (-1074) * Double.pow2 (-1)).
    rewrite <- Double_pow2_plus.
    change (Double.pow2 (-1074 + -1)) with Double.eta.
    assert (0 <= a * Double.u) by (apply Qmult_le_0_compat; lra). lra.
  - change (1 # 2) with (Double.pow2 (-1)). rewrite <- Double_pow2_plus.
    replace (Double.ilog2 a - 52 + -1)%Z with (Double.ilog2 a + -53)%Z by lia.
    rewrite Double_pow2_plus. fold Double.u.
    assert (Double.pow2 (Double.ilog2 a) * Double.u <= a * Double.u)
      by (apply Qmult_le_r; [exact Double_u_pos | exact Hlo]).
    lra.
Qed.

(** The error of one rounding: relative [u], or [eta] among the
    subnormal numbers. *)
Lemma Double_round_close (q : Q) :
  Qabs (Double.round q - q) <= Qabs q * Double.u + Double.eta.
Proof.
  unfold Double.round. destruct (Qeq_bool q 0) eqn:E.
  - apply Qeq_bool_iff in E. rewrite E. vm_compute. discriminate.
  - assert (Hq : ~ q == 0).
    { intros H. apply Qeq_bool_iff in H. congruence. }
    assert (Ha : 0 < Qabs q).
    { pose proof (Qabs_nonneg q) as H0.
      destruct (Qle_lt_or_eq _ _ H0) as [H|H]; [exact H|].
      exfalso. apply Hq. symmetry in H.
      pose proof (Qabs_Qle_condition q 0) as [Hc _].
      destruct Hc as [Hc1 Hc2]; [rewrite H; apply Qle_refl|].
      lra. }
    cbv zeta. rewrite Qred_correct.
    set (k := Double.ulpExp (Qabs q)).
    pose proof (Double_pow2_pos k) as Hk.
    pose proof (Double_rne_close (q / Double.pow2 k)) as [Hr1 Hr2].
    pose proof (Double_half_ulp _ Ha) as Hh. fold k in Hh.
    rewrite (Qmult_comm (Double.pow2 k)) in Hh.
    set (m := inject_Z (Double.rne (q / Double.pow2 k))) in *.
    assert (Hd : m * Double.pow2 k - q
                 == (m - q / Double.pow2 k) * Double.pow2 k).
    { field. lra. }
    rewrite Hd, Qabs_Qmult, (Qabs_pos (Double.pow2 k)) by lra.
    apply Qle_trans with (2 := Hh).
    apply Qmult_le_r; [exact Hk|].
    apply Qabs_Qle_condition. split; lra.
Qed.

Lemma Double_round_0 (q : Q) : q == 0 -> Double.round q = 0.
Proof.
  intros H. unfold Double.round.
  by rewrite (proj2 (Qeq_bool_iff q 0) H).
Qed.

(** The same with decimal bounds, for a number of magnitude at most
    [M]. *)
Lemma Double_round_iv (q M : Q) :
  - M <= q <= M ->
  q - (M * Double.uBound + Double.etaBound) <= Double.round q
  <= q + (M * Double.uBound + Double.etaBound).
Proof.
  intros HM.
  assert (Ha : Qabs q <= M) by (by apply Qabs_Qle_condition).
  pose proof (Double_round_close q) as Hr.
  apply Qabs_Qle_condition in Hr.
  assert (0 <= M) by lra.
  pose proof Double_u_bound as Hu. pose proof Double_eta_bound as He.
  pose proof Double_u_pos as Hu0.
  assert (Qabs q * Double.u <= M * Double.u)
    by (apply Qmult_le_r; [exact Hu0|exact Ha]).
  assert (M * Double.u <= M * Double.uBound) by nra.
  lra.
Qed.

Lemma Double_round_lower (x : Q) :
  0 <= x -> (999 # 1000) * x - (1 # 1000) <= Double.round x.
Proof.
  intros Hx. pose proof (Double_round_iv x x ltac:(lra)) as H.
  unfold Double.uBound, Double.etaBound in H. lra.
Qed.

Lemma Double_round_upper (x : Q) :
  x <= 0 -> Double.round x <= (999 # 1000) * x + (1 # 1000).
Proof.
  intros Hx. pose proof (Double_round_iv x (- x) ltac:(lra)) as H.
  unfold Double.uBound, Double.etaBound in H. lra.
Qed.

(** Rounding keeps the order of the non-negative numbers. *)

Lemma Double_rne_floor (x : Q) :
  (Qfloor x <= Double.rne x <= Qfloor x + 1)%Z.
Proof.
  unfold Double.rne.
  destruct (Qcompare _ _); [destruct (Z.even _)| |]; lia.
Qed.

Lemma Double_rne_Z (z : Z) : Double.rne (inject_Z z) = z.
Proof.
  unfold Double.rne. rewrite Qfloor_Z.
  destruct (Qcompare_spec (inject_Z z - inject_Z z) (1 # 2)) as [E|E|E];
    [exfalso; lra | reflexivity | exfalso; lra].
Qed.

Lemma Double_rne_mono (x y : Q) :
  x <= y -> (Double.rne x <= Double.rne y)%Z.
Proof.
  intros Hxy. pose proof (Qfloor_resp_le _ _ Hxy) as Hf.
  pose proof (Double_rne_floor x) as Hx. pose proof (Double_rne_floor y) as Hy.
  destruct (Z.eq_dec (Qfloor x) (Qfloor y)) as [E|E]; [|lia].
  unfold Double.rne. rewrite E.
  destruct (Qcompare_spec (x - inject_Z (Qfloor y)) (1 # 2)) as [E1|E1|E1];
    destruct (Qcompare_spec (y - inject_Z (Qfloor y)) (1 # 2)) as [E2|E2|E2];
    try lia; try (exfalso; lra); destruct (Z.even (Qfloor y)); lia.
Qed.

Lemma Double_pow2_mono (a b : Z) :
  (a <= b)%Z -> Double.pow2 a <= Double.pow2 b.
Proof.
  intros H. unfold Double.pow2. apply Qpower_le_compat_l; [exact H|].
  discriminate.
Qed.

Lemma Double_ilog2_mono (x y : Q) :
  0 < x -> x <= y -> (Double.ilog2 x <= Double.ilog2 y)%Z.
Proof.
  intros Hx Hxy.
  destruct (Double_ilog2_spec x Hx) as [H1 _].
  destruct (Double_ilog2_spec y ltac:(lra)) as [_ H2].
  assert (H : Double.pow2 (Double.ilog2 x) < Double.pow2 (Double.ilog2 y + 1))
    by lra.
  apply Qpower_lt_compat_l_inv in H; [lia | reflexivity].
Qed.

Lemma Double_round_pos (q : Q) :
  0 < q ->
  Double.round q
  == inject_Z (Double.rne (q / Double.pow2 (Double.ulpExp q)))
     * Double.pow2 (Double.ulpExp q).
Proof.
  intros Hq. unfold Double.round.
  destruct (Qeq_bool q 0) eqn:E.
  - apply Qeq_bool_iff in E. lra.
  - cbv zeta. rewrite Qred_correct.
    assert (Ha : Qabs q = q).
    { destruct q as [[|n|n] d]; [reflexivity | reflexivity |].
      unfold Qlt in Hq. simpl in Hq. lia. }
    by rewrite Ha.
Qed.

Lemma Double_round_nonneg (q : Q) : 0 <= q -> 0 <= Double.round q.
Proof.
  intros Hq. destruct (Qle_lt_or_eq _ _ Hq) as [Hpos|Hz].
  - rewrite (Double_round_pos q Hpos).
    pose proof (Double_pow2_pos (Double.ulpExp q)) as Hk.
    apply Qmult_le_0_compat; [|lra].
    change 0 with (inject_Z 0). rewrite <- Zle_Qle.
    pose proof (Double_rne_floor (q / Double.pow2 (Double.ulpExp q))) as [H _].
    apply Z.le_trans with (2 := H). apply Qfloor_lower.
    change (inject_Z 0) with 0. apply Qle_shift_div_l; [exact Hk | lra].
  - rewrite (Double_round_0 q); [apply Qle_refl | by symmetry].
Qed.

Lemma Double_round_mono_pos (x y : Q) :
  0 < x -> x <= y -> Double.round x <= Double.round y.
Proof.
  intros Hx Hxy. assert (Hy : 0 < y) by lra.
  rewrite (Double_round_pos x Hx), (Double_round_pos y Hy).
  pose proof (Double_ilog2_mono x y Hx Hxy) as He.
  destruct (Double_ilog2_spec x Hx) as [Hx1 Hx2].
  destruct (Double_ilog2_spec y Hy) as [Hy1 Hy2].
  unfold Double.ulpExp.
  set (ex := Double.ilog2 x) in *. set (ey := Double.ilog2 y) in *.
  destruct (Z.eq_dec (Z.max (ex - 52) (-1074)) (Z.max (ey - 52) (-1074)))
    as [Ek|Ek].
  - rewrite Ek. set (k := Z.max (ey - 52) (-1074)).
    pose proof (Double_pow2_pos k) as Hk.
    apply Qmult_le_r; [exact Hk|]. rewrite <- Zle_Qle.
    apply Double_rne_mono. apply Qmult_le_r; [by apply Qinv_lt_0_compat|].
    exact Hxy.
  - assert (Hky : Z.max (ey - 52) (-1074) = (ey - 52)%Z) by lia.
    assert (Hlt : (Z.max (ex - 52) (-1074) < ey - 52)%Z) by lia.
    rewrite Hky. set (kx := Z.max (ex - 52) (-1074)) in *.
    pose proof (Double_pow2_pos kx) as Hkx.
    pose proof (Double_pow2_pos (ey - 52)) as Hky'.
    apply Qle_trans with (Double.pow2 ey).
    + (* round x <= 2^ey *)
      assert (Hb : x <= Double.pow2 ey).
      { apply Qle_trans with (Double.pow2 (ex + 1)); [lra|].
        apply Double_pow2_mono. lia. }
      assert (Hn : Double.pow2 ey
                   == inject_Z (2 ^ (ey - kx)) * Double.pow2 kx).
      { rewrite <- Double_pow2_Z by lia. rewrite <- Double_pow2_plus.
        replace (ey - kx + kx)%Z with ey by lia. reflexivity. }
      rewrite Hn. apply Qmult_le_r; [exact Hkx|]. rewrite <- Zle_Qle.
      rewrite <- (Double_rne_Z (2 ^ (ey - kx))). apply Double_rne_mono.
      apply Qle_shift_div_r; [exact Hkx|]. by rewrite <- Hn.
    + (* 2^ey <= round y *)
      assert (Hn : Double.pow2 ey
                   == inject_Z (2 ^ 52) * Double.pow2 (ey - 52)).
      { rewrite <- Double_pow2_Z by lia. rewrite <- Double_pow2_plus.
        replace (52 + (ey - 52))%Z with ey by lia. reflexivity. }
      rewrite Hn. apply Qmult_le_r; [exact Hky'|]. rewrite <- Zle_Qle.
      rewrite <- (Double_rne_Z (2 ^ 52)). apply Double_rne_mono.
      apply Qle_shift_div_l; [exact Hky'|]. by rewrite <- Hn.
Qed.

Lemma Double_round_mono_nonneg (x y : Q) :
  0 <= x -> x <= y -> Double.round x <= Double.round y.
Proof.
  intros Hx Hxy. destruct (Qle_lt_or_eq _ _ Hx) as [Hpos|Hz].
  - by apply Double_round_mono_pos.
  - rewrite (Double_round_0 x) by (by symmetry).
    apply Double_round_nonneg. lra.
Qed.

Lemma Qmult_iv (x y X Y : Q) :
  - X <= x <= X -> - Y <= y <= Y -> - (X * Y) <= x * y <= X * Y.
Proof. intros Hx Hy. nra. Qed.

(** [Double] agrees with the operations of [SpecFloat] on the products
    that the examples below use, on two ties ([2^53 + 1] and [2^53 + 3]),
    on a subnormal quotient and on some square roots. *)
Lemma Double_agrees_with_SpecFloat :
  let f := DoubleSpec.ofZ in
  Double.div 1 10 == DoubleSpec.toQ (DoubleSpec.div (f 1%Z) (f 10%Z))
  /\ Double.mul (Double.mul 200 (Double.div 25 100))
       (Double.sub 1 (Double.div 34 100))
     == DoubleSpec.toQ
          (DoubleSpec.mul
             (DoubleSpec.mul (f 200%Z) (DoubleSpec.div (f 25%Z) (f 100%Z)))
             (DoubleSpec.sub (f 1%Z) (DoubleSpec.div (f 34%Z) (f 100%Z))))
  /\ Double.mul (-25)
       (Double.add 1 (Double.mul (Double.mul 1 (Double.div 1 10))
                        (Double.div 6 5)))
     == DoubleSpec.toQ
          (DoubleSpec.mul (f (-25)%Z)
             (DoubleSpec.add (f 1%Z)
                (DoubleSpec.mul
                   (DoubleSpec.mul (f 1%Z) (DoubleSpec.div (f 1%Z) (f 10%Z)))
                   (DoubleSpec.div (f 6%Z) (f 5%Z)))))
  /\ Double.mul 50
       (Double.add 1 (Double.mul (Double.sub 19 1) (Double.div 1 5)))
     == DoubleSpec.toQ
          (DoubleSpec.mul (f 50%Z)
             (DoubleSpec.add (f 1%Z)
                (DoubleSpec.mul (DoubleSpec.sub (f 19%Z) (f 1%Z))
                   (DoubleSpec.div (f 1%Z) (f 5%Z)))))
  /\ Double.add 9007199254740992 1
     == DoubleSpec.toQ (DoubleSpec.add (f 9007199254740992%Z) (f 1%Z))
  /\ Double.add 9007199254740994 1
     == DoubleSpec.toQ (DoubleSpec.add (f 9007199254740994%Z) (f 1%Z))
  /\ Double.div (Double.div 1 (inject_Z (2 ^ 1000))) (inject_Z (3 * 2 ^ 60))
     == DoubleSpec.toQ
          (DoubleSpec.div (DoubleSpec.div (f 1%Z) (f (2 ^ 1000)%Z))
             (f (3 * 2 ^ 60)%Z))
  /\ Double.sqrt 2 == DoubleSpec.toQ (DoubleSpec.sqrt (f 2%Z))
  /\ Double.sqrt 25 == DoubleSpec.toQ (DoubleSpec.sqrt (f 25%Z))
  /\ Double.sqrt (Double.div 1 50)
     == DoubleSpec.toQ (DoubleSpec.sqrt (DoubleSpec.div (f 1%Z) (f 50%Z)))
  /\ Double.sqrt (Double.div 1 (inject_Z (2 ^ 1001)))
     == DoubleSpec.toQ
          (DoubleSpec.sqrt (DoubleSpec.div (f 1%Z) (f (2 ^ 1001)%Z))).
Proof. vm_compute. repeat split; reflexivity. Qed.

(** The doubles that the model gives to some decimal fractions, and the
    products of the code at inputs where the rounding is visible. *)
Lemma Double_round_examples :
  Double.round (1 # 10) == 3602879701896397 # 36028797018963968
  /\ Double.round (6 # 5) == 5404319552844595 # 4503599627370496
  /\ Double.round 25 == 25
  /\ Double.mul (Double.round (1 # 10)) 3
     == 1351079888211149 # 4503599627370496
  /\ Double.sub 1 (Double.div 34 100)
     == 2972375754064527 # 4503599627370496.
Proof. vm_compute. repeat split; reflexivity. Qed.

(** ** Reading a world after the elementary updates *)

Lemma Qmax_ge_l a b : a <= Qmax a b.
Proof. apply Q.le_max_l. Qed.

Lemma stats_update_stats_eq r f h :
  stats (entity (update_stats r f h) r) = f (stats (entity h r)).
Proof. unfold update_stats. by rewrite entity_update_entity_eq. Qed.

Lemma entity_update_stats_ne r r' f h :
  r <> r' -> entity (update_stats r f h) r' = entity h r'.
Proof. apply entity_update_entity_ne. Qed.

(** Only the stat block of an entity is touched by [update_stats]. *)
Lemma isPlayer_update_stats r r' f h :
  isPlayer (entity (update_stats r f h) r') = isPlayer (entity h r').
Proof.
  destruct (decide (r = r')) as [->|Hne].
  - unfold update_stats. by rewrite entity_update_entity_eq.
  - by rewrite entity_update_stats_ne.
Qed.

(** [handleAttack] changes the heap in one place: the health of its
    target. *)
Lemma heap_handleAttack attacker target w :
  heap (handleAttack attacker target w) =
  update_stats target
    (fun s => set_currentHealth
                (Qmax 0 (currentHealth s - attackDamage w attacker target)) s)
    (heap w).
Proof.
  unfold handleAttack, playAnimation, track, removeEnemy, attackDamage.
  repeat match goal with
         | |- context [if ?b then _ else _] => destruct b
         end; reflexivity.
Qed.

Lemma health_handleAttack attacker target w :
  health (handleAttack attacker target w) target =
  Qmax 0 (health w target - attackDamage w attacker target).
Proof.
  unfold health, ent. rewrite heap_handleAttack.
  by rewrite stats_update_stats_eq.
Qed.

(** Resolving an [ATTACK] action changes the health of its target by the
    damage of [handleAttack], whatever the passives computed. *)
Lemma health_processAction_attack sqrt source target damage w :
  health (processAction sqrt (ATTACK source target damage) w) target =
  Qmax 0 (health w target - attackDamage w source target).
Proof.
  unfold processAction.
  destruct (PassiveManager.checkTrigger _ _ _ _ _ _ _) as [results r].
  rewrite health_handleAttack. reflexivity.
Qed.

(** The updates of the progression ledger, of the trace and of the roster
    leave the heap alone. *)
Lemma ent_emit e w r : ent (emit e w) r = ent w r.
Proof. reflexivity. Qed.

Lemma ent_track ev v w r : ent (track ev v w) r = ent w r.
Proof. reflexivity. Qed.

Lemma ent_set_rng x w r : ent (set_rng x w) r = ent w r.
Proof. reflexivity. Qed.

Lemma health_emit e w r : health (emit e w) r = health w r.
Proof. reflexivity. Qed.

Lemma health_track ev v w r : health (track ev v w) r = health w r.
Proof. reflexivity. Qed.

Lemma heap_removeEnemy r w : heap (removeEnemy r w) = heap w.
Proof. unfold removeEnemy. by destruct (bool_decide _). Qed.

Lemma progression_removeEnemy r w :
  progression (removeEnemy r w) = progression w.
Proof. unfold removeEnemy. by destruct (bool_decide _). Qed.

Lemma progression_emit e w : progression (emit e w) = progression w.
Proof. reflexivity. Qed.

Lemma progression_track ev v w :
  progression (track ev v w) =
  ProgressionManager.trackCombatEvent ev v (progression w).
Proof. reflexivity. Qed.

Ltac world_simpl :=
  rewrite ?ent_emit, ?ent_track, ?ent_set_rng, ?health_emit, ?health_track,
    ?progression_emit, ?progression_track, ?progression_removeEnemy.

Lemma ent_update_stats_same_identity r r' f h :
  ent_id (entity (update_stats r f h) r') = ent_id (entity h r').
Proof.
  destruct (decide (r = r')) as [->|Hne].
  - unfold update_stats. by rewrite entity_update_entity_eq.
  - by rewrite entity_update_stats_ne.
Qed.

Lemma handleAttack_from attacker target w :
  handleAttack attacker target w = handleAttackFrom attacker target w.
Proof.
  unfold handleAttack, handleAttackFrom, playAnimation, animationOf.
  fold (attackDamage w attacker target).
  set (dmg := attackDamage w attacker target).
  set (w1 := set_heap _ w).
  assert (HP : forall r, isPlayer (ent w1 r) = isPlayer (ent w r))
    by (intros r; apply isPlayer_update_stats).
  assert (HI : forall r, ent_id (ent w1 r) = ent_id (ent w r))
    by (intros r; apply ent_update_stats_same_identity).
  assert (HL : level (stats (ent w1 target)) = level (stats (ent w target)))
    by (unfold w1, ent; simpl; by rewrite stats_update_stats_eq).
  assert (HH : health w1 target = Qmax 0 (health w target - dmg))
    by (unfold w1, health, ent; simpl; by rewrite stats_update_stats_eq).
  rewrite !HP, !HI.
  destruct (isPlayer (ent w attacker)) eqn:Ea,
           (isPlayer (ent w target)) eqn:Et;
    repeat (progress (cbv beta iota; world_simpl;
                      rewrite ?HP, ?HI, ?HH, ?HL, ?Ea, ?Et));
    reflexivity.
Qed.

Lemma health_set_rng x w r : health (set_rng x w) r = health w r.
Proof. reflexivity. Qed.

Lemma attackDamage_ge_1 w attacker target : 1 <= attackDamage w attacker target.
Proof. apply Qmax_ge_l. Qed.

(** ** Attack damage *)

(** C9: the base damage of an attack is [max(1, attack - defense)] of the
    attacker and the target, it is at least 1, it is what [handleAttack]
    takes from the target's health (clamped at 0), and an attacker with
    attack 15 deals 1 damage to a target with defense 20. *)
Theorem C9_base_attack_damage (w : World) (attacker target : nat) :
  let dmg := calculateDamage (ent w attacker) (ent w target) in
  dmg = Qmax 1 (attack (stats (ent w attacker)) - defense (stats (ent w target)))
  /\ 1 <= dmg /\ 0 < dmg
  /\ health (handleAttack attacker target w) target
     = Qmax 0 (health w target - dmg)
  /\ calculateDamage Scenario.thePlayer
       (Scenario.enemyAt "enemy" 0 (mkStats 1 50 50 10 20 5 50 50)) == 1.
Proof.
  cbv zeta. repeat split.
  - apply Qmax_ge_l.
  - apply Qlt_le_trans with 1; [reflexivity | apply Qmax_ge_l].
  - apply health_handleAttack.
Qed.

(** C1: the [ATTACK] case of [processActions] takes from its target the
    damage of [handleAttack], whatever the passives contributed.  With the
    passive "Life Steal" equipped it computes a final damage of 20 from the
    base damage 10, and then takes only the base damage from the target:
    the enemy goes from 50 to 40 health, not to 30. *)
Theorem C1_final_damage_is_discarded (sqrt : Q -> Q) :
  (forall w source target damage,
     health (processAction sqrt (ATTACK source target damage) w) target
     = Qmax 0 (health w target - attackDamage w source target))
  /\ (let w := Scenario.duelWithLifeSteal in
      let attackPassives :=
        fst (PassiveManager.checkTrigger (passiveSlots w) (heap w)
               PassiveTrigger.ON_ATTACK 0 (Some 1%nat) (Some 10) (rng w)) in
      actionQueue w = [ATTACK 0 1 10]
      /\ finalDamage 10 attackPassives == 20
      /\ health w 1 == 50
      /\ health (processActions sqrt w) 1 == 40
      /\ ~ health (processActions sqrt w) 1 == Qmax 0 (50 - 20)).
Proof.
  split; [intros; apply health_processAction_attack|].
  cbv zeta. repeat split; try (vm_compute; reflexivity).
  vm_compute. discriminate.
Qed.

Lemma removeFirst_absent r l : r ∉ l -> removeFirst r l = l.
Proof.
  induction l as [|x xs IH]; intros Hnin; [reflexivity|]. simpl.
  apply not_elem_of_cons in Hnin. destruct Hnin as [Hne Hnin].
  rewrite decide_False by congruence. by rewrite IH.
Qed.

Lemma enemies_removeEnemy r w :
  enemies (removeEnemy r w) = removeFirst r (enemies w).
Proof.
  unfold removeEnemy. destruct (decide (r ∈ enemies w)) as [Hin|Hnin].
  - by rewrite bool_decide_eq_true_2.
  - rewrite bool_decide_eq_false_2 by exact Hnin.
    by rewrite removeFirst_absent.
Qed.

(** An enemy that [handleAttack] brings to 0 health leaves the roster in
    the same call. *)
Lemma enemies_handleAttack_lethal w attacker target :
  isPlayer (ent w target) = false ->
  health (handleAttack attacker target w) target <= 0 ->
  enemies (handleAttack attacker target w) = removeFirst target (enemies w).
Proof.
  intros Hnp Hdead. rewrite health_handleAttack in Hdead.
  apply Num_leb_le in Hdead.
  rewrite handleAttack_from. unfold handleAttackFrom.
  rewrite Hdead, Hnp. by rewrite enemies_removeEnemy.
Qed.

(** C2: an enemy that an attack brings to 0 health is removed from the
    roster at once, and the experience of a victory is summed over the
    roster.  The player against one enemy of level 1: after five rounds the
    enemy is at 0 health, the player is alive and the session ends in
    [VICTORY], but the roster is empty when the experience is computed, and
    the experience handed to [endCombat] is 0, not 10. *)
Theorem C2_victory_experience_is_zero (sqrt : Q -> Q) :
  (forall w attacker target,
     isPlayer (ent w target) = false ->
     health (handleAttack attacker target w) target <= 0 ->
     enemies (handleAttack attacker target w) = removeFirst target (enemies w))
  /\ (let before :=
        advance sqrt 10000 (Scenario.rounds_from sqrt 4 2000 Scenario.duel) in
      let after := Scenario.rounds_from sqrt 5 2000 Scenario.duel in
      currentState after = VICTORY
      /\ 0 < health after 0
      /\ health after 1 == 0
      /\ level (stats (ent after 1)) == 1
      /\ enemies after = []
      /\ checkCombatEnd before
         = Some (mkResult VICTORY (Some 0%nat) (Some 0) (Some []))).
Proof.
  split; [apply enemies_handleAttack_lethal|].
  cbv zeta. repeat split; vm_compute; reflexivity.
Qed.

(** ** Defeat tracking *)

Lemma dead_target_stays_dead w attacker target :
  health w target <= 0 ->
  Num.leb (Qmax 0 (health w target - attackDamage w attacker target)) 0 = true.
Proof.
  intros Hdead. apply Num_leb_le. apply Q.max_lub; [apply Qle_refl|].
  pose proof (attackDamage_ge_1 w attacker target) as Hd. lra.
Qed.

(** What [handleAttack] does to the ledger when its target is an enemy
    that is already down. *)
Lemma progression_handleAttack_dead w attacker target :
  isPlayer (ent w target) = false ->
  health w target <= 0 ->
  progression (handleAttack attacker target w) =
  ProgressionManager.trackCombatEvent enemy_defeated
    (level (stats (ent w target)))
    (ProgressionManager.trackCombatEvent
       (if isPlayer (ent w attacker) then damage_dealt else damage_taken)
       (attackDamage w attacker target) (progression w)).
Proof.
  intros Hnp Hdead. rewrite handleAttack_from. unfold handleAttackFrom.
  rewrite dead_target_stays_dead by assumption. rewrite Hnp.
  world_simpl. reflexivity.
Qed.

(** C10: resolving an [ATTACK] action whose target is an enemy that is
    already at 0 health counts the enemy as defeated once more: the run's
    [enemiesDefeated] grows by 1 and the resource reward of the enemy's
    level is added again.  With two attacks queued on one enemy of 10
    health, the run ends up with 2 enemies defeated and a reward of 10. *)
Theorem C10_defeat_is_tracked_again (sqrt : Q -> Q) :
  (forall (w : World) (source target : nat) (damage : Q) (run : RunStats),
     ProgressionManager.currentRun (progression w) = Some run ->
     isPlayer (ent w target) = false ->
     health w target <= 0 ->
     exists run',
       ProgressionManager.currentRun
         (progression (processAction sqrt (ATTACK source target damage) w))
       = Some run'
       /\ enemiesDefeated run' = enemiesDefeated run + 1
       /\ resourcesGained run' =
          resourcesGained run +
          ProgressionManager.calculateResourceGain
            (ProgressionManager.progress (progression w))
            (level (stats (ent w target))))
  /\ (let w := Scenario.twoAttacksQueued in
      let w' := processActions sqrt w in
      enemies w = [1%nat]
      /\ health (set_actionQueue [ATTACK 0 1 10] (processAction sqrt (ATTACK 0 1 10) w)) 1 == 0
      /\ (enemiesDefeated <$> ProgressionManager.currentRun (progression w'))
         = Some 2
      /\ (resourcesGained <$> ProgressionManager.currentRun (progression w'))
         = Some 10).
Proof.
  split.
  - intros w source target damage run Hrun Hnp Hdead.
    unfold processAction.
    destruct (PassiveManager.checkTrigger _ _ _ _ _ _ _) as [results r].
    rewrite progression_handleAttack_dead by assumption.
    change (progression (set_rng r w)) with (progression w).
    change (ent (set_rng r w)) with (ent w).
    unfold ProgressionManager.trackCombatEvent at 2. rewrite Hrun.
    destruct (isPlayer (ent w source)); simpl; eexists; (split; [reflexivity|]);
      split; reflexivity.
  - cbv zeta. repeat split; vm_compute; reflexivity.
Qed.

Lemma C10_defeat_is_tracked_again_witness :
  exists run',
    ProgressionManager.currentRun
      (progression
         (processAction (fun x => x) (ATTACK 0 1 10)
            (processAction (fun x => x) (ATTACK 0 1 10)
               Scenario.twoAttacksQueued)))
    = Some run'
    /\ enemiesDefeated run' = 0 + 1 + 1
    /\ resourcesGained run' = 0 + 5 + 5.
Proof.
  pose proof (proj1 (C10_defeat_is_tracked_again (fun x => x))
                (processAction (fun x => x) (ATTACK 0 1 10)
                   Scenario.twoAttacksQueued)
                0%nat 1%nat 10
                (mkRunStats "run" 0 0 (0 + 1) (0 + 10) 0 (0 + 5)
                   RunResult.DEFEAT 1 1)) as H.
  destruct H as [run' [H1 [H2 H3]]].
  - vm_compute. reflexivity.
  - vm_compute. reflexivity.
  - vm_compute. discriminate.
  - exists run'. split; [exact H1|]. split; [exact H2|].
    rewrite H3. vm_compute. reflexivity.
Defined.

(** ** Skill execution *)

(** C4: a skill that is on cooldown, or whose energy cost the source
    cannot pay, is not executed: the result is unsuccessful and carries no
    effect, and the heap is the one before the call, so the source's
    energy, the skill's cooldown and every target's stats are unchanged. *)
Theorem C4_executeSkill_fails_closed
    (h : Heap) (sk source : nat) (targets : list nat) :
  0 < currentCooldown (skill h sk)
  \/ currentEnergy (stats (entity h source)) < energyCost (skill h sk) ->
  let res := fst (SkillManager.executeSkill h sk source targets) in
  let h' := snd (SkillManager.executeSkill h sk source targets) in
  success res = false
  /\ sr_effects res = []
  /\ h' = h
  /\ currentEnergy (stats (entity h' source))
     = currentEnergy (stats (entity h source))
  /\ currentCooldown (skill h' sk) = currentCooldown (skill h sk)
  /\ Forall (fun t => stats (entity h' t) = stats (entity h t)) targets.
Proof.
  intros Hfail. cbv zeta. unfold SkillManager.executeSkill.
  destruct (Num.ltb 0 (currentCooldown (skill h sk))) eqn:Ecd.
  - simpl. repeat split; try reflexivity. by apply Forall_forall.
  - destruct (Num.ltb (currentEnergy (stats (entity h source)))
                      (energyCost (skill h sk))) eqn:Een.
    + simpl. repeat split; try reflexivity. by apply Forall_forall.
    + exfalso. apply Num_ltb_ge in Ecd. apply Num_ltb_ge in Een.
      destruct Hfail as [H|H]; lra.
Qed.

(** A skill with two rounds of cooldown left, as in the specification's
    example. *)
Lemma C4_executeSkill_fails_closed_witness :
  let h :=
    mkHeap {[ 0%nat := Scenario.thePlayer ]}
      {[ 7%nat := mkSkill "power-strike" "Power Strike" SkillType.ATTACK
                    TargetType.SINGLE_ENEMY
                    [mkSkillEffect SkillType.ATTACK 200 None None] 3 2 30 ]} in
  success (fst (SkillManager.executeSkill h 7 0 [0%nat])) = false
  /\ currentEnergy (stats (entity (snd (SkillManager.executeSkill h 7 0 [0%nat])) 0))
     = 100.
Proof.
  cbv zeta.
  match goal with
  | |- success (fst (SkillManager.executeSkill ?h _ _ _)) = _ /\ _ =>
      pose proof (C4_executeSkill_fails_closed h 7 0 [0%nat]) as H
  end.
  cbv zeta in H. destruct H as [H1 [_ [_ [H4 _]]]].
  - left. vm_compute. reflexivity.
  - split; [exact H1|]. rewrite H4. vm_compute. reflexivity.
Defined.

(** The value that the code computes for a skill effect is within one
    tenth of the exact product, for magnitudes up to a million. *)
Lemma calculateSkillEffect_close (b : Q) (source target : CombatEntity) :
  Qabs b <= 1000000 ->
  Qabs (attack (stats source)) <= 1000000 ->
  Qabs (defense (stats target)) <= 1000000 ->
  Num.floor (exactSkillEffect b source target - (1 # 10))
  <= SkillManager.calculateSkillEffect b source target
  <= Num.floor (exactSkillEffect b source target + (1 # 10)).
Proof.
  intros Hb Ha Hd.
  apply Qabs_Qle_condition in Hb, Ha, Hd.
  unfold exactSkillEffect, SkillManager.calculateSkillEffect.
  cbv zeta. unfold Double.mul, Double.div, Double.sub.
  set (a := attack (stats source)) in *.
  set (d := defense (stats target)) in *.
  assert (EA : a / 100 == a * (1 # 100)) by field.
  assert (ED : d / 100 == d * (1 # 100)) by field.
  set (A := a / 100) in *. set (D := d / 100) in *.
  pose proof (Double_round_iv A 10000 ltac:(lra)) as HA'.
  pose proof (Double_round_iv D 10000 ltac:(lra)) as HD'.
  set (A' := Double.round A) in *. set (D' := Double.round D) in *.
  unfold Double.uBound, Double.etaBound in *.
  pose proof (Double_round_iv (1 - D') 10002 ltac:(lra)) as HS'.
  set (S' := Double.round (1 - D')) in *.
  pose proof (Qmult_iv b A' 1000000 10001 Hb ltac:(lra)) as HP0.
  pose proof (Double_round_iv (b * A') (1000000 * 10001) HP0) as HP1.
  set (P1 := Double.round (b * A')) in *.
  unfold Double.uBound, Double.etaBound in *.
  set (eA := 10000 * (12 # 100000000000000000)
             + (1 # 1000000000000000000000000000000)) in *.
  pose proof (Qmult_iv b (A' - A) 1000000 eA Hb ltac:(lra)) as Hd1.
  pose proof (Qmult_iv b A 1000000 10000 Hb ltac:(lra)) as HbA.
  assert (E1 : b * A' == b * A + b * (A' - A)) by ring.
  set (e1 := 1000000 * eA
             + (1000000 * 10001 * (12 # 100000000000000000)
                + (1 # 1000000000000000000000000000000))).
  assert (H1 : - e1 <= P1 - b * A <= e1) by (unfold e1; lra).
  set (eS := eA + (10002 * (12 # 100000000000000000)
                   + (1 # 1000000000000000000000000000000))).
  assert (HS : - eS <= S' - (1 - D) <= eS) by (unfold eS; lra).
  assert (HSb : - (10001) <= 1 - D <= 10001) by lra.
  pose proof (Qmult_iv (b * A) (S' - (1 - D)) (1000000 * 10000) eS HbA HS)
    as Hx1.
  pose proof (Qmult_iv (P1 - b * A) (1 - D) e1 10001 H1 HSb) as Hx2.
  pose proof (Qmult_iv (P1 - b * A) (S' - (1 - D)) e1 eS H1 HS) as Hx3.
  assert (E2 : P1 * S'
               == b * A * (1 - D)
                  + (b * A * (S' - (1 - D)) + (P1 - b * A) * (1 - D)
                     + (P1 - b * A) * (S' - (1 - D)))) by ring.
  assert (HQ0 : - (100030000010003 # 1) <= P1 * S' <= 100030000010003).
  { pose proof (Qmult_iv P1 S' 10000000001 10003
                  ltac:(unfold e1, eA in *; lra)
                  ltac:(unfold eS, eA in *; lra)). lra. }
  pose proof (Double_round_iv (P1 * S') 100030000010003 HQ0) as HP.
  unfold Double.uBound, Double.etaBound in HP.
  assert (Hclose : b * A * (1 - D) - (1 # 10) <= Double.round (P1 * S')
                   <= b * A * (1 - D) + (1 # 10))
    by (unfold e1, eS, eA in *; lra).
  destruct Hclose as [Hlo Hhi]. unfold Num.floor.
  split; rewrite <- Zle_Qle; by apply Qfloor_resp_le.
Qed.

(** C5, as the code has it: a skill that is off cooldown and affordable
    is executed: the result is successful and holds, target by target and
    effect by effect, the value [floor(baseValue * (source.attack / 100) * (1 -
    target.defense / 100))] as the doubles compute it, from left to right
    and with every quotient, difference and product rounded to the
    nearest double; for magnitudes up to a million this value lies
    between the floors of the exact product minus and plus one tenth, so
    that it is the floor of the exact product or differs from it by 1.
    The energy cost is taken from the source and the skill's cooldown is
    set to its configured value; nothing else in the heap changes. *)
Theorem C5_executeSkill_succeeds
    (h : Heap) (sk source : nat) (targets : list nat) :
  currentCooldown (skill h sk) <= 0 ->
  energyCost (skill h sk) <= currentEnergy (stats (entity h source)) ->
  let res := fst (SkillManager.executeSkill h sk source targets) in
  let h' := snd (SkillManager.executeSkill h sk source targets) in
  success res = true
  /\ sr_targets res = targets
  /\ sr_effects res =
     flat_map
       (fun target =>
          map (fun effect =>
                 (target, effect,
                  Num.floor
                    (Double.mul
                       (Double.mul (se_value effect)
                          (Double.div (attack (stats (entity h source))) 100))
                       (Double.sub 1
                          (Double.div (defense (stats (entity h target)))
                             100)))))
              (skill_effects (skill h sk)))
       targets
  /\ (forall target effect value,
        (target, effect, value) ∈ sr_effects res ->
        Qabs (se_value effect) <= 1000000 ->
        Qabs (attack (stats (entity h source))) <= 1000000 ->
        Qabs (defense (stats (entity h target))) <= 1000000 ->
        let exact :=
          exactSkillEffect (se_value effect) (entity h source)
            (entity h target) in
        Num.floor (exact - (1 # 10)) <= value <= Num.floor (exact + (1 # 10))
        /\ Num.floor exact - 1 <= value <= Num.floor exact + 1)
  /\ length (sr_effects res)
     = (length targets * length (skill_effects (skill h sk)))%nat
  /\ currentEnergy (stats (entity h' source))
     = currentEnergy (stats (entity h source)) - energyCost (skill h sk)
  /\ currentCooldown (skill h' sk) = cooldown (skill h sk)
  /\ (forall r, r <> source -> entity h' r = entity h r)
  /\ (forall r, r <> sk -> skill h' r = skill h r).
Proof.
  intros Hcd Hen. cbv zeta. unfold SkillManager.executeSkill.
  apply Num_ltb_ge in Hcd. apply Num_ltb_ge in Hen. rewrite Hcd, Hen.
  cbn [fst snd success sr_targets sr_effects].
  split; [reflexivity|]. split; [reflexivity|]. split; [reflexivity|].
  split.
  { intros target effect value Hin Hb Ha Hd.
    apply list_elem_of_In, in_flat_map in Hin.
    destruct Hin as (t & _ & Hin). apply in_map_iff in Hin.
    destruct Hin as (e & Heq & _). inversion Heq; subst t e. clear Heq.
    pose proof (calculateSkillEffect_close _ _ _ Hb Ha Hd) as [Hlo Hhi].
    split; [by split|].
    set (x := exactSkillEffect _ _ _) in *.
    pose proof (Qfloor_le x) as Hx1. pose proof (Qlt_floor x) as Hx2.
    rewrite inject_Z_plus in Hx2. change (inject_Z 1) with 1 in Hx2.
    assert (Hf1 : (Qfloor x + -1 <= Qfloor (x - (1 # 10)))%Z).
    { apply Qfloor_lower. rewrite inject_Z_plus.
      change (inject_Z (-1)) with (-1). lra. }
    assert (Hf2 : (Qfloor (x + (1 # 10)) < Qfloor x + 1 + 1)%Z).
    { apply Qfloor_upper. rewrite !inject_Z_plus.
      change (inject_Z 1) with 1. lra. }
    assert (Hf3 : (Qfloor (x + (1 # 10)) <= Qfloor x + 1)%Z) by lia.
    rewrite Zle_Qle, inject_Z_plus in Hf1, Hf3.
    change (inject_Z (-1)) with (-1) in Hf1.
    change (inject_Z 1) with 1 in Hf3.
    unfold Num.floor in *.
    split; lra. }
  split.
  { induction targets as [|t ts IH]; [reflexivity|].
    cbn [flat_map]. rewrite length_app, length_map, IH. simpl. lia. }
  split.
  { rewrite stats_update_stats_eq. rewrite skill_update_skill_eq.
    reflexivity. }
  split.
  { unfold update_stats. rewrite skill_update_entity.
    rewrite skill_update_skill_eq. reflexivity. }
  split.
  { intros r Hr. by rewrite entity_update_stats_ne. }
  { intros r Hr. unfold update_stats. rewrite skill_update_entity.
    by rewrite skill_update_skill_ne. }
Qed.

(** The default skill "Power Strike" used by the player on the enemy. *)
Lemma C5_executeSkill_succeeds_witness :
  let h :=
    mkHeap {[ 0%nat := Scenario.thePlayer;
              1%nat := Scenario.enemyAt "enemy-1" (1 # 2) Scenario.enemyStats ]}
      {[ 7%nat := mkSkill "power-strike" "Power Strike" SkillType.ATTACK
                    TargetType.SINGLE_ENEMY
                    [mkSkillEffect SkillType.ATTACK 200 None None] 3 0 30 ]} in
  let res := fst (SkillManager.executeSkill h 7 0 [1%nat]) in
  let h' := snd (SkillManager.executeSkill h 7 0 [1%nat]) in
  success res = true
  /\ sr_effects res = [(1%nat, mkSkillEffect SkillType.ATTACK 200 None None, 28)]
  /\ currentEnergy (stats (entity h' 0)) == 70
  /\ currentCooldown (skill h' 7) == 3.
Proof.
  cbv zeta.
  match goal with
  | |- success (fst (SkillManager.executeSkill ?h _ _ _)) = _ /\ _ =>
      pose proof (C5_executeSkill_succeeds h 7 0 [1%nat]) as H
  end.
  cbv zeta in H. destruct H as [H1 [_ [H3 [_ [_ [H5 [H6 _]]]]]]].
  - vm_compute. discriminate.
  - vm_compute. discriminate.
  - split; [exact H1|]. split; [rewrite H3; vm_compute; reflexivity|].
    split; [rewrite H5|rewrite H6]; vm_compute; reflexivity.
Defined.

(** The value is not always the floor of the exact product: a skill of
    base value 200, used by a source of attack 25 on a target of defense
    34, has the exact product [200 * 0.25 * 0.66 = 33]; the code computes
    [1 - 0.34 = 0.6599999999999999] and [50 * 0.6599999999999999 =
    32.99999999999999], and returns 32. *)
Lemma C5_value_is_not_the_exact_floor :
  let source :=
    mkEntity "player" "Player" (mkStats 1 100 100 25 10 10 100 100)
      (mkVec 0 0 0) true in
  let target :=
    mkEntity "enemy-1" "Enemy 1" (mkStats 1 50 50 10 34 5 50 50)
      (mkVec (1 # 2) 0 0) false in
  let effect := mkSkillEffect SkillType.ATTACK 200 None None in
  let h :=
    mkHeap {[ 0%nat := source; 1%nat := target ]}
      {[ 7%nat := mkSkill "power-strike" "Power Strike" SkillType.ATTACK
                    TargetType.SINGLE_ENEMY [effect] 3 0 30 ]} in
  let res := fst (SkillManager.executeSkill h 7 0 [1%nat]) in
  success res = true
  /\ sr_effects res = [(1%nat, effect, 32)]
  /\ Num.floor (200 * (25 / 100) * (1 - 34 / 100)) == 33
  /\ Num.floor (exactSkillEffect 200 source target) == 33.
Proof. vm_compute. repeat split; reflexivity. Qed.

(** ** Purchasing an upgrade *)

(** C6: [purchaseUpgrade] returns [false] and changes nothing when the
    upgrade is unknown, at its maximum level, or costs more than the
    balance; otherwise it returns [true], takes the current cost from the
    balance, raises the level by 1 and sets the cost to [floor(cost * 1.5)],
    leaving the upgrade's other fields and the other upgrades as they
    were. *)
Theorem C6_purchaseUpgrade (upgradeId : string) (m : ProgressionManager.t) :
  let p := ProgressionManager.progress m in
  let out := ProgressionManager.purchaseUpgrade upgradeId m in
  (JsMap.get upgradeId (metaUpgrades p) = None -> out = (false, m))
  /\ (forall u, JsMap.get upgradeId (metaUpgrades p) = Some u ->
        maxLevel u <= currentLevel u \/ resources p < cost u ->
        out = (false, m))
  /\ (forall u, JsMap.get upgradeId (metaUpgrades p) = Some u ->
        currentLevel u < maxLevel u -> cost u <= resources p ->
        let p' := ProgressionManager.progress (snd out) in
        fst out = true
        /\ resources p' = resources p - cost u
        /\ JsMap.get upgradeId (metaUpgrades p')
           = Some (mkMetaUpgrade (upgrade_id u) (upgrade_name u)
                     (upgrade_type u) (value u)
                     (Num.floor (cost u * (3 # 2)))
                     (maxLevel u) (currentLevel u + 1))
        /\ (forall other, other <> upgradeId ->
              JsMap.get other (metaUpgrades p')
              = JsMap.get other (metaUpgrades p))
        /\ ProgressionManager.storage (snd out) = Some p').
Proof.
  cbv zeta. unfold ProgressionManager.purchaseUpgrade.
  split; [|split].
  - intros ->. reflexivity.
  - intros u -> Hfail.
    destruct Hfail as [H|H].
    + apply Num_leb_le in H. by rewrite H.
    + apply Num_ltb_lt in H. rewrite H. by rewrite orb_true_r.
  - intros u -> Hlvl Hres.
    apply Num_leb_gt in Hlvl. apply Num_ltb_ge in Hres.
    rewrite Hlvl, Hres. simpl.
    split; [reflexivity|]. split; [reflexivity|].
    split; [apply JsMap_get_set_eq|].
    split; [|reflexivity].
    intros other Hne. apply JsMap_get_set_ne. congruence.
Qed.

(** The default upgrade "Power Surge", bought with a balance of 120, and
    the same upgrade at its maximum level. *)
Lemma C6_purchaseUpgrade_witness :
  let powerSurge lvl :=
    mkMetaUpgrade "damage-boost" "Power Surge" MetaUpgradeType.DAMAGE_BOOST
      (1 # 20) 100 10 lvl in
  let m lvl :=
    ProgressionManager.mk None
      (mkPlayerProgress 0 None 120 [("damage-boost"%string, powerSurge lvl)] []
         (mkStatistics 0 0 0 0 0)) None in
  ProgressionManager.purchaseUpgrade "unknown" (m 0) = (false, m 0)
  /\ ProgressionManager.purchaseUpgrade "damage-boost" (m 10) = (false, m 10)
  /\ fst (ProgressionManager.purchaseUpgrade "damage-boost" (m 0)) = true
  /\ resources (ProgressionManager.progress
                  (snd (ProgressionManager.purchaseUpgrade "damage-boost" (m 0))))
     == 20
  /\ (cost <$> JsMap.get "damage-boost"
                 (metaUpgrades
                    (ProgressionManager.progress
                       (snd (ProgressionManager.purchaseUpgrade
                               "damage-boost" (m 0))))))
     = Some 150.
Proof.
  cbv zeta.
  match goal with
  | |- ProgressionManager.purchaseUpgrade _ ?m0 = _
       /\ ProgressionManager.purchaseUpgrade _ ?m10 = _ /\ _ =>
      pose proof (C6_purchaseUpgrade "unknown" m0) as [H1 _];
      pose proof (C6_purchaseUpgrade "damage-boost" m10) as [_ [H2 _]];
      pose proof (C6_purchaseUpgrade "damage-boost" m0) as [_ [_ H3]]
  end.
  cbv zeta in H1, H2, H3.
  split; [apply H1; reflexivity|].
  split; [eapply H2; [reflexivity | left; vm_compute; discriminate]|].
  edestruct H3 as [Ha [Hb [Hc _]]];
    [reflexivity | vm_compute; reflexivity | vm_compute; discriminate |].
  split; [exact Ha|]. split; [rewrite Hb; vm_compute; reflexivity|].
  rewrite Hc. vm_compute. reflexivity.
Defined.

(** ** The bounds of health and energy *)

(** Replaces every [Qmax]/[Qmin] of the goal by a variable constrained by
    its specification, and calls the decision procedure. *)
Ltac q_bounds :=
  repeat match goal with
         | |- context [Qmax ?a ?b] =>
             pose proof (Q.max_spec a b);
             generalize dependent (Qmax a b); intros
         | |- context [Qmin ?a ?b] =>
             pose proof (Q.min_spec a b);
             generalize dependent (Qmin a b); intros
         end;
  lra.

Lemma stats_update_stats r r' f h :
  stats (entity (update_stats r f h) r') =
  if decide (r = r') then f (stats (entity h r')) else stats (entity h r').
Proof.
  destruct (decide (r = r')) as [->|Hne].
  - apply stats_update_stats_eq.
  - by rewrite entity_update_stats_ne.
Qed.

Lemma set_currentHealth_inv s x :
  stats_inv s -> 0 <= x -> x <= maxHealth s ->
  stats_inv (set_currentHealth x s).
Proof. unfold stats_inv. simpl. intuition. Qed.

Lemma set_currentEnergy_inv s x :
  stats_inv s -> 0 <= x -> x <= maxEnergy s ->
  stats_inv (set_currentEnergy x s).
Proof. unfold stats_inv. simpl. intuition. Qed.

Lemma handleAttack_inv w attacker target r :
  stats_inv (stats (ent w r)) ->
  stats_inv (stats (ent (handleAttack attacker target w) r)).
Proof.
  intros Hinv. unfold ent. rewrite heap_handleAttack, stats_update_stats.
  destruct (decide (target = r)) as [->|_]; [|exact Hinv].
  pose proof (attackDamage_ge_1 w attacker r) as Hd.
  fold (ent w r). destruct Hinv as (H1 & H2 & H3 & H4).
  apply set_currentHealth_inv; [by repeat split | q_bounds | q_bounds].
Qed.

Lemma heal_inv w target v r :
  0 <= v ->
  stats_inv (stats (ent w r)) ->
  stats_inv
    (stats (entity
              (update_stats target
                 (fun s => set_currentHealth
                             (Qmin (maxHealth s) (currentHealth s + v)) s)
                 (heap w)) r)).
Proof.
  intros Hv Hinv. rewrite stats_update_stats.
  destruct (decide (target = r)) as [->|_]; [|exact Hinv].
  fold (ent w r). destruct Hinv as (H1 & H2 & H3 & H4).
  apply set_currentHealth_inv; [by repeat split | q_bounds | q_bounds].
Qed.

Lemma handleSkillEffect_inv w source target eff v r :
  (se_type eff = SkillType.HEAL -> 0 <= v) ->
  stats_inv (stats (ent w r)) ->
  stats_inv (stats (ent (handleSkillEffect source (target, eff, v) w) r)).
Proof.
  intros Hv Hinv. unfold handleSkillEffect.
  destruct (se_type eff).
  - by apply handleAttack_inv.
  - apply heal_inv; [by apply Hv | exact Hinv].
  - exact Hinv.
  - exact Hinv.
Qed.

Lemma executeSkill_inv h sk source targets r :
  0 <= energyCost (skill h sk) ->
  stats_inv (stats (entity h r)) ->
  stats_inv (stats (entity (snd (SkillManager.executeSkill h sk source targets)) r)).
Proof.
  intros Hcost Hinv. unfold SkillManager.executeSkill.
  destruct (Num.ltb 0 (currentCooldown (skill h sk))); [exact Hinv|].
  destruct (Num.ltb _ (energyCost (skill h sk))) eqn:Een; [exact Hinv|].
  apply Num_ltb_ge in Een. cbn [snd].
  rewrite stats_update_stats.
  destruct (decide (source = r)) as [->|_]; [|exact Hinv].
  rewrite skill_update_skill_eq. cbn [energyCost set_currentCooldown].
  rewrite entity_update_skill in *.
  destruct Hinv as (H1 & H2 & H3 & H4).
  apply set_currentEnergy_inv; [by repeat split | lra | lra].
Qed.

Lemma applyGearStats_inv g s :
  let totalStats := total_stats (GearManager.calculateTotalStats g) in
  0 <= g_health totalStats -> 0 <= g_energy totalStats ->
  stats_inv s -> stats_inv (GearManager.applyGearStats g s).
Proof.
  cbv zeta. intros Hh He (H1 & H2 & H3 & H4).
  unfold GearManager.applyGearStats, stats_inv.
  cbn [currentHealth maxHealth currentEnergy maxEnergy].
  set (th := g_health _) in *. set (te := g_energy _) in *.
  repeat split; q_bounds.
Qed.

Lemma applyPermanentEffect_inv s effect :
  (pe_type effect = PassiveType.STAT_BOOST -> 0 <= pe_value effect) ->
  stats_inv s -> stats_inv (PassiveManager.applyPermanentEffect s effect).
Proof.
  intros Hv (H1 & H2 & H3 & H4). unfold PassiveManager.applyPermanentEffect.
  destruct (decide (pe_type effect = PassiveType.STAT_BOOST)) as [Hty|_];
    [|by repeat split].
  specialize (Hv Hty). unfold stats_inv.
  cbn [currentHealth maxHealth currentEnergy maxEnergy].
  repeat split; try assumption; q_bounds.
Qed.

Lemma fold_applyPermanentEffect_inv effects s :
  (forall effect, effect ∈ effects ->
     pe_type effect = PassiveType.STAT_BOOST -> 0 <= pe_value effect) ->
  stats_inv s ->
  stats_inv (fold_left PassiveManager.applyPermanentEffect effects s).
Proof.
  revert s. induction effects as [|e es IH]; intros s Hv Hinv; [exact Hinv|].
  simpl. apply IH.
  - intros effect Hin. apply Hv. by right.
  - apply applyPermanentEffect_inv; [|exact Hinv]. apply Hv. by left.
Qed.

Lemma applyPermanentPassives_inv slots s :
  boosts_nonneg slots ->
  stats_inv s -> stats_inv (PassiveManager.applyPermanentPassives slots s).
Proof.
  unfold PassiveManager.applyPermanentPassives, boosts_nonneg.
  intros Hv Hinv.
  set (ps := List.filter _ _).
  assert (Hps : forall p, p ∈ ps ->
                  Some p ∈ slots /\ trigger p = PassiveTrigger.PERMANENT).
  { intros p Hin. unfold ps in Hin.
    apply list_elem_of_In, filter_In in Hin. destruct Hin as [Hin Htr].
    apply bool_decide_eq_true in Htr. split; [|exact Htr].
    unfold PassiveManager.getActivePassives in Hin.
    apply list_elem_of_In, list_elem_of_omap in Hin.
    destruct Hin as (o & Ho & Hid). destruct o; simpl in Hid; [|discriminate].
    by inversion Hid; subst. }
  clearbody ps. revert s Hinv.
  induction ps as [|p ps IH]; intros s Hinv; [exact Hinv|].
  simpl. apply IH.
  - intros q Hq. apply Hps. by right.
  - destruct (Hps p) as [Hin Htr]; [by left|].
    apply fold_applyPermanentEffect_inv; [|exact Hinv].
    intros effect He Hty. by apply (Hv p effect).
Qed.

(** C3, as the code has it: attack resolution keeps [0 <= currentHealth <=
    maxHealth] and [0 <= currentEnergy <= maxEnergy] for every entity; a
    skill effect keeps them when the value of a heal is not negative, the
    execution of a skill when its energy cost is not negative, the
    application of gear when the total health and energy of the gear are
    not negative, and the application of the permanent passives when their
    stat boosts are not negative. *)
Theorem C3_bounds_preserved (sqrt : Q -> Q) :
  (forall w attacker target r,
     stats_inv (stats (ent w r)) ->
     stats_inv (stats (ent (handleAttack attacker target w) r)))
  /\ (forall w source target damage r,
        stats_inv (stats (ent w r)) ->
        stats_inv
          (stats (ent (processAction sqrt (ATTACK source target damage) w) r)))
  /\ (forall w source target eff v r,
        (se_type eff = SkillType.HEAL -> 0 <= v) ->
        stats_inv (stats (ent w r)) ->
        stats_inv (stats (ent (handleSkillEffect source (target, eff, v) w) r)))
  /\ (forall h sk source targets r,
        0 <= energyCost (skill h sk) ->
        stats_inv (stats (entity h r)) ->
        stats_inv
          (stats (entity (snd (SkillManager.executeSkill h sk source targets)) r)))
  /\ (forall g s,
        0 <= g_health (total_stats (GearManager.calculateTotalStats g)) ->
        0 <= g_energy (total_stats (GearManager.calculateTotalStats g)) ->
        stats_inv s -> stats_inv (GearManager.applyGearStats g s))
  /\ (forall slots s,
        boosts_nonneg slots ->
        stats_inv s ->
        stats_inv (PassiveManager.applyPermanentPassives slots s)).
Proof.
  split; [intros; by apply handleAttack_inv|].
  split.
  { intros w source target damage r Hinv. unfold processAction.
    destruct (PassiveManager.checkTrigger _ _ _ _ _ _ _) as [results x].
    by apply handleAttack_inv. }
  split; [intros; by apply handleSkillEffect_inv|].
  split; [intros; by apply executeSkill_inv|].
  split; [intros; by apply applyGearStats_inv|].
  intros; by apply applyPermanentPassives_inv.
Qed.

(** ** Set bonuses *)

Lemma countSetPieces_bump l :
  GearManager.countSetPieces l =
  fold_left bump (SetBonusSpec.equippedSetIds l) [].
Proof.
  unfold GearManager.countSetPieces, SetBonusSpec.equippedSetIds.
  generalize (GearManager.loadoutValues l), (@nil (string * Q)).
  intros items. induction items as [|item items IH]; intros m; [reflexivity|].
  cbn [fold_left]. rewrite IH. unfold GearManager.countStep.
  change (omap GearManager.itemSetId (item :: items)) with
    (match GearManager.itemSetId item with
     | Some y => y :: omap GearManager.itemSetId items
     | None => omap GearManager.itemSetId items
     end).
  destruct (GearManager.itemSetId item); reflexivity.
Qed.

Section Tally.

Context {V : Type} (c : string -> V).

Lemma JsMap_get_tabulate x (D : list string) :
  JsMap.get x (map (fun k => (k, c k)) D) =
  if bool_decide (x ∈ D) then Some (c x) else None.
Proof.
  induction D as [|k D IH]; [reflexivity|]. simpl.
  destruct (decide (x = k)) as [->|Hne].
  - rewrite bool_decide_eq_true_2; [reflexivity | by left].
  - rewrite IH. apply option_eq. intros y.
    destruct (decide (x ∈ D)) as [Hin|Hnin].
    + rewrite !bool_decide_eq_true_2; [done | by right | done].
    + rewrite !bool_decide_eq_false_2; [done | | done].
      rewrite elem_of_cons. intros [Heq|Hin]; [by apply Hne | by apply Hnin].
Qed.

Lemma JsMap_set_tabulate_absent x v (D : list string) :
  x ∉ D ->
  JsMap.set x v (map (fun k => (k, c k)) D) =
  map (fun k => (k, c k)) D ++ [(x, v)].
Proof.
  induction D as [|k D IH]; intros Hnin; [reflexivity|]. simpl.
  apply not_elem_of_cons in Hnin. destruct Hnin as [Hne Hnin].
  rewrite decide_False by exact Hne. by rewrite IH.
Qed.

Lemma JsMap_set_tabulate_present x v (D : list string) :
  NoDup D -> x ∈ D ->
  JsMap.set x v (map (fun k => (k, c k)) D) =
  map (fun k => (k, if decide (k = x) then v else c k)) D.
Proof.
  induction D as [|k D IH]; intros Hnd Hin; [by apply elem_of_nil in Hin|].
  apply NoDup_cons in Hnd. destruct Hnd as [Hk Hnd]. simpl.
  destruct (decide (x = k)) as [->|Hne].
  - rewrite decide_True by reflexivity. f_equal.
    apply map_ext_in. intros a Ha. apply list_elem_of_In in Ha.
    rewrite decide_False; [reflexivity|]. by intros ->.
  - rewrite decide_False by congruence. f_equal. apply IH; [exact Hnd|].
    revert Hin. rewrite elem_of_cons. intros [Heq|Hin]; [by destruct Hne | exact Hin].
Qed.

End Tally.

Lemma pieceCount_snoc sid ids x :
  SetBonusSpec.pieceCount sid (ids ++ [x]) =
  if decide (x = sid) then SetBonusSpec.pieceCount sid ids + 1
  else SetBonusSpec.pieceCount sid ids.
Proof.
  unfold SetBonusSpec.pieceCount. rewrite List.filter_app, length_app. simpl.
  destruct (decide (x = sid)) as [->|Hne].
  - rewrite bool_decide_eq_true_2 by reflexivity. simpl.
    unfold Qplus, inject_Z. simpl. f_equal. lia.
  - rewrite bool_decide_eq_false_2 by exact Hne. simpl.
    by rewrite Nat.add_0_r.
Qed.

Lemma pieceCount_absent sid ids :
  sid ∉ ids -> SetBonusSpec.pieceCount sid ids = 0.
Proof.
  intros Hnin. unfold SetBonusSpec.pieceCount.
  induction ids as [|y ids IH]; [reflexivity|]. simpl.
  apply not_elem_of_cons in Hnin. destruct Hnin as [Hne Hnin].
  rewrite bool_decide_eq_false_2 by congruence. by apply IH.
Qed.

(** The map that the counting loop builds: one entry per distinct set id,
    in the order of first occurrence, holding the number of pieces. *)
Lemma tally_spec ids :
  let D := SetBonusSpec.distinctIds ids in
  NoDup D /\ (forall x, x ∈ D <-> x ∈ ids)
  /\ fold_left bump ids [] =
     map (fun sid => (sid, SetBonusSpec.pieceCount sid ids)) D.
Proof.
  cbv zeta. induction ids as [|x ids IH] using rev_ind.
  - split; [constructor|]. split; [done|reflexivity].
  - destruct IH as (Hnd & Hmem & Htally).
    unfold SetBonusSpec.distinctIds in *. rewrite !fold_left_app. simpl.
    set (D := fold_left _ ids []) in *.
    rewrite Htally. unfold bump. rewrite JsMap_get_tabulate.
    destruct (decide (x ∈ D)) as [Hin|Hnin].
    + rewrite !bool_decide_eq_true_2 by exact Hin. simpl.
      split; [exact Hnd|]. split.
      { intros y. rewrite elem_of_app, list_elem_of_singleton, Hmem.
        split; [by left|]. intros [H| ->]; [exact H | by apply Hmem]. }
      rewrite JsMap_set_tabulate_present by assumption.
      apply map_ext. intros k. rewrite pieceCount_snoc.
      destruct (decide (k = x)) as [->|Hne].
      * by rewrite decide_True.
      * by rewrite decide_False by congruence.
    + rewrite !bool_decide_eq_false_2 by exact Hnin. simpl.
      split.
      { apply NoDup_app. split; [exact Hnd|]. split; [|apply NoDup_singleton].
        intros y Hy Hx. apply list_elem_of_singleton in Hx. by subst. }
      split.
      { intros y. rewrite !elem_of_app, !list_elem_of_singleton, Hmem. done. }
      rewrite JsMap_set_tabulate_absent by exact Hnin.
      rewrite map_app. simpl. f_equal.
      * apply map_ext_in. intros k Hk. apply list_elem_of_In in Hk.
        rewrite pieceCount_snoc. rewrite decide_False; [reflexivity|].
        by intros ->.
      * rewrite pieceCount_snoc, decide_True by reflexivity.
        rewrite pieceCount_absent; [reflexivity|]. by rewrite <- Hmem.
Qed.

Lemma fold_left_tabulate {S V} (f : S -> string -> V -> S) (c : string -> V)
    (D : list string) (a : S) :
  fold_left (fun acc '(sid, count) => f acc sid count)
            (map (fun sid => (sid, c sid)) D) a =
  fold_left (fun acc sid => f acc sid (c sid)) D a.
Proof.
  revert a. induction D as [|k D IH]; intros a; [reflexivity|].
  simpl. apply IH.
Qed.

(** C7: the set bonuses that [calculateTotalStats] adds are, for each
    distinct set id among the equipped items, the stat blocks of all the
    tiers whose piece threshold is at most the number of equipped pieces of
    that set.  With four pieces of the warrior set the 2-piece and the
    4-piece blocks are both added, with three pieces the 2-piece block
    alone. *)
Theorem C7_set_bonuses_are_cumulative (g : GearManager.t) :
  GearManager.calculateSetBonuses g = SetBonusSpec.setBonuses g
  /\ total_stats (GearManager.calculateTotalStats g) =
     GearManager.addStats (GearManager.sumBaseStats (GearManager.loadout g))
                          (SetBonusSpec.setBonuses g)
  /\ (let four :=
        Armoury.wearing [Armoury.basicSword; Armoury.basicShield;
                         Armoury.leatherHelmet; Armoury.leatherBoots] in
      GearManager.calculateSetBonuses four =
        GearManager.addStats
          (GearManager.addStats GearManager.zeroStats Armoury.twoPieces)
          Armoury.fourPieces
      /\ GearManager.getActiveSetBonuses four
         = [mkActiveSetBonus "warrior" [2; 4]]
      /\ total_stats (GearManager.calculateTotalStats four)
         = mkGearStats 30 37 105 2 35)
  /\ (let three :=
        Armoury.wearing [Armoury.basicSword; Armoury.basicShield;
                         Armoury.leatherHelmet] in
      GearManager.calculateSetBonuses three =
        GearManager.addStats GearManager.zeroStats Armoury.twoPieces
      /\ GearManager.getActiveSetBonuses three
         = [mkActiveSetBonus "warrior" [2]]
      /\ total_stats (GearManager.calculateTotalStats three)
         = mkGearStats 15 20 50 (-1) 15).
Proof.
  assert (Hset : GearManager.calculateSetBonuses g = SetBonusSpec.setBonuses g).
  { unfold GearManager.calculateSetBonuses, SetBonusSpec.setBonuses.
    rewrite countSetPieces_bump.
    destruct (tally_spec (SetBonusSpec.equippedSetIds (GearManager.loadout g)))
      as (_ & _ & ->).
    apply (fold_left_tabulate
             (fun acc sid count =>
                match GearManager.gearSets g !! sid with
                | Some s =>
                    fold_left GearManager.addStats
                      (map bonus_stats (GearManager.activeTiers count s)) acc
                | None => acc
                end)). }
  split; [exact Hset|].
  split; [unfold GearManager.calculateTotalStats; simpl; by rewrite Hset|].
  split; cbv zeta; repeat split; vm_compute; reflexivity.
Qed.

(** ** The bounds of health, on concrete sessions *)

(** The player heals a wounded enemy of defense 200 with the default skill
    "Heal": the effect value is [floor(50 * 0.15 * (1 - 2)) = -8], and the
    enemy's health goes from 5 to -3. *)
Lemma C3_heal_breaks_bounds :
  let w := Scenario.healOnArmouredEnemy in
  let w' := processActions (fun x => x) w in
  stats_inv (stats (ent w 0)) /\ stats_inv (stats (ent w 1))
  /\ currentHealth (stats (ent w' 1)) == -3
  /\ ~ stats_inv (stats (ent w' 1)).
Proof.
  cbv zeta. split; [|split; [|split]].
  - vm_compute. repeat split; discriminate.
  - vm_compute. repeat split; discriminate.
  - vm_compute. reflexivity.
  - intros [H _]. vm_compute in H. apply H. reflexivity.
Qed.

(** The side conditions on the other mutations are needed as well: a
    skill of negative energy cost lifts the energy of a rested player above
    its maximum, and gear of negative total health takes a wounded player
    below 0. *)
Lemma negative_energy_cost_breaks_bounds :
  let h := mkHeap {[ 0%nat := Scenario.thePlayer ]} {[ 0%nat := Scenario.meditate ]} in
  let h' := snd (SkillManager.executeSkill h 0 0 [0%nat]) in
  stats_inv (stats (entity h 0))
  /\ currentEnergy (stats (entity h' 0)) == 110
  /\ ~ stats_inv (stats (entity h' 0)).
Proof.
  cbv zeta. split; [|split].
  - vm_compute. repeat split; discriminate.
  - vm_compute. reflexivity.
  - intros (_ & _ & _ & H). vm_compute in H. apply H. reflexivity.
Qed.

Lemma negative_gear_health_breaks_bounds :
  let g := Armoury.wearing [Armoury.bloodRing] in
  let wounded := mkStats 1 100 5 15 10 10 100 100 in
  stats_inv wounded
  /\ currentHealth (GearManager.applyGearStats g wounded) == -15
  /\ ~ stats_inv (GearManager.applyGearStats g wounded).
Proof.
  cbv zeta. split; [|split].
  - vm_compute. repeat split; discriminate.
  - vm_compute. reflexivity.
  - intros (H & _). vm_compute in H. apply H. reflexivity.
Qed.

Lemma C3_bounds_preserved_witness :
  stats_inv (stats (ent (handleAttack 0 1 Scenario.duel) 1))
  /\ stats_inv
       (stats (ent (handleSkillEffect 0
                      (1%nat, mkSkillEffect SkillType.HEAL 50 None None, 7)
                      (handleAttack 0 1 Scenario.duel)) 1))
  /\ stats_inv
       (stats (entity
                 (snd (SkillManager.executeSkill
                         (heap Scenario.healOnArmouredEnemy) 0 0 [1%nat])) 0))
  /\ stats_inv
       (GearManager.applyGearStats
          (Armoury.wearing [Armoury.basicSword; Armoury.basicShield])
          Scenario.playerStats)
  /\ stats_inv
       (PassiveManager.applyPermanentPassives [Some Scenario.toughness; None; None]
          Scenario.playerStats).
Proof.
  pose proof (C3_bounds_preserved (fun x => x)) as (Ha & _ & Hb & Hc & Hd & He).
  assert (Hp : stats_inv Scenario.playerStats)
    by (vm_compute; repeat split; discriminate).
  assert (He1 : stats_inv (stats (ent (handleAttack 0 1 Scenario.duel) 1))).
  { apply Ha. vm_compute. repeat split; discriminate. }
  split; [exact He1|].
  split.
  { apply Hb; [intros _; discriminate | exact He1]. }
  split.
  { apply Hc; [vm_compute; discriminate|].
    vm_compute. repeat split; discriminate. }
  split.
  { apply Hd; [vm_compute; discriminate | vm_compute; discriminate | exact Hp]. }
  apply He; [|exact Hp].
  intros passive effect Hin _ Heff _.
  apply elem_of_cons in Hin. destruct Hin as [Heq|Hin].
  - inversion Heq; subst. apply elem_of_cons in Heff.
    destruct Heff as [->|Heff]; [discriminate | by apply elem_of_nil in Heff].
  - apply elem_of_cons in Hin. destruct Hin as [Heq|Hin]; [discriminate|].
    apply elem_of_cons in Hin. destruct Hin as [Heq|Hin]; [discriminate|].
    by apply elem_of_nil in Hin.
Defined.

(** ** The order of a round *)

Section SortByKey.

Context {A : Type} (key : A -> Q).

Lemma insertBy_Permutation cmp (x : A) l : Permutation (insertBy cmp x l) (x :: l).
Proof.
  induction l as [|y ys IH]; [reflexivity|]. simpl.
  destruct (Num.ltb 0 (cmp x y)); [|reflexivity].
  rewrite IH. apply perm_swap.
Qed.

Lemma sortBy_Permutation cmp (l : list A) : Permutation (sortBy cmp l) l.
Proof.
  induction l as [|x l IH]; [reflexivity|]. simpl.
  rewrite insertBy_Permutation. by constructor.
Qed.

Lemma insertBy_descending_sorted x l :
  StronglySorted (fun a b => key b <= key a) l ->
  StronglySorted (fun a b => key b <= key a) (insertBy (descending key) x l).
Proof.
  induction l as [|y ys IH]; intros Hs.
  - repeat constructor.
  - simpl. unfold descending at 1.
    apply StronglySorted_inv in Hs. destruct Hs as [Hys Hy].
    destruct (Num.ltb 0 (key y - key x)) eqn:E.
    + apply Num_ltb_lt in E. constructor; [by apply IH|].
      apply Forall_forall. intros z Hz.
      rewrite (insertBy_Permutation (descending key) x ys) in Hz.
      apply elem_of_cons in Hz. destruct Hz as [->|Hz]; [lra|].
      rewrite Forall_forall in Hy. by apply Hy.
    + apply Num_ltb_ge in E. constructor; [by constructor|].
      constructor; [lra|].
      apply Forall_forall. intros z Hz. rewrite Forall_forall in Hy.
      specialize (Hy z Hz). simpl in Hy. lra.
Qed.

Lemma sortBy_descending_sorted l :
  StronglySorted (fun a b => key b <= key a) (sortBy (descending key) l).
Proof.
  induction l as [|x l IH]; [constructor|]. simpl.
  by apply insertBy_descending_sorted.
Qed.

(** An element is never moved behind one of the same key. *)
Lemma insertBy_descending_stable s x l :
  List.filter (fun e => Num.eqb (key e) s) (insertBy (descending key) x l) =
  List.filter (fun e => Num.eqb (key e) s) (x :: l).
Proof.
  induction l as [|y ys IH]; [reflexivity|].
  cbn [insertBy]. unfold descending at 1.
  destruct (Num.ltb 0 (key y - key x)) eqn:E; [|reflexivity].
  apply Num_ltb_lt in E.
  cbn [List.filter] in *. rewrite IH.
  destruct (Num.eqb (key x) s) eqn:Ex, (Num.eqb (key y) s) eqn:Ey;
    try reflexivity.
  unfold Num.eqb in *. apply Qeq_bool_iff in Ex, Ey. lra.
Qed.

Lemma sortBy_descending_stable s l :
  List.filter (fun e => Num.eqb (key e) s) (sortBy (descending key) l) =
  List.filter (fun e => Num.eqb (key e) s) l.
Proof.
  induction l as [|x l IH]; [reflexivity|].
  cbn [sortBy foldr]. fold (sortBy (descending key) l).
  rewrite insertBy_descending_stable. cbn [List.filter]. by rewrite IH.
Qed.

End SortByKey.

(** C8: the entities that act in a round are the player and the enemies
    with positive health; they act by descending speed, and entities of
    equal speed act in the order player first, then the enemies as they
    were added; the action queue of the round follows that order.  With a
    player of speed 10 and enemies of speed 5 and 15, the enemy of speed 15
    acts first, then the player, then the enemy of speed 5. *)
Theorem C8_round_order (w : World) (now : Q) :
  let spd e := speed (stats (ent w e)) in
  let living :=
    List.filter (fun e => Num.ltb 0 (health w e)) (player w :: enemies w) in
  let order := aliveEntities w in
  Permutation order living
  /\ (forall e, e ∈ order <-> e ∈ player w :: enemies w /\ 0 < health w e)
  /\ StronglySorted (fun a b => spd b <= spd a) order
  /\ (forall s,
        List.filter (fun e => Num.eqb (spd e) s) order
        = List.filter (fun e => Num.eqb (spd e) s) living)
  /\ actionQueue (processRound now w) = omap (determineAction w) order
  /\ (let w3 := Scenario.threeSpeeds in
      map (fun e => speed (stats (ent w3 e))) (player w3 :: enemies w3)
        = [10; 5; 15]
      /\ aliveEntities w3 = [2%nat; 0%nat; 1%nat]
      /\ map (fun e => speed (stats (ent w3 e))) (aliveEntities w3)
         = [15; 10; 5]
      /\ map action_source (actionQueue (processRound now w3))
         = [2%nat; 0%nat; 1%nat]).
Proof.
  cbv zeta.
  assert (Hperm :
    Permutation (aliveEntities w)
      (List.filter (fun e => Num.ltb 0 (health w e)) (player w :: enemies w)))
    by apply sortBy_Permutation.
  split; [exact Hperm|].
  split.
  { intros e. rewrite Hperm, list_elem_of_In, filter_In, <- list_elem_of_In.
    by rewrite Num_ltb_lt. }
  split.
  { apply (sortBy_descending_sorted (fun e => speed (stats (ent w e)))). }
  split.
  { intros s.
    apply (sortBy_descending_stable (fun e => speed (stats (ent w e)))). }
  split; [reflexivity|].
  repeat split; vm_compute; reflexivity.
Qed.

(** * Further properties of the managers *)

(** ** Equipping skills *)

Lemma lookup_map {A B} (f : A -> B) (l : list A) (j : nat) :
  map f l !! j = f <$> l !! j.
Proof.
  revert j. induction l as [|x l IH]; intros [|j]; simpl; try reflexivity.
  apply IH.
Qed.

Lemma outOfRange_false_iff slotIndex m :
  SkillLoadout.outOfRange slotIndex m = false
  <-> (0 <= slotIndex < SkillLoadout.maxSlots m)%Z.
Proof. unfold SkillLoadout.outOfRange. rewrite orb_false_iff. lia. Qed.

(** A slot of the vacated list holds a skill when it held that skill
    before and the skill does not have the id being equipped. *)
Lemma vacated_lookup {A} (hasId : A -> Prop) `{!forall x, Decision (hasId x)}
    (l : list (option A)) (j : nat) (s : A) :
  map (fun slot => match slot with
                   | Some x => if decide (hasId x) then None else Some x
                   | None => None
                   end) l !! j = Some (Some s)
  <-> l !! j = Some (Some s) /\ ~ hasId s.
Proof.
  rewrite lookup_map. destruct (l !! j) as [[x|]|]; simpl.
  - destruct (decide (hasId x)) as [Hx|Hx].
    + split; [discriminate|]. intros [Heq Hs]. inversion Heq; subst.
      contradiction.
    + split.
      * intros Heq. inversion Heq; subst. by split.
      * by intros [Heq _].
  - split; [discriminate | intros [Heq _]; discriminate].
  - split; [discriminate | intros [Heq _]; discriminate].
Qed.

(** [equipSkill] either fails and changes nothing (slot index out of
    range, or unknown id), or puts the skill into the requested slot,
    empties every other slot that held a skill of that id, and leaves the
    remaining slots as they were. *)
Theorem equipSkill_no_duplicates
    (skillId : string) (slotIndex : Z) (h : Heap) (m : SkillLoadout.t) :
  length (SkillLoadout.slots m) = Z.to_nat (SkillLoadout.maxSlots m) ->
  let out := SkillLoadout.equipSkill skillId slotIndex h m in
  let slots' := SkillLoadout.slots (snd out) in
  let i := Z.to_nat slotIndex in
  if fst out then
    (0 <= slotIndex < SkillLoadout.maxSlots m)%Z
    /\ (exists sk, SkillLoadout.registry m !! skillId = Some sk
                   /\ slots' !! i = Some (Some sk))
    /\ (forall j s, slots' !! j = Some (Some s) ->
                    skill_id (skill h s) = skillId -> j = i)
    /\ (forall j s, j <> i -> skill_id (skill h s) <> skillId ->
                    (slots' !! j = Some (Some s)
                     <-> SkillLoadout.slots m !! j = Some (Some s)))
    /\ length slots' = length (SkillLoadout.slots m)
    /\ SkillLoadout.maxSlots (snd out) = SkillLoadout.maxSlots m
  else
    snd out = m
    /\ ((slotIndex < 0)%Z \/ (SkillLoadout.maxSlots m <= slotIndex)%Z
        \/ SkillLoadout.registry m !! skillId = None).
Proof.
  intros Hlen. cbv zeta. unfold SkillLoadout.equipSkill.
  destruct (SkillLoadout.outOfRange slotIndex m) eqn:Hr.
  { simpl. split; [reflexivity|].
    unfold SkillLoadout.outOfRange in Hr. apply orb_true_iff in Hr. lia. }
  apply outOfRange_false_iff in Hr.
  destruct (SkillLoadout.registry m !! skillId) as [sk|] eqn:Hsk;
    [|simpl; split; [reflexivity | by right; right]].
  cbn [fst snd SkillLoadout.slots SkillLoadout.maxSlots].
  unfold SkillManager.Slots in *.
  pose proof (vacated_lookup (fun s => skill_id (skill h s) = skillId)
                (SkillLoadout.slots m)) as Hvac.
  cbv beta in Hvac.
  set (vac := map _ (SkillLoadout.slots m)) in *.
  assert (Hvl : length vac = length (SkillLoadout.slots m))
    by (unfold vac; apply length_map).
  assert (Hi : (Z.to_nat slotIndex < length vac)%nat) by lia.
  split; [exact Hr|]. split.
  { exists sk. split; [reflexivity|]. by apply list_lookup_insert_eq. }
  split.
  { intros j s Hj Hid.
    destruct (decide (j = Z.to_nat slotIndex)) as [->|Hne]; [reflexivity|].
    rewrite list_lookup_insert_ne in Hj by congruence.
    apply Hvac in Hj. destruct Hj as [_ Hj]. contradiction. }
  split.
  { intros j s Hne Hid.
    rewrite list_lookup_insert_ne by congruence.
    rewrite Hvac. split; [by intros [H _] | by intros H]. }
  split; [by rewrite length_insert|reflexivity].
Qed.

(** "Power Strike" is moved from the first slot to the third. *)
Lemma equipSkill_no_duplicates_witness :
  let out :=
    SkillLoadout.equipSkill "power-strike" 2 Examples.skillHeap
      Examples.skillLoadout in
  SkillLoadout.slots (snd out) = [None; Some 0%nat; Some 1%nat; None]
  /\ forall j s,
       SkillLoadout.slots (snd out) !! j = Some (Some s) ->
       skill_id (skill Examples.skillHeap s) = "power-strike"%string ->
       j = 2%nat.
Proof.
  cbv zeta. split; [vm_compute; reflexivity|].
  pose proof (equipSkill_no_duplicates "power-strike" 2 Examples.skillHeap
                Examples.skillLoadout) as H.
  cbv zeta in H.
  assert (Hfst : fst (SkillLoadout.equipSkill "power-strike" 2
                        Examples.skillHeap Examples.skillLoadout) = true)
    by (vm_compute; reflexivity).
  rewrite Hfst in H.
  destruct H as (_ & _ & Hnodup & _).
  - vm_compute. reflexivity.
  - exact Hnodup.
Defined.

(** ** Cooldowns and available skills *)

Lemma updateCooldowns_ents slots h :
  ents (SkillManager.updateCooldowns slots h) = ents h.
Proof.
  unfold SkillManager.updateCooldowns. revert h.
  induction slots as [|[sk|] slots IH]; intros h; simpl; [reflexivity| |apply IH].
  rewrite IH. by destruct (Num.ltb _ _).
Qed.

Lemma updateCooldowns_unequipped slots h sk :
  Some sk ∉ slots ->
  skill (SkillManager.updateCooldowns slots h) sk = skill h sk.
Proof.
  unfold SkillManager.updateCooldowns. revert h.
  induction slots as [|[s|] slots IH]; intros h Hnin; simpl; [reflexivity| |].
  - apply not_elem_of_cons in Hnin. destruct Hnin as [Hne Hnin].
    rewrite IH by exact Hnin.
    destruct (Num.ltb _ _); [|reflexivity].
    apply skill_update_skill_ne. congruence.
  - apply not_elem_of_cons in Hnin. destruct Hnin as [_ Hnin]. by apply IH.
Qed.

Lemma updateCooldowns_step (slots : SkillManager.Slots) (h : Heap) (sk : nat) :
  NoDup (omap id slots) ->
  skill (SkillManager.updateCooldowns slots h) sk
  = (if bool_decide (Some sk ∈ slots)
        && Num.ltb 0 (currentCooldown (skill h sk))
     then set_currentCooldown (currentCooldown (skill h sk) - 1) (skill h sk)
     else skill h sk).
Proof.
  intros Hnd.
  unfold SkillManager.Slots in *. revert h Hnd.
  induction slots as [|[s|] slots IH]; intros h Hnd.
  - reflexivity.
  - simpl in Hnd. apply NoDup_cons in Hnd. destruct Hnd as [Hs Hnd].
    assert (Hs' : Some s ∉ slots).
    { intros Hin. apply Hs. apply list_elem_of_omap. by exists (Some s). }
    change (SkillManager.updateCooldowns (Some s :: slots) h) with
      (SkillManager.updateCooldowns slots
         (if Num.ltb 0 (currentCooldown (skill h s)) then
            update_skill s
              (fun x => set_currentCooldown (currentCooldown x - 1) x) h
          else h)).
    destruct (decide (s = sk)) as [->|Hne].
    + rewrite updateCooldowns_unequipped by exact Hs'.
      rewrite bool_decide_eq_true_2 by (by left). simpl.
      destruct (Num.ltb 0 (currentCooldown (skill h sk))); [|reflexivity].
      by rewrite skill_update_skill_eq.
    + rewrite IH by exact Hnd.
      assert (Hsame :
        skill (if Num.ltb 0 (currentCooldown (skill h s)) then
                 update_skill s
                   (fun x => set_currentCooldown (currentCooldown x - 1) x) h
               else h) sk = skill h sk).
      { destruct (Num.ltb _ _); [|reflexivity].
        by apply skill_update_skill_ne. }
      rewrite Hsame.
      destruct (decide (Some sk ∈ slots)) as [Hin|Hnin].
      * rewrite !bool_decide_eq_true_2; [reflexivity | by right | exact Hin].
      * rewrite !bool_decide_eq_false_2; [reflexivity | | exact Hnin].
        rewrite elem_of_cons. intros [Heq|Hin]; [congruence | contradiction].
  - simpl in Hnd.
    change (SkillManager.updateCooldowns (None :: slots) h) with
      (SkillManager.updateCooldowns slots h).
    rewrite IH by exact Hnd.
    destruct (decide (Some sk ∈ slots)) as [Hin|Hnin].
    + rewrite !bool_decide_eq_true_2; [reflexivity | by right | exact Hin].
    + rewrite !bool_decide_eq_false_2; [reflexivity | | exact Hnin].
      rewrite elem_of_cons. intros [Heq|Hin]; [discriminate | contradiction].
Qed.

(** [updateCooldowns] lowers by 1 the live cooldown of every equipped skill
    whose cooldown is positive; it leaves the other skills and all
    entities as they are.  Each skill sits in at most one slot. *)
Theorem updateCooldowns_decrements (slots : SkillManager.Slots) (h : Heap)
    (sk : nat) :
  NoDup (omap id slots) ->
  skill (SkillManager.updateCooldowns slots h) sk
  = (if bool_decide (Some sk ∈ slots)
        && Num.ltb 0 (currentCooldown (skill h sk))
     then set_currentCooldown (currentCooldown (skill h sk) - 1) (skill h sk)
     else skill h sk)
  /\ ents (SkillManager.updateCooldowns slots h) = ents h.
Proof.
  intros Hnd. split; [by apply updateCooldowns_step | apply updateCooldowns_ents].
Qed.

Lemma updateCooldowns_decrements_witness :
  let h := snd (SkillManager.executeSkill Examples.skillHeap 1 0 [1%nat]) in
  currentCooldown
    (skill (SkillManager.updateCooldowns [Some 1%nat; Some 0%nat; None; None] h) 1)
  == 2
  /\ currentCooldown
       (skill (SkillManager.updateCooldowns [Some 1%nat; Some 0%nat; None; None] h) 0)
     == 0.
Proof.
  cbv zeta.
  match goal with
  | |- currentCooldown (skill (SkillManager.updateCooldowns ?s ?h) _) == _ /\ _ =>
      pose proof (updateCooldowns_decrements s h 1%nat) as [H1 _];
        [apply (bool_decide_unpack _); vm_compute; exact I|];
      pose proof (updateCooldowns_decrements s h 0%nat) as [H0 _];
        [apply (bool_decide_unpack _); vm_compute; exact I|]
  end.
  rewrite H1, H0. split; vm_compute; reflexivity.
Defined.

Lemma ltb_proper a a' b b' : a == a' -> b == b' -> Num.ltb a b = Num.ltb a' b'.
Proof.
  intros Ha Hb. destruct (Num.ltb a' b') eqn:E.
  - apply Num_ltb_lt. apply Num_ltb_lt in E. lra.
  - apply Num_ltb_ge. apply Num_ltb_ge in E. lra.
Qed.

Lemma countdown (slots : SkillManager.Slots) (h : Heap) (sk n k : nat) :
  NoDup (omap id slots) ->
  Some sk ∈ slots ->
  currentCooldown (skill h sk) == inject_Z (Z.of_nat n) ->
  currentCooldown
    (skill (Nat.iter k (SkillManager.updateCooldowns slots) h) sk)
  == inject_Z (Z.of_nat (n - k)).
Proof.
  intros Hnd Hin Hcd. induction k as [|k IH].
  - simpl. by rewrite Nat.sub_0_r.
  - cbn [Nat.iter nat_rect].
    change (nat_rect _ h _ k)
      with (Nat.iter k (SkillManager.updateCooldowns slots) h) in *.
    set (hk := Nat.iter k (SkillManager.updateCooldowns slots) h) in *.
    rewrite (updateCooldowns_step slots hk sk Hnd).
    rewrite bool_decide_eq_true_2 by exact Hin. cbn [andb].
    rewrite (ltb_proper 0 0 _ (inject_Z (Z.of_nat (n - k)))
               (Qeq_refl 0) IH).
    destruct (decide (n - k = 0)%nat) as [Hz|Hnz].
    + rewrite Hz in *. replace (n - S k)%nat with 0%nat by lia.
      change (Num.ltb 0 (inject_Z (Z.of_nat 0))) with false. cbv iota.
      exact IH.
    + assert (Hpos : Num.ltb 0 (inject_Z (Z.of_nat (n - k))) = true).
      { apply Num_ltb_lt. change 0 with (inject_Z 0). rewrite <- Zlt_Qlt. lia. }
      rewrite Hpos. cbn [currentCooldown set_currentCooldown].
      rewrite IH.
      replace (Z.of_nat (n - S k)) with (Z.of_nat (n - k) + -1)%Z by lia.
      rewrite inject_Z_plus. reflexivity.
Qed.

(** A skill in a slot whose live cooldown is a whole number [n] has a live
    cooldown of [n - k], floored at 0, after [k] calls of
    [updateCooldowns]. *)
Theorem cooldown_counts_down (slots : SkillManager.Slots) (h : Heap)
    (sk n k : nat) :
  NoDup (omap id slots) ->
  Some sk ∈ slots ->
  currentCooldown (skill h sk) == inject_Z (Z.of_nat n) ->
  currentCooldown
    (skill (Nat.iter k (SkillManager.updateCooldowns slots) h) sk)
  == inject_Z (Z.of_nat (n - k)).
Proof. apply countdown. Qed.

(** "Power Strike" (cooldown 3) after it has been used: two rounds later
    one round is left, three rounds later none. *)
Lemma cooldown_counts_down_witness :
  let slots := [Some 1%nat; Some 0%nat; None; None] in
  let h := snd (SkillManager.executeSkill Examples.skillHeap 1 0 [1%nat]) in
  currentCooldown (skill (Nat.iter 2 (SkillManager.updateCooldowns slots) h) 1)
  == inject_Z (Z.of_nat (3 - 2)).
Proof.
  cbv zeta. apply cooldown_counts_down.
  - apply (bool_decide_unpack _). vm_compute. exact I.
  - by left.
  - vm_compute. reflexivity.
Defined.

(** ** Availability *)

Lemma getAvailableSkills_elem (slots : SkillManager.Slots) (h : Heap)
    (source sk : nat) :
  sk ∈ SkillManager.getAvailableSkills slots h source
  <-> Some sk ∈ slots
      /\ currentCooldown (skill h sk) == 0
      /\ energyCost (skill h sk) <= currentEnergy (stats (entity h source)).
Proof.
  unfold SkillManager.getAvailableSkills.
  rewrite list_elem_of_omap. split.
  - intros (x & Hx & Hid). simpl in Hid. subst x.
    apply list_elem_of_In, filter_In in Hx. destruct Hx as [Hx Hok].
    apply filter_In in Hx. destruct Hx as [Hx _].
    apply andb_true_iff in Hok. destruct Hok as [Hcd Hen].
    split; [by apply list_elem_of_In|].
    split; [by apply Qeq_bool_iff | by apply Num_leb_le].
  - intros (Hin & Hcd & Hen). exists (Some sk). split; [|reflexivity].
    apply list_elem_of_In, filter_In. split.
    + apply filter_In. split; [by apply list_elem_of_In|].
      by apply bool_decide_eq_true_2.
    + apply andb_true_iff. split;
        [by apply Qeq_bool_iff | by apply Num_leb_le].
Qed.

(** The skills that [getAvailableSkills] returns are the equipped skills
    that are off cooldown and that the source can pay, and each of them
    is executed successfully by that source. *)
Theorem available_skills_execute (slots : SkillManager.Slots) (h : Heap)
    (source : nat) :
  (forall sk,
     sk ∈ SkillManager.getAvailableSkills slots h source
     <-> Some sk ∈ slots
         /\ currentCooldown (skill h sk) == 0
         /\ energyCost (skill h sk) <= currentEnergy (stats (entity h source)))
  /\ (forall sk targets,
        sk ∈ SkillManager.getAvailableSkills slots h source ->
        success (fst (SkillManager.executeSkill h sk source targets)) = true).
Proof.
  split; [apply getAvailableSkills_elem|].
  intros sk targets Hin. apply getAvailableSkills_elem in Hin.
  destruct Hin as (_ & Hcd & Hen).
  unfold SkillManager.executeSkill.
  assert (H1 : Num.ltb 0 (currentCooldown (skill h sk)) = false)
    by (apply Num_ltb_ge; lra).
  assert (H2 : Num.ltb (currentEnergy (stats (entity h source)))
                       (energyCost (skill h sk)) = false)
    by (by apply Num_ltb_ge).
  by rewrite H1, H2.
Qed.

(** ** Equipping and levelling passives *)

Lemma passive_outOfRange_false_iff slotIndex m :
  PassiveLoadout.outOfRange slotIndex m = false
  <-> (0 <= slotIndex < PassiveLoadout.maxSlots m)%Z.
Proof. unfold PassiveLoadout.outOfRange. rewrite orb_false_iff. lia. Qed.

(** [equipPassive] either fails and changes nothing (slot index out of
    range, or unknown id), or puts the passive into the requested slot,
    empties every other slot that held a passive of that id, and leaves
    the remaining slots as they were. *)
Theorem equipPassive_no_duplicates
    (passiveId : string) (slotIndex : Z) (m : PassiveLoadout.t) :
  length (PassiveLoadout.slots m) = Z.to_nat (PassiveLoadout.maxSlots m) ->
  let out := PassiveLoadout.equipPassive passiveId slotIndex m in
  let slots' := PassiveLoadout.slots (snd out) in
  let i := Z.to_nat slotIndex in
  if fst out then
    (0 <= slotIndex < PassiveLoadout.maxSlots m)%Z
    /\ is_Some (PassiveLoadout.passives m !! passiveId)
    /\ slots' !! i = Some (Some passiveId)
    /\ (forall j key, slots' !! j = Some (Some key) ->
                      passive_id (PassiveLoadout.passiveAt m key) = passiveId ->
                      j = i)
    /\ (forall j key, j <> i ->
                      passive_id (PassiveLoadout.passiveAt m key) <> passiveId ->
                      (slots' !! j = Some (Some key)
                       <-> PassiveLoadout.slots m !! j = Some (Some key)))
    /\ length slots' = length (PassiveLoadout.slots m)
    /\ PassiveLoadout.passives (snd out) = PassiveLoadout.passives m
  else
    snd out = m
    /\ ((slotIndex < 0)%Z \/ (PassiveLoadout.maxSlots m <= slotIndex)%Z
        \/ PassiveLoadout.passives m !! passiveId = None).
Proof.
  intros Hlen. cbv zeta. unfold PassiveLoadout.equipPassive.
  destruct (PassiveLoadout.outOfRange slotIndex m) eqn:Hr.
  { simpl. split; [reflexivity|].
    unfold PassiveLoadout.outOfRange in Hr. apply orb_true_iff in Hr. lia. }
  apply passive_outOfRange_false_iff in Hr.
  destruct (PassiveLoadout.passives m !! passiveId) as [p|] eqn:Hp;
    [|simpl; split; [reflexivity | by right; right]].
  cbn [fst snd PassiveLoadout.slots PassiveLoadout.passives].
  pose proof (vacated_lookup
                (fun key => passive_id (PassiveLoadout.passiveAt m key) = passiveId)
                (PassiveLoadout.slots m)) as Hvac.
  cbv beta in Hvac.
  set (vac := map _ (PassiveLoadout.slots m)) in *.
  assert (Hvl : length vac = length (PassiveLoadout.slots m))
    by (unfold vac; apply length_map).
  assert (Hi : (Z.to_nat slotIndex < length vac)%nat) by lia.
  split; [exact Hr|]. split; [by eexists|].
  split; [by apply list_lookup_insert_eq|].
  split.
  { intros j key Hj Hid.
    destruct (decide (j = Z.to_nat slotIndex)) as [->|Hne]; [reflexivity|].
    rewrite list_lookup_insert_ne in Hj by congruence.
    apply Hvac in Hj. destruct Hj as [_ Hj]. contradiction. }
  split.
  { intros j key Hne Hid.
    rewrite list_lookup_insert_ne by congruence.
    rewrite Hvac. split; [by intros [H _] | by intros H]. }
  split; [by rewrite length_insert|reflexivity].
Qed.

(** "Life Steal" is moved from the first slot to the second. *)
Lemma equipPassive_no_duplicates_witness :
  let out := PassiveLoadout.equipPassive "life-steal" 1 Examples.passiveLoadout in
  PassiveLoadout.slots (snd out)
  = [None; Some "life-steal"%string; Some "toughness"%string]
  /\ forall j key,
       PassiveLoadout.slots (snd out) !! j = Some (Some key) ->
       passive_id (PassiveLoadout.passiveAt Examples.passiveLoadout key)
       = "life-steal"%string ->
       j = 1%nat.
Proof.
  cbv zeta. split; [vm_compute; reflexivity|].
  pose proof (equipPassive_no_duplicates "life-steal" 1 Examples.passiveLoadout)
    as H.
  cbv zeta in H.
  assert (Hfst : fst (PassiveLoadout.equipPassive "life-steal" 1
                        Examples.passiveLoadout) = true)
    by (vm_compute; reflexivity).
  rewrite Hfst in H.
  destruct H as (_ & _ & _ & Hnodup & _); [vm_compute; reflexivity|].
  exact Hnodup.
Defined.


(** ** Triggering passives *)

Lemma everyChance_rng effects r :
  draws (snd (PassiveManager.everyChance effects r)) = draws r
  /\ (drawn r <= drawn (snd (PassiveManager.everyChance effects r)))%nat.
Proof.
  revert r. induction effects as [|e es IH]; intros r; simpl; [by split|].
  destruct (pe_chance e) as [c|]; [|apply IH].
  destruct (Num.truthy c); [|apply IH].
  destruct (Num.ltb (draws r (drawn r)) c).
  - destruct (IH (mkRandom (draws r) (S (drawn r)))) as [H1 H2].
    simpl in *. split; [exact H1 | lia].
  - simpl. split; [reflexivity | lia].
Qed.

Lemma rollPassive_rng passive r :
  draws (snd (PassiveManager.rollPassive passive r)) = draws r
  /\ (drawn r <= drawn (snd (PassiveManager.rollPassive passive r)))%nat.
Proof.
  unfold PassiveManager.rollPassive.
  destruct (decide _); [by split | apply everyChance_rng].
Qed.

Lemma everyChance_chanceless effects r :
  Forall chanceless effects ->
  PassiveManager.everyChance effects r = (true, r).
Proof.
  induction 1 as [|e es He Hes IH]; [reflexivity|]. simpl.
  unfold chanceless in He. destruct (pe_chance e) as [c|]; [|exact IH].
  unfold Num.truthy. apply Qeq_bool_iff in He. rewrite He. exact IH.
Qed.

Lemma rollPassive_certain p r :
  trigger p = PassiveTrigger.PERMANENT
  \/ Forall chanceless (passive_effects p) ->
  PassiveManager.rollPassive p r = (true, r).
Proof.
  intros H. unfold PassiveManager.rollPassive.
  destruct (decide _) as [|Hne]; [reflexivity|].
  destruct H as [H|H]; [contradiction | by apply everyChance_chanceless].
Qed.

(** The results of [checkTrigger] are results of equipped passives of the
    requested trigger, in the order of the slots and at most one for each
    slot: the passives of the results are a sublist of the equipped
    passives of that trigger.  Each result holds one value per effect of
    its passive, in the order of the effects.  A passive of the trigger
    that is permanent or has no effect with a chance is never left out.
    The call only consumes random numbers. *)
Theorem checkTrigger_sound (slots : PassiveManager.Slots) (h : Heap)
    (tr : PassiveTrigger.t) (source : nat) (target : option nat)
    (v : option Q) (r : Random) :
  let out := PassiveManager.checkTrigger slots h tr source target v r in
  let matching :=
    List.filter (fun p => bool_decide (trigger p = tr))
                (PassiveManager.getActivePassives slots) in
  (forall res, res ∈ fst out ->
     Some (pr_passive res) ∈ slots
     /\ trigger (pr_passive res) = tr
     /\ triggered res = true
     /\ pr_source res = source /\ pr_target res = target
     /\ pr_effects res
        = map (fun e => (pe_type e,
                         PassiveManager.calculatePassiveEffect (pe_value e)
                           (entity h source) v))
              (passive_effects (pr_passive res)))
  /\ sublist (map pr_passive (fst out)) matching
  /\ (forall p, Some p ∈ slots -> trigger p = tr ->
        tr = PassiveTrigger.PERMANENT
        \/ Forall chanceless (passive_effects p) ->
        p ∈ map pr_passive (fst out))
  /\ (length (fst out) <= length matching)%nat
  /\ draws (snd out) = draws r
  /\ (drawn r <= drawn (snd out))%nat.
Proof.
  cbv zeta. unfold PassiveManager.Slots in *. revert r.
  induction slots as [|[p|] slots IH]; intros r.
  - simpl. split; [intros res Hin; by apply elem_of_nil in Hin|].
    split; [constructor|].
    split; [intros p Hin; by apply elem_of_nil in Hin|].
    split; [lia|]. by split.
  - cbn [PassiveManager.checkTrigger].
    change (PassiveManager.getActivePassives (Some p :: slots))
      with (p :: PassiveManager.getActivePassives slots).
    cbn [List.filter].
    destruct (decide (trigger p = tr)) as [Htr|Htr].
    + rewrite bool_decide_eq_true_2 by exact Htr.
      destruct (PassiveManager.rollPassive p r) as [ok r1] eqn:Hroll.
      pose proof (rollPassive_rng p r) as [Hd1 Hn1]. rewrite Hroll in Hd1, Hn1.
      simpl in Hd1, Hn1.
      specialize (IH r1).
      destruct (PassiveManager.checkTrigger slots h tr source target v r1)
        as [results r2].
      cbn [fst snd] in IH.
      destruct IH as (IHres & IHsub & IHall & IHlen & IHd & IHn).
      destruct ok; cbn [fst snd].
      * split.
        { intros res Hin. apply elem_of_cons in Hin.
          destruct Hin as [->|Hin].
          - simpl. split; [by left|]. by repeat split.
          - destruct (IHres res Hin) as (H1 & H2).
            split; [by right | exact H2]. }
        split; [cbn [map pr_passive]; by apply sublist_skip|].
        split.
        { intros q Hq Hqt Hc. cbn [map pr_passive].
          apply elem_of_cons in Hq. destruct Hq as [Hq|Hq].
          - inversion Hq; subst q. by left.
          - right. by apply IHall. }
        split; [simpl; lia|]. split; [congruence | lia].
      * split.
        { intros res Hin. destruct (IHres res Hin) as (H1 & H2).
          split; [by right | exact H2]. }
        split; [by apply sublist_cons|].
        split.
        { intros q Hq Hqt Hc.
          apply elem_of_cons in Hq. destruct Hq as [Hq|Hq].
          - inversion Hq; subst q.
            assert (Hcert : PassiveManager.rollPassive p r = (true, r)).
            { apply rollPassive_certain. destruct Hc as [Hc|Hc]; [|by right].
              left. congruence. }
            rewrite Hcert in Hroll. discriminate.
          - by apply IHall. }
        split; [simpl; lia|]. split; [congruence | lia].
    + rewrite bool_decide_eq_false_2 by exact Htr.
      destruct (IH r) as (IHres & IHsub & IHall & IHlen & IHd & IHn).
      split.
      { intros res Hin. destruct (IHres res Hin) as (H1 & H2).
        split; [by right | exact H2]. }
      split; [exact IHsub|].
      split; [|by repeat split].
      intros q Hq Hqt Hc. apply elem_of_cons in Hq. destruct Hq as [Hq|Hq].
      * inversion Hq; subst q. contradiction.
      * by apply IHall.
  - cbn [PassiveManager.checkTrigger].
    change (PassiveManager.getActivePassives (None :: slots))
      with (PassiveManager.getActivePassives slots).
    destruct (IH r) as (IHres & IHsub & IHall & IHlen & IHd & IHn).
    split.
    { intros res Hin. destruct (IHres res Hin) as (H1 & H2).
      split; [by right | exact H2]. }
    split; [exact IHsub|].
    split; [|by repeat split].
    intros q Hq Hqt Hc. apply elem_of_cons in Hq. destruct Hq as [Hq|Hq];
      [discriminate | by apply IHall].
Qed.

(** When the equipped passives of the requested trigger are permanent or
    have no effect with a chance, [checkTrigger] returns one result for
    each of them, in the order of the slots, and draws no random number. *)
Theorem checkTrigger_without_chance (slots : PassiveManager.Slots) (h : Heap)
    (tr : PassiveTrigger.t) (source : nat) (target : option nat)
    (v : option Q) (r : Random) :
  (forall p, Some p ∈ slots -> trigger p = tr ->
             tr = PassiveTrigger.PERMANENT
             \/ Forall chanceless (passive_effects p)) ->
  let out := PassiveManager.checkTrigger slots h tr source target v r in
  map pr_passive (fst out)
  = List.filter (fun p => bool_decide (trigger p = tr))
                (PassiveManager.getActivePassives slots)
  /\ snd out = r.
Proof.
  cbv zeta. unfold PassiveManager.Slots in *.
  induction slots as [|[p|] slots IH]; intros Hfree.
  - by split.
  - cbn [PassiveManager.checkTrigger].
    change (PassiveManager.getActivePassives (Some p :: slots))
      with (p :: PassiveManager.getActivePassives slots).
    cbn [List.filter].
    assert (Hrest : forall q, Some q ∈ slots -> trigger q = tr ->
                      tr = PassiveTrigger.PERMANENT
                      \/ Forall chanceless (passive_effects q))
      by (intros q Hq; apply Hfree; by right).
    destruct (IH Hrest) as [IHres IHr].
    destruct (decide (trigger p = tr)) as [Htr|Htr].
    + rewrite bool_decide_eq_true_2 by exact Htr.
      assert (Hroll : PassiveManager.rollPassive p r = (true, r)).
      { unfold PassiveManager.rollPassive.
        destruct (decide (trigger p = PassiveTrigger.PERMANENT)) as [|Hnp];
          [reflexivity|].
        destruct (Hfree p) as [Hperm|Hch]; [by left | exact Htr | congruence|].
        by apply everyChance_chanceless. }
      rewrite Hroll.
      destruct (PassiveManager.checkTrigger slots h tr source target v r)
        as [results r2].
      cbn [fst snd] in *. subst r2. split; [|reflexivity].
      simpl. by rewrite IHres.
    + rewrite bool_decide_eq_false_2 by exact Htr. by split.
  - cbn [PassiveManager.checkTrigger].
    change (PassiveManager.getActivePassives (None :: slots))
      with (PassiveManager.getActivePassives slots).
    apply IH. intros q Hq. apply Hfree. by right.
Qed.

(** "Life Steal" has no chance: it is triggered by every attack. *)
Lemma checkTrigger_without_chance_witness :
  let w := Scenario.duelWithLifeSteal in
  let out :=
    PassiveManager.checkTrigger (passiveSlots w) (heap w)
      PassiveTrigger.ON_ATTACK 0 (Some 1%nat) (Some 10) (rng w) in
  map pr_passive (fst out) = [Scenario.lifeSteal] /\ snd out = rng w.
Proof.
  cbv zeta.
  pose proof (checkTrigger_without_chance
                (passiveSlots Scenario.duelWithLifeSteal)
                (heap Scenario.duelWithLifeSteal) PassiveTrigger.ON_ATTACK
                0 (Some 1%nat) (Some 10) (rng Scenario.duelWithLifeSteal)) as H.
  cbv zeta in H. destruct H as [H1 H2].
  - intros p Hp _. right.
    change (passiveSlots Scenario.duelWithLifeSteal)
      with [Some Scenario.lifeSteal; None; None] in Hp.
    apply elem_of_cons in Hp. destruct Hp as [Hp|Hp].
    + inversion Hp; subst. repeat constructor.
    + apply elem_of_cons in Hp. destruct Hp as [Hp|Hp]; [discriminate|].
      apply elem_of_cons in Hp. destruct Hp as [Hp|Hp]; [discriminate|].
      by apply elem_of_nil in Hp.
  - split; [rewrite H1; reflexivity | exact H2].
Defined.

(** ** Equipping gear *)

(** [equipGear] fails and changes nothing when the id is unknown or the
    item is made for another slot; otherwise it puts the item into the slot
    and leaves the other slots alone, and [unequipGear] of that slot then
    succeeds and empties it.  [unequipGear] of an empty slot fails and
    changes nothing. *)
Theorem equipGear_then_unequipGear
    (gearId : string) (sl : GearSlot.t) (m : GearLedger.t) :
  let out := GearLedger.equipGear gearId sl m in
  let m' := snd out in
  (if fst out then
     (exists item, GearLedger.gear m !! gearId = Some item /\ slot item = sl)
     /\ GearLedger.loadout m' sl = Some gearId
     /\ (forall s, s <> sl -> GearLedger.loadout m' s = GearLedger.loadout m s)
     /\ GearLedger.gear m' = GearLedger.gear m
     /\ fst (GearLedger.unequipGear sl m') = true
     /\ GearLedger.loadout (snd (GearLedger.unequipGear sl m')) sl = None
     /\ (forall s, s <> sl ->
           GearLedger.loadout (snd (GearLedger.unequipGear sl m')) s
           = GearLedger.loadout m s)
   else
     m' = m
     /\ (GearLedger.gear m !! gearId = None
         \/ exists item, GearLedger.gear m !! gearId = Some item
                         /\ slot item <> sl))
  /\ (GearLedger.loadout m sl = None ->
      GearLedger.unequipGear sl m = (false, m)).
Proof.
  cbv zeta. split.
  - unfold GearLedger.equipGear.
    destruct (GearLedger.gear m !! gearId) as [item|] eqn:Hitem;
      [|simpl; split; [reflexivity | by left]].
    destruct (decide (slot item = sl)) as [Hsl|Hsl];
      [|simpl; split; [reflexivity | right; by exists item]].
    cbn [fst snd GearLedger.loadout GearLedger.gear].
    unfold GearLedger.unequipGear, GearLedger.setSlot.
    cbn [GearLedger.loadout]. rewrite decide_True by reflexivity.
    cbn [fst snd GearLedger.loadout]. rewrite !decide_True by reflexivity.
    split; [by exists item|]. split; [reflexivity|].
    split; [intros s Hs; by rewrite decide_False|].
    split; [reflexivity|]. split; [reflexivity|]. split; [reflexivity|].
    intros s Hs. by rewrite !decide_False.
  - intros Hempty. unfold GearLedger.unequipGear. by rewrite Hempty.
Qed.

Lemma equipGear_then_unequipGear_witness :
  GearLedger.unequipGear GearSlot.HEAD Examples.gearLedger
  = (false, Examples.gearLedger).
Proof.
  apply (proj2 (equipGear_then_unequipGear "leather-helmet" GearSlot.HEAD
                  Examples.gearLedger)).
  reflexivity.
Defined.

(** [equipGear], [unequipGear] and [levelUpGear] keep the loadout
    consistent: an occupied slot holds a stored item made for that slot. *)
Theorem gear_slots_stay_consistent
    (gearId : string) (sl : GearSlot.t) (m : GearLedger.t) :
  slotsConsistent m ->
  slotsConsistent (snd (GearLedger.equipGear gearId sl m))
  /\ slotsConsistent (snd (GearLedger.unequipGear sl m))
  /\ slotsConsistent (snd (GearLedger.levelUpGear gearId m)).
Proof.
  intros Hc. split; [|split].
  - unfold GearLedger.equipGear.
    destruct (GearLedger.gear m !! gearId) as [item|] eqn:Hitem; [|exact Hc].
    destruct (decide (slot item = sl)) as [Hsl|Hsl]; [|exact Hc].
    intros s key. cbn [snd GearLedger.loadout GearLedger.gear].
    unfold GearLedger.setSlot. destruct (decide (s = sl)) as [->|Hne].
    + intros Hk. inversion Hk; subst. by exists item.
    + apply Hc.
  - unfold GearLedger.unequipGear.
    destruct (GearLedger.loadout m sl) as [k0|]; [|exact Hc].
    intros s key. cbn [snd GearLedger.loadout GearLedger.gear].
    unfold GearLedger.setSlot. destruct (decide (s = sl)) as [->|Hne];
      [discriminate | apply Hc].
  - unfold GearLedger.levelUpGear.
    destruct (GearLedger.gear m !! gearId) as [item|] eqn:Hitem; [|exact Hc].
    intros s key Hk. cbn [snd GearLedger.loadout GearLedger.gear] in *.
    destruct (Hc s key Hk) as (it & Hit & Hsl).
    destruct (decide (key = gearId)) as [->|Hne].
    + exists (GearLedger.levelUpItem item). rewrite lookup_insert_eq.
      split; [reflexivity|]. rewrite Hitem in Hit. by inversion Hit; subst.
    + exists it. by rewrite lookup_insert_ne.
Qed.

Lemma examples_gearLedger_consistent : slotsConsistent Examples.gearLedger.
Proof.
  intros sl key. destruct sl; simpl; try discriminate; intros H;
    inversion H; subst; eexists; (split; [vm_compute; reflexivity | reflexivity]).
Qed.

Lemma gear_slots_stay_consistent_witness :
  slotsConsistent
    (snd (GearLedger.equipGear "leather-helmet" GearSlot.HEAD Examples.gearLedger))
  /\ slotsConsistent
       (snd (GearLedger.levelUpGear "basic-sword" Examples.gearLedger)).
Proof.
  split.
  - apply (gear_slots_stay_consistent "leather-helmet" GearSlot.HEAD
             Examples.gearLedger examples_gearLedger_consistent).
  - apply (gear_slots_stay_consistent "basic-sword" GearSlot.HEAD
             Examples.gearLedger examples_gearLedger_consistent).
Defined.

(** ** Levelling gear *)

(** [levelUpGear] fails and changes nothing when the id is unknown;
    otherwise it raises the level of the stored item by 1 and replaces
    each of the five stats by [floor(stat * (1 + level * 0.1 * m))], where
    [level] is the new level, [m] the multiplier of the item's rarity (1,
    1.2, 1.5, 2 or 3) and every product and the sum are rounded to the
    nearest double; the id, name, slot, rarity and set of the item stay,
    the other items and the loadout are left alone, and a slot that holds
    the item shows the levelled item. *)
Theorem levelUpGear_spec (gearId : string) (m : GearLedger.t) :
  let out := GearLedger.levelUpGear gearId m in
  let m' := snd out in
  if fst out then
    exists item,
      GearLedger.gear m !! gearId = Some item
      /\ GearLedger.gear m' !! gearId = Some (GearLedger.levelUpItem item)
      /\ gear_level (GearLedger.levelUpItem item) = gear_level item + 1
      /\ statList (baseStats (GearLedger.levelUpItem item))
         = map (fun stat =>
                  Num.floor
                    (Double.mul stat
                       (Double.add 1
                          (Double.mul
                             (Double.mul (gear_level item + 1)
                                (Double.round (1 # 10)))
                             (GearLedger.getRarityMultiplier (rarity item))))))
               (statList (baseStats item))
      /\ (GearLedger.getRarityMultiplier (rarity item) ==
          match rarity item with
          | GearRarity.COMMON => 1
          | GearRarity.UNCOMMON => 5404319552844595 # 4503599627370496
          | GearRarity.RARE => 3 # 2
          | GearRarity.EPIC => 2
          | GearRarity.LEGENDARY => 3
          end)
      /\ gear_id (GearLedger.levelUpItem item) = gear_id item
      /\ gear_name (GearLedger.levelUpItem item) = gear_name item
      /\ rarity (GearLedger.levelUpItem item) = rarity item
      /\ slot (GearLedger.levelUpItem item) = slot item
      /\ setId (GearLedger.levelUpItem item) = setId item
      /\ (forall key, key <> gearId ->
            GearLedger.gear m' !! key = GearLedger.gear m !! key)
      /\ GearLedger.loadout m' = GearLedger.loadout m
      /\ (forall sl, GearLedger.loadout m sl = Some gearId ->
            GearManager.loadout (GearLedger.resolve m') sl
            = Some (GearLedger.levelUpItem item))
  else m' = m /\ GearLedger.gear m !! gearId = None.
Proof.
  cbv zeta. unfold GearLedger.levelUpGear.
  destruct (GearLedger.gear m !! gearId) as [item|] eqn:Hitem;
    [|by split].
  cbn [fst snd GearLedger.gear GearLedger.loadout].
  exists item. split; [reflexivity|]. split; [apply lookup_insert_eq|].
  split; [reflexivity|]. split; [reflexivity|].
  split; [destruct (rarity item); vm_compute; reflexivity|].
  split; [reflexivity|]. split; [reflexivity|]. split; [reflexivity|].
  split; [reflexivity|]. split; [reflexivity|].
  split; [intros key Hne; by apply lookup_insert_ne|].
  split; [reflexivity|].
  intros sl Hsl. unfold GearLedger.resolve.
  cbn [GearManager.loadout GearLedger.loadout]. rewrite Hsl. simpl.
  unfold GearLedger.itemAt. cbn [GearLedger.gear].
  by rewrite lookup_total_insert_eq.
Qed.

(** The values of the code where the rounding shows: an uncommon item
    with a stat of -25 reaches level 1 with [-25 * 1.1200000000000001 =
    -28.000000000000004], floored to -29; a common item with a stat of 45
    reaches level 4 with [45 * 1.4 = 62.99999999999999], floored to 62. *)
Lemma scaleStat_examples :
  GearLedger.scaleStat 1 (GearLedger.getRarityMultiplier GearRarity.UNCOMMON)
    (-25) == -29
  /\ GearLedger.scaleStat 4 (GearLedger.getRarityMultiplier GearRarity.COMMON)
       45 == 62
  /\ Num.floor (-25 * (1 + 1 * (1 # 10) * (6 # 5))) == -28
  /\ Num.floor (45 * (1 + 4 * (1 # 10) * 1)) == 63.
Proof. vm_compute. repeat split; reflexivity. Qed.

Lemma getRarityMultiplier_ge_1 r : 1 <= GearLedger.getRarityMultiplier r.
Proof. destruct r; vm_compute; discriminate. Qed.

(** The factor by which [levelUpGear] multiplies the stats is above 1,
    also after the roundings. *)
Lemma scaleFactor_bound lvl multiplier :
  1 <= lvl -> 1 <= multiplier ->
  107 # 100
  <= Double.add 1
       (Double.mul (Double.mul lvl (Double.round (1 # 10))) multiplier).
Proof.
  intros Hl Hm. unfold Double.add, Double.mul.
  assert (Hc : 99 # 1000 <= Double.round (1 # 10))
    by (vm_compute; discriminate).
  set (c := Double.round (1 # 10)) in *.
  assert (H1 : 99 # 1000 <= lvl * c) by nra.
  pose proof (Double_round_lower (lvl * c) ltac:(lra)) as H2.
  set (t1 := Double.round (lvl * c)) in *.
  assert (H3 : 9 # 100 <= t1 * multiplier) by nra.
  pose proof (Double_round_lower (t1 * multiplier) ltac:(lra)) as H4.
  set (t2 := Double.round (t1 * multiplier)) in *.
  pose proof (Double_round_lower (1 + t2) ltac:(lra)) as H5.
  lra.
Qed.

Lemma scaleStat_away_from_zero lvl multiplier v :
  1 <= lvl -> 1 <= multiplier -> whole v ->
  (0 <= v -> v <= GearLedger.scaleStat lvl multiplier v)
  /\ (v <= 0 -> GearLedger.scaleStat lvl multiplier v <= v).
Proof.
  intros Hl Hm [z Hz]. unfold GearLedger.scaleStat, Num.floor.
  pose proof (scaleFactor_bound lvl multiplier Hl Hm) as Hf.
  set (f := Double.add 1 _) in *. unfold Double.mul.
  destruct (Z.lt_trichotomy z 0) as [Hneg|[->|Hpos]].
  - assert (Hv : v <= -1).
    { rewrite Hz. change (-1) with (inject_Z (-1)). rewrite <- Zle_Qle. lia. }
    split; intros H0; [lra|].
    assert (Hx : v * f <= 0) by nra.
    pose proof (Double_round_upper (v * f) Hx) as Hr.
    apply Qle_trans with (1 := Qfloor_le _). nra.
  - assert (E : v * f == 0) by (rewrite Hz; ring).
    rewrite (Double_round_0 _ E). rewrite Hz. split; intros _; discriminate.
  - assert (Hv : 1 <= v).
    { rewrite Hz. change 1 with (inject_Z 1). rewrite <- Zle_Qle. lia. }
    split; intros H0; [|lra].
    assert (Hx : 0 <= v * f) by nra.
    pose proof (Double_round_lower (v * f) Hx) as Hr.
    rewrite Hz at 1. rewrite <- Zle_Qle. apply Qfloor_lower.
    rewrite <- Hz. nra.
Qed.

(** When the stats of an item are whole numbers and its level is not
    negative, levelling it up moves no stat towards zero: a stat that is
    not negative does not decrease, one that is not positive does not
    increase (so a stat of 0 stays 0). *)
Theorem levelUpItem_scales_away_from_zero (item : GearItem) :
  0 <= gear_level item ->
  Forall whole (statList (baseStats item)) ->
  Forall2 (fun old new => (0 <= old -> old <= new) /\ (old <= 0 -> new <= old))
          (statList (baseStats item))
          (statList (baseStats (GearLedger.levelUpItem item))).
Proof.
  intros Hlvl Hwhole. unfold statList in *.
  cbn [GearLedger.levelUpItem baseStats g_attack g_defense g_health g_speed
       g_energy].
  assert (Hl : 1 <= gear_level item + 1) by lra.
  pose proof (getRarityMultiplier_ge_1 (rarity item)) as Hm.
  repeat match goal with
         | H : Forall _ (_ :: _) |- _ =>
             apply Forall_cons in H; destruct H as [? H]
         end.
  repeat constructor; by apply scaleStat_away_from_zero.
Qed.

(** The shield: defense 10 grows, speed -1 falls, attack 0 stays. *)
Lemma levelUpItem_scales_away_from_zero_witness :
  Forall2 (fun old new => (0 <= old -> old <= new) /\ (old <= 0 -> new <= old))
          (statList (baseStats Armoury.basicShield))
          (statList (baseStats (GearLedger.levelUpItem Armoury.basicShield)))
  /\ statList (baseStats (GearLedger.levelUpItem Armoury.basicShield))
     = [0; 12; 24; -2; 0].
Proof.
  split; [|vm_compute; reflexivity].
  apply levelUpItem_scales_away_from_zero.
  - vm_compute. discriminate.
  - repeat constructor.
    + by exists 0%Z.
    + by exists 10%Z.
    + by exists 20%Z.
    + by exists (-1)%Z.
    + by exists 0%Z.
Defined.

(** ** Set bonuses below the first threshold *)

Lemma fold_left_unchanged {S X} (f : S -> X -> S) (l : list X) (a : S) :
  (forall x acc, x ∈ l -> f acc x = acc) -> fold_left f l a = a.
Proof.
  revert a. induction l as [|x l IH]; intros a Hf; [reflexivity|]. simpl.
  rewrite Hf by (by left). apply IH. intros y acc Hy. apply Hf. by right.
Qed.

Lemma filter_none {X} (f : X -> bool) (l : list X) :
  (forall x, x ∈ l -> f x = false) -> List.filter f l = [].
Proof.
  induction l as [|x l IH]; intros Hf; [reflexivity|]. simpl.
  rewrite Hf by (by left). apply IH. intros y Hy. apply Hf. by right.
Qed.

(** When, for every set id among the equipped items, the set is not
    registered or the number of equipped pieces is below each of its
    thresholds, no set bonus is active and the total stats are the summed
    stats of the items. *)
Theorem no_threshold_reached_no_bonus (g : GearManager.t) :
  let ids := SetBonusSpec.equippedSetIds (GearManager.loadout g) in
  (forall sid s tier,
     sid ∈ ids -> GearManager.gearSets g !! sid = Some s ->
     tier ∈ bonuses s ->
     SetBonusSpec.pieceCount sid ids < pieces tier) ->
  GearManager.calculateSetBonuses g = GearManager.zeroStats
  /\ GearManager.getActiveSetBonuses g = []
  /\ total_stats (GearManager.calculateTotalStats g)
     = GearManager.addStats (GearManager.sumBaseStats (GearManager.loadout g))
                            GearManager.zeroStats.
Proof.
  cbv zeta. intros Hlow.
  set (ids := SetBonusSpec.equippedSetIds (GearManager.loadout g)) in *.
  destruct (tally_spec ids) as (_ & Hmem & Htally).
  assert (Hnone : forall sid s,
            sid ∈ SetBonusSpec.distinctIds ids ->
            GearManager.gearSets g !! sid = Some s ->
            GearManager.activeTiers (SetBonusSpec.pieceCount sid ids) s = []).
  { intros sid s Hsid Hs. unfold GearManager.activeTiers.
    apply filter_none. intros tier Htier. apply Num_leb_gt.
    apply (Hlow sid s tier); [by apply Hmem | exact Hs | exact Htier]. }
  assert (Hsets : GearManager.calculateSetBonuses g = GearManager.zeroStats).
  { unfold GearManager.calculateSetBonuses.
    rewrite countSetPieces_bump. fold ids. rewrite Htally.
    rewrite (fold_left_tabulate
               (fun acc sid count =>
                  match GearManager.gearSets g !! sid with
                  | Some s =>
                      fold_left GearManager.addStats
                        (map bonus_stats (GearManager.activeTiers count s)) acc
                  | None => acc
                  end)).
    apply fold_left_unchanged. intros sid acc Hsid.
    destruct (GearManager.gearSets g !! sid) as [s|] eqn:Hs; [|reflexivity].
    by rewrite (Hnone sid s Hsid Hs). }
  split; [exact Hsets|]. split.
  - unfold GearManager.getActiveSetBonuses.
    rewrite countSetPieces_bump. fold ids. rewrite Htally.
    rewrite (fold_left_tabulate
               (fun acc sid count =>
                  match GearManager.gearSets g !! sid with
                  | Some s =>
                      match map pieces (GearManager.activeTiers count s) with
                      | [] => acc
                      | _ :: _ =>
                          acc ++ [mkActiveSetBonus sid
                                    (map pieces (GearManager.activeTiers count s))]
                      end
                  | None => acc
                  end)).
    apply fold_left_unchanged. intros sid acc Hsid.
    destruct (GearManager.gearSets g !! sid) as [s|] eqn:Hs; [|reflexivity].
    by rewrite (Hnone sid s Hsid Hs).
  - unfold GearManager.calculateTotalStats. simpl. by rewrite Hsets.
Qed.

(** One piece of the warrior set: no bonus. *)
Lemma no_threshold_reached_no_bonus_witness :
  GearManager.calculateSetBonuses (Armoury.wearing [Armoury.basicSword])
  = GearManager.zeroStats
  /\ GearManager.getActiveSetBonuses (Armoury.wearing [Armoury.basicSword]) = [].
Proof.
  pose proof (no_threshold_reached_no_bonus
                (Armoury.wearing [Armoury.basicSword])) as H.
  cbv zeta in H. destruct H as (H1 & H2 & _); [|by split].
  change (SetBonusSpec.equippedSetIds
            (GearManager.loadout (Armoury.wearing [Armoury.basicSword])))
    with ["warrior"%string].
  intros sid s tier Hsid Hs Htier.
  apply list_elem_of_singleton in Hsid. subst sid.
  change (GearManager.gearSets (Armoury.wearing [Armoury.basicSword])
            !! "warrior"%string) with (Some Armoury.warriorSet) in Hs.
  inversion Hs; subst s.
  change (bonuses Armoury.warriorSet)
    with [mkGearSetBonus 2 Armoury.twoPieces;
          mkGearSetBonus 4 Armoury.fourPieces] in Htier.
  apply elem_of_cons in Htier. destruct Htier as [->|Htier];
    [vm_compute; reflexivity|].
  apply list_elem_of_singleton in Htier. subst tier. vm_compute. reflexivity.
Defined.

(** ** Applying gear more than once *)

(** As [q_bounds], for nested minima and maxima. *)
Ltac q_bounds_nested :=
  repeat match goal with
         | |- context [Qmax ?a ?b] =>
             pose proof (Q.max_spec a b);
             generalize dependent (Qmax a b); intros
         | |- context [Qmin ?a ?b] =>
             pose proof (Q.min_spec a b);
             generalize dependent (Qmin a b); intros
         | H : context [Qmax ?a ?b] |- _ =>
             pose proof (Q.max_spec a b);
             generalize dependent (Qmax a b); intros
         | H : context [Qmin ?a ?b] |- _ =>
             pose proof (Q.min_spec a b);
             generalize dependent (Qmin a b); intros
         end;
  lra.

(** [applyGearStats] is not idempotent: a second application adds the
    totals of the gear a second time, to the maximal and to the current
    health and energy as well. *)
Theorem applyGearStats_twice (g : GearManager.t) (s : CombatStats) :
  let t := total_stats (GearManager.calculateTotalStats g) in
  let s2 := GearManager.applyGearStats g (GearManager.applyGearStats g s) in
  attack s2 == attack s + 2 * g_attack t
  /\ defense s2 == defense s + 2 * g_defense t
  /\ speed s2 == speed s + 2 * g_speed t
  /\ maxHealth s2 == maxHealth s + 2 * g_health t
  /\ maxEnergy s2 == maxEnergy s + 2 * g_energy t
  /\ currentHealth s2
     == Qmin (currentHealth s) (maxHealth s) + 2 * g_health t
  /\ currentEnergy s2
     == Qmin (currentEnergy s) (maxEnergy s) + 2 * g_energy t
  /\ level s2 = level s.
Proof.
  cbv zeta. unfold GearManager.applyGearStats.
  cbn [attack defense speed maxHealth maxEnergy currentHealth currentEnergy
       level].
  generalize (total_stats (GearManager.calculateTotalStats g)). intros t.
  repeat split; try ring; q_bounds_nested.
Qed.

(** ** The upgrade shop *)

Lemma purchaseUpgrade_sound
    (upgradeId : string) (m : ProgressionManager.t) :
  ledgerSound (ProgressionManager.progress m) ->
  ledgerSound
    (ProgressionManager.progress
       (snd (ProgressionManager.purchaseUpgrade upgradeId m))).
Proof.
  intros [Hres Hlv]. unfold ProgressionManager.purchaseUpgrade.
  destruct (JsMap.get upgradeId _) as [u|] eqn:Hu; [|by split].
  destruct (Num.leb (maxLevel u) (currentLevel u)) eqn:Hmax; [by split|].
  destruct (Num.ltb _ (cost u)) eqn:Hcost; [by split|].
  apply Num_leb_gt in Hmax. apply Num_ltb_ge in Hcost.
  unfold ProgressionManager.saveProgress, ledgerSound.
  cbn [orb snd ProgressionManager.progress resources metaUpgrades].
  split; [lra|].
  intros ident u' Hget.
  destruct (decide (upgradeId = ident)) as [<-|Hne].
  - rewrite JsMap_get_set_eq in Hget. inversion Hget; subst u'.
    cbn [maxLevel currentLevel].
    destruct (Hlv upgradeId u Hu) as [n Hn].
    destruct n as [|n].
    + exfalso. change (inject_Z (Z.of_nat 0)) with 0 in Hn. lra.
    + exists n. rewrite Hn. rewrite Nat2Z.inj_succ.
      unfold Z.succ. rewrite inject_Z_plus. ring.
  - rewrite JsMap_get_set_ne in Hget by exact Hne. by apply (Hlv ident).
Qed.

(** When the balance is not negative and every upgrade has a whole
    number of levels left to its maximum (0, 1, 2, ...), the same holds
    after [purchaseUpgrade], whether it succeeds or not; in particular the
    balance is still not negative and no upgrade is above its maximal
    level. *)
Theorem purchaseUpgrade_keeps_ledger_sound
    (upgradeId : string) (m : ProgressionManager.t) :
  ledgerSound (ProgressionManager.progress m) ->
  let p' :=
    ProgressionManager.progress
      (snd (ProgressionManager.purchaseUpgrade upgradeId m)) in
  ledgerSound p'
  /\ 0 <= resources p'
  /\ (forall ident u, JsMap.get ident (metaUpgrades p') = Some u ->
        currentLevel u <= maxLevel u
        /\ whole (maxLevel u - currentLevel u)).
Proof.
  intros Hs. cbv zeta.
  pose proof (purchaseUpgrade_sound upgradeId m Hs) as Hs'.
  split; [exact Hs'|]. destruct Hs' as [Hres Hlv]. split; [exact Hres|].
  intros ident u Hget. destruct (Hlv ident u Hget) as [n Hn].
  assert (0 <= inject_Z (Z.of_nat n)).
  { change 0 with (inject_Z 0). rewrite <- Zle_Qle. lia. }
  split; [lra|]. exists (Z.of_nat n). rewrite Hn. ring.
Qed.

Lemma examples_progress0_sound : ledgerSound Examples.progress0.
Proof.
  split; [vm_compute; discriminate|].
  intros ident u Hget. unfold Examples.progress0, Examples.defaultUpgrades in Hget.
  cbn [metaUpgrades JsMap.get] in Hget.
  repeat match type of Hget with
         | (if decide ?P then _ else _) = _ =>
             destruct (decide P) as [_|_] in Hget
         end;
    try discriminate; inversion Hget; subst u;
    [exists 10%nat | exists 10%nat | exists 10%nat | exists 5%nat];
    vm_compute; reflexivity.
Qed.

(** "Vitality" bought with a balance of 120 leaves 20. *)
Lemma purchaseUpgrade_keeps_ledger_sound_witness :
  ledgerSound
    (ProgressionManager.progress
       (snd (ProgressionManager.purchaseUpgrade "health-boost" Examples.manager0)))
  /\ resources
       (ProgressionManager.progress
          (snd (ProgressionManager.purchaseUpgrade "health-boost"
                  Examples.manager0)))
     == 20.
Proof.
  split; [|vm_compute; reflexivity].
  apply (purchaseUpgrade_keeps_ledger_sound "health-boost" Examples.manager0).
  exact examples_progress0_sound.
Defined.

(** A purchase raises the price of the upgrade when the price is at least
    2: the next cost [floor(cost * 1.5)] is above the cost paid. *)
Theorem purchaseUpgrade_raises_price
    (upgradeId : string) (m : ProgressionManager.t) (u : MetaUpgrade) :
  JsMap.get upgradeId (metaUpgrades (ProgressionManager.progress m)) = Some u ->
  2 <= cost u ->
  fst (ProgressionManager.purchaseUpgrade upgradeId m) = true ->
  exists u',
    JsMap.get upgradeId
      (metaUpgrades
         (ProgressionManager.progress
            (snd (ProgressionManager.purchaseUpgrade upgradeId m))))
    = Some u'
    /\ cost u < cost u'.
Proof.
  intros Hu Hcost. unfold ProgressionManager.purchaseUpgrade. rewrite Hu.
  destruct (_ || _); [discriminate|]. intros _.
  unfold ProgressionManager.saveProgress.
  cbn [snd ProgressionManager.progress metaUpgrades].
  eexists. split; [apply JsMap_get_set_eq|]. cbn [cost].
  unfold Num.floor.
  pose proof (Qlt_floor (cost u * (3 # 2))) as Hfl.
  rewrite inject_Z_plus in Hfl. change (inject_Z 1) with 1 in Hfl. lra.
Qed.

Lemma purchaseUpgrade_raises_price_witness :
  exists u',
    JsMap.get "health-boost"
      (metaUpgrades
         (ProgressionManager.progress
            (snd (ProgressionManager.purchaseUpgrade "health-boost"
                    Examples.manager0))))
    = Some u'
    /\ 100 < cost u'.
Proof.
  apply (purchaseUpgrade_raises_price "health-boost" Examples.manager0
           (mkMetaUpgrade "health-boost" "Vitality"
              MetaUpgradeType.HEALTH_BOOST (1 # 10) 100 10 0)).
  - vm_compute. reflexivity.
  - vm_compute. discriminate.
  - vm_compute. reflexivity.
Defined.

(** ** Difficulty *)

Lemma offset_from l a :
  fold_left (fun total u => total + value u * currentLevel u) l a
  == a + fold_left (fun total u => total + value u * currentLevel u) l 0.
Proof.
  revert a. induction l as [|u l IH]; intros a; simpl; [ring|].
  rewrite (IH (a + value u * currentLevel u)).
  rewrite (IH (0 + value u * currentLevel u)). ring.
Qed.

Lemma offset_set (m : JsMap.t MetaUpgrade) ident u u' :
  JsMap.get ident m = Some u ->
  fold_left (fun total x => total + value x * currentLevel x)
            (JsMap.values (JsMap.set ident u' m)) 0
  == fold_left (fun total x => total + value x * currentLevel x)
               (JsMap.values m) 0
     - value u * currentLevel u + value u' * currentLevel u'.
Proof.
  induction m as [|[k x] m IH]; intros Hget; [discriminate|].
  simpl in Hget. simpl. destruct (decide (ident = k)) as [->|Hne].
  - inversion Hget; subst x. simpl.
    rewrite (offset_from _ (0 + value u' * currentLevel u')).
    rewrite (offset_from _ (0 + value u * currentLevel u)). ring.
  - simpl.
    rewrite (offset_from _ (0 + value x * currentLevel x)).
    rewrite (offset_from (map snd m) (0 + value x * currentLevel x)).
    unfold JsMap.values in IH. rewrite (IH Hget). ring.
Qed.

(** Buying an upgrade whose magnitude is not negative never raises the
    difficulty that [calculateDifficulty] gives to the next run. *)
Theorem purchase_never_raises_difficulty
    (upgradeId : string) (m : ProgressionManager.t) :
  (forall u,
     JsMap.get upgradeId (metaUpgrades (ProgressionManager.progress m)) = Some u ->
     0 <= value u) ->
  Progression.calculateDifficulty
    (ProgressionManager.progress
       (snd (ProgressionManager.purchaseUpgrade upgradeId m)))
  <= Progression.calculateDifficulty (ProgressionManager.progress m).
Proof.
  intros Hval. unfold ProgressionManager.purchaseUpgrade.
  destruct (JsMap.get upgradeId _) as [u|] eqn:Hu; [|apply Qle_refl].
  destruct (_ || _); [apply Qle_refl|].
  unfold ProgressionManager.saveProgress.
  cbn [snd ProgressionManager.progress].
  unfold Progression.calculateDifficulty, Progression.upgradeOffset.
  cbn [totalRuns metaUpgrades].
  rewrite (offset_set _ upgradeId u _ Hu). cbn [value currentLevel].
  specialize (Hval u eq_refl).
  set (off := fold_left _ _ 0). set (base := 1 + _).
  apply Q.max_le_compat_l. nra.
Qed.

(** Three runs played: the difficulty falls from 1.3 to 1.2 when
    "Vitality" is bought. *)
Lemma purchase_never_raises_difficulty_witness :
  Progression.calculateDifficulty
    (ProgressionManager.progress
       (snd (ProgressionManager.purchaseUpgrade "health-boost" Examples.manager0)))
  <= Progression.calculateDifficulty (ProgressionManager.progress Examples.manager0)
  /\ Progression.calculateDifficulty
       (ProgressionManager.progress
          (snd (ProgressionManager.purchaseUpgrade "health-boost"
                  Examples.manager0)))
     == 6 # 5.
Proof.
  split; [|vm_compute; reflexivity].
  apply purchase_never_raises_difficulty.
  intros u Hu. vm_compute in Hu. inversion Hu; subst u. vm_compute. discriminate.
Defined.



(** ** Ending a run *)

Lemma beatsBest_spec run best :
  (Progression.beatsBest run (Some best) = true ->
   wave best < wave run
   \/ (wave run == wave best /\ resourcesGained best < resourcesGained run))
  /\ (Progression.beatsBest run (Some best) = false ->
      atLeastAsGood best run).
Proof.
  unfold Progression.beatsBest, atLeastAsGood. split.
  - intros H. apply orb_true_iff in H. destruct H as [H|H].
    + left. by apply Num_ltb_lt.
    + right. apply andb_true_iff in H. destruct H as [H1 H2].
      split; [by apply Qeq_bool_iff | by apply Num_ltb_lt].
  - intros H. apply orb_false_iff in H. destruct H as [H1 H2].
    apply Num_ltb_ge in H1. apply andb_false_iff in H2.
    destruct (Qlt_le_dec (wave run) (wave best)) as [Hlt|Hge]; [by left|].
    right. split; [lra|]. destruct H2 as [H2|H2].
    + exfalso. unfold Num.eqb in H2.
      assert (Heq : wave run == wave best) by lra.
      apply Qeq_bool_iff in Heq. congruence.
    + by apply Num_ltb_ge.
Qed.

(** [endRun] closes the current run: the run gets its end time and its
    result and keeps its other fields; the number of runs grows by 1; the
    enemies defeated, the damage dealt, the damage taken and the resources
    gained of the run and its duration are added to the five statistics;
    the reward of the finished run is added to the balance; the upgrades
    and the unlocked content are unchanged; the progress is saved; and the
    best run afterwards is the finished run or the previous best one,
    whichever is at least as good as the other. *)
Theorem endRun_keeps_the_best_run
    (res : RunResult.t) (now : Q) (m : ProgressionManager.t) (run : RunStats) :
  ProgressionManager.currentRun m = Some run ->
  let m' := Progression.endRun res now m in
  let p := ProgressionManager.progress m in
  let p' := ProgressionManager.progress m' in
  exists finished best,
    ProgressionManager.currentRun m' = Some finished
    /\ finished
       = mkRunStats (runId run) (startTime run) now (enemiesDefeated run)
           (damageDealt run) (damageTaken run) (resourcesGained run) res
           (difficulty run) (wave run)
    /\ endTime finished = now /\ result finished = res
    /\ wave finished = wave run
    /\ resourcesGained finished = resourcesGained run
    /\ bestRun p' = Some best
    /\ (best = finished \/ bestRun p = Some best)
    /\ atLeastAsGood best finished
    /\ (forall old, bestRun p = Some old -> atLeastAsGood best old)
    /\ totalRuns p' = totalRuns p + 1
    /\ totalEnemiesDefeated (statistics p')
       = totalEnemiesDefeated (statistics p) + enemiesDefeated run
    /\ totalDamageDealt (statistics p')
       = totalDamageDealt (statistics p) + damageDealt run
    /\ totalDamageTaken (statistics p')
       = totalDamageTaken (statistics p) + damageTaken run
    /\ totalResourcesGained (statistics p')
       = totalResourcesGained (statistics p) + resourcesGained run
    /\ totalPlayTime (statistics p')
       = totalPlayTime (statistics p) + (now - startTime run)
    /\ resources p'
       = resources p
         + Progression.calculateRunReward
             (ProgressionManager.mk (Some finished) p
                (ProgressionManager.storage m))
    /\ metaUpgrades p' = metaUpgrades p
    /\ unlockedContent p' = unlockedContent p
    /\ ProgressionManager.storage m' = Some p'.
Proof.
  intros Hrun. cbv zeta. unfold Progression.endRun. rewrite Hrun.
  unfold ProgressionManager.saveProgress.
  cbn [ProgressionManager.currentRun ProgressionManager.progress
       ProgressionManager.storage bestRun totalRuns statistics metaUpgrades
       totalEnemiesDefeated totalPlayTime endTime startTime enemiesDefeated
       totalDamageDealt totalDamageTaken totalResourcesGained damageDealt
       damageTaken resourcesGained resources unlockedContent].
  set (finished := mkRunStats _ _ now _ _ _ _ res _ _).
  assert (Hself : atLeastAsGood finished finished)
    by (right; split; [reflexivity | apply Qle_refl]).
  destruct (bestRun (ProgressionManager.progress m)) as [old|] eqn:Hold.
  - destruct (Progression.beatsBest finished (Some old)) eqn:Hb.
    + exists finished, finished. repeat split; try reflexivity; try exact Hself.
      { by left. }
      intros old' Hold'. inversion Hold'; subst old'.
      apply beatsBest_spec in Hb. unfold atLeastAsGood.
      destruct Hb as [Hb|[Hb1 Hb2]]; [by left | right; split; [exact Hb1 | lra]].
    + exists finished, old. repeat split; try reflexivity.
      { by right. }
      { by apply beatsBest_spec. }
      intros old' Hold'. inversion Hold'; subst old'.
      right. split; [reflexivity | apply Qle_refl].
  - exists finished, finished. repeat split; try reflexivity; try exact Hself.
    { by left. }
    intros old' Hold'. discriminate.
Qed.

(** A first run that ends in defeat becomes the best run. *)
Lemma endRun_keeps_the_best_run_witness :
  exists finished best,
    ProgressionManager.currentRun
      (Progression.endRun RunResult.DEFEAT 9000 Examples.manager1)
    = Some finished
    /\ bestRun (ProgressionManager.progress
                  (Progression.endRun RunResult.DEFEAT 9000 Examples.manager1))
       = Some best
    /\ best = finished.
Proof.
  destruct (endRun_keeps_the_best_run RunResult.DEFEAT 9000 Examples.manager1
              (mkRunStats "run-1" 1000 0 0 0 0 0 RunResult.DEFEAT
                 (Qmax 1 (1 + 3 * (1 # 10) - (0 + (1 # 20) * 0
                                             + (1 # 10) * (0 + 1)
                                             + (1 # 20) * 0 + (1 # 10) * 0)))
                 1))
    as (finished & best & H1 & _ & _ & _ & _ & _ & H2 & [H3|H3] & _).
  - reflexivity.
  - exists finished, best. by repeat split.
  - vm_compute in H3. discriminate.
Defined.

(** ** The reward of a run *)

Lemma floor_shift x (k : Z) m :
  1 <= m -> 0 <= inject_Z k ->
  Num.floor x + inject_Z k <= Num.floor (x + inject_Z k * m).
Proof.
  intros Hm Hk. unfold Num.floor.
  rewrite <- inject_Z_plus, <- Zle_Qle.
  rewrite <- (Qfloor_Z (Qfloor x + k)). apply Qfloor_resp_le.
  rewrite inject_Z_plus. pose proof (Qfloor_le x). nra.
Qed.

(** With a resource multiplier that is not below 1, the reward of a run
    that ends in victory is at least 500 above the reward of the same run
    ending in defeat. *)
Theorem victory_pays_at_least_500_more
    (run : RunStats) (p : PlayerProgress) (st : option PlayerProgress) :
  0 <= ProgressionManager.getMetaUpgradeEffect p MetaUpgradeType.RESOURCE_GAIN ->
  Progression.calculateRunReward
    (ProgressionManager.mk (Some (withResult RunResult.DEFEAT run)) p st) + 500
  <= Progression.calculateRunReward
       (ProgressionManager.mk (Some (withResult RunResult.VICTORY run)) p st).
Proof.
  intros Heff. unfold Progression.calculateRunReward.
  cbn [ProgressionManager.currentRun ProgressionManager.progress withResult
       wave enemiesDefeated difficulty result].
  set (m := 1 + ProgressionManager.orZero _).
  assert (Hm : 1 <= m).
  { unfold m, ProgressionManager.orZero. destruct (Num.truthy _); lra. }
  set (b := wave run * 50 + enemiesDefeated run * 10
            + Num.floor (difficulty run * 100)).
  pose proof (floor_shift (b * m) 500 m Hm) as Hs.
  change (inject_Z 500) with 500 in Hs.
  assert (H0 : Num.floor ((b + 0) * m) == Num.floor (b * m)).
  { unfold Num.floor. apply inject_Z_injective.
    apply Qfloor_comp. ring. }
  assert (H5 : Num.floor ((b + 500) * m) == Num.floor (b * m + 500 * m)).
  { unfold Num.floor. apply inject_Z_injective.
    apply Qfloor_comp. ring. }
  rewrite H0, H5. apply Hs. discriminate.
Qed.

Lemma victory_pays_at_least_500_more_witness :
  Progression.calculateRunReward
    (ProgressionManager.mk
       (Some (withResult RunResult.DEFEAT Scenario.newRun))
       Examples.progress0 None) + 500
  <= Progression.calculateRunReward
       (ProgressionManager.mk
          (Some (withResult RunResult.VICTORY Scenario.newRun))
          Examples.progress0 None).
Proof.
  apply victory_pays_at_least_500_more. vm_compute. discriminate.
Defined.

(** ** Applying the meta upgrades *)

Lemma applyUpgrade_inert s u : inert u -> Progression.applyUpgrade s u = s.
Proof.
  unfold inert, Progression.applyUpgrade. intros [Hz|[Ht|[Ht|Ht]]].
  - unfold Num.eqb. apply Qeq_bool_iff in Hz. by rewrite Hz.
  - rewrite Ht. by destruct (Num.eqb _ _).
  - rewrite Ht. by destruct (Num.eqb _ _).
  - rewrite Ht. by destruct (Num.eqb _ _).
Qed.

(** Upgrades that have not been bought, and upgrades of the types
    [RESOURCE_GAIN], [XP_GAIN] and [SKILL_COOLDOWN], do not change the
    stats: when there are no others, [applyMetaUpgrades] returns the stats
    it was given. *)
Theorem applyMetaUpgrades_inert (p : PlayerProgress) (s : CombatStats) :
  Forall inert (JsMap.values (metaUpgrades p)) ->
  Progression.applyMetaUpgrades p s = s.
Proof.
  unfold Progression.applyMetaUpgrades.
  generalize (JsMap.values (metaUpgrades p)). intros l Hl. revert s.
  induction Hl as [|u l Hu Hl IH]; intros s; [reflexivity|].
  simpl. rewrite applyUpgrade_inert by exact Hu. apply IH.
Qed.

Lemma applyMetaUpgrades_inert_witness :
  Progression.applyMetaUpgrades Examples.progress0 Scenario.playerStats
  = Scenario.playerStats.
Proof.
  apply applyMetaUpgrades_inert.
  repeat constructor; left; reflexivity.
Defined.

Lemma applyUpgrade_inv s u :
  0 <= 1 + value u * currentLevel u ->
  stats_inv s -> stats_inv (Progression.applyUpgrade s u).
Proof.
  intros Hm (H1 & H2 & H3 & H4). unfold Progression.applyUpgrade.
  destruct (Num.eqb _ _); [by repeat split|].
  set (mult := 1 + value u * currentLevel u) in *.
  destruct (upgrade_type u); unfold stats_inv;
    cbn [currentHealth maxHealth currentEnergy maxEnergy];
    repeat split; try assumption; try apply Qle_refl; nra.
Qed.

(** [applyMetaUpgrades] keeps [0 <= currentHealth <= maxHealth] and
    [0 <= currentEnergy <= maxEnergy] when no multiplier
    [1 + value * currentLevel] is negative. *)
Theorem applyMetaUpgrades_keeps_bounds (p : PlayerProgress) (s : CombatStats) :
  Forall (fun u => 0 <= 1 + value u * currentLevel u)
         (JsMap.values (metaUpgrades p)) ->
  stats_inv s ->
  stats_inv (Progression.applyMetaUpgrades p s).
Proof.
  unfold Progression.applyMetaUpgrades.
  generalize (JsMap.values (metaUpgrades p)). intros l Hl. revert s.
  induction Hl as [|u l Hu Hl IH]; intros s Hs; [exact Hs|].
  simpl. apply IH. by apply applyUpgrade_inv.
Qed.

(** The player with "Vitality" bought once: 110 of 110 health. *)
Lemma applyMetaUpgrades_keeps_bounds_witness :
  let p := ProgressionManager.progress Examples.manager1 in
  stats_inv (Progression.applyMetaUpgrades p Scenario.playerStats)
  /\ currentHealth (Progression.applyMetaUpgrades p Scenario.playerStats) == 110
  /\ maxHealth (Progression.applyMetaUpgrades p Scenario.playerStats) == 110.
Proof.
  cbv zeta. split; [|split; vm_compute; reflexivity].
  apply applyMetaUpgrades_keeps_bounds.
  - repeat constructor; vm_compute; discriminate.
  - vm_compute. repeat split; discriminate.
Defined.

(** ** Spawning enemies *)

(** An enemy of level at least 1 is created at full health and energy,
    within the bounds, and no weaker than an enemy of level 1. *)
Theorem createEnemyStats_bounds (lvl : Q) :
  1 <= lvl ->
  let s := EnemySpawner.createEnemyStats lvl in
  stats_inv s
  /\ currentHealth s = maxHealth s /\ currentEnergy s = maxEnergy s
  /\ level s = lvl
  /\ 50 <= maxHealth s /\ 10 <= attack s /\ 5 <= defense s /\ 5 <= speed s
  /\ 50 <= maxEnergy s.
Proof.
  intros Hlvl. cbv zeta. unfold EnemySpawner.createEnemyStats, stats_inv.
  cbn [currentHealth maxHealth currentEnergy maxEnergy level attack defense
       speed].
  unfold Double.add, Double.mul, Double.sub.
  pose proof (Double_round_nonneg (lvl - 1) ltac:(lra)) as Ha.
  set (a := Double.round (lvl - 1)) in *.
  assert (Hc : 0 <= Double.round (1 # 5)) by (vm_compute; discriminate).
  set (c := Double.round (1 # 5)) in *.
  pose proof (Double_round_nonneg (a * c) ltac:(nra)) as Ht.
  set (t := Double.round (a * c)) in *.
  pose proof (Double_round_mono_nonneg 1 (1 + t) ltac:(lra) ltac:(lra)) as Hf.
  assert (E1 : Double.round 1 == 1) by (vm_compute; reflexivity).
  rewrite E1 in Hf. set (f := Double.round (1 + t)) in *.
  assert (Hfloor : forall k : Z,
            0 <= inject_Z k -> Double.round (inject_Z k) == inject_Z k ->
            inject_Z k <= Num.floor (Double.round (inject_Z k * f))).
  { intros k Hk Ek. unfold Num.floor. rewrite <- Zle_Qle.
    apply Qfloor_lower.
    apply Qle_trans with (Double.round (inject_Z k));
      [rewrite Ek; apply Qle_refl|].
    apply Double_round_mono_nonneg; [exact Hk | nra]. }
  pose proof (Hfloor 50%Z) as H50. pose proof (Hfloor 10%Z) as H10.
  pose proof (Hfloor 5%Z) as H5.
  change (inject_Z 50) with 50 in H50. change (inject_Z 10) with 10 in H10.
  change (inject_Z 5) with 5 in H5.
  specialize (H50 ltac:(discriminate) ltac:(vm_compute; reflexivity)).
  specialize (H10 ltac:(discriminate) ltac:(vm_compute; reflexivity)).
  specialize (H5 ltac:(discriminate) ltac:(vm_compute; reflexivity)).
  repeat split; try apply Qle_refl; try assumption; lra.
Qed.

(** The enemy of level 3 that the game spawns at a difficulty above 2;
    at level 19 the product [50 * 4.6] is [229.99999999999997] in doubles,
    and the health is 229. *)
Lemma createEnemyStats_bounds_witness :
  stats_inv (EnemySpawner.createEnemyStats 3)
  /\ EnemySpawner.createEnemyStats 3 = mkStats 3 70 70 14 7 7 70 70
  /\ maxHealth (EnemySpawner.createEnemyStats 19) = 229.
Proof.
  split; [|split; vm_compute; reflexivity].
  apply (createEnemyStats_bounds 3). vm_compute. discriminate.
Defined.

(** ** The nearest enemy *)

Lemma nearest_loop w pos rest :
  forall seen acc,
    nearestSoFar w pos seen acc ->
    nearestSoFar w pos (seen ++ rest)
      (fold_left
         (fun '(nearest, minDistance) enemy =>
            if Num.leb (health w enemy) 0 then (nearest, minDistance)
            else
              let dx :=
                Double.sub (vx (position (ent w enemy))) (vx pos) in
              let dz :=
                Double.sub (vz (position (ent w enemy))) (vz pos) in
              let distSq :=
                Double.add (Double.mul dx dx) (Double.mul dz dz) in
              match minDistance with
              | Some m =>
                  if Num.ltb distSq m then (Some enemy, Some distSq)
                  else (nearest, minDistance)
              | None => (Some enemy, Some distSq)
              end)
         rest acc).
Proof.
  induction rest as [|x rest IH]; intros seen acc Hacc.
  - simpl. by rewrite app_nil_r.
  - cbn [fold_left].
    replace (seen ++ x :: rest) with ((seen ++ [x]) ++ rest)
      by (by rewrite <- app_assoc).
    apply IH. clear IH.
    destruct acc as [[e|] [d|]]; simpl in Hacc; try contradiction.
    + destruct Hacc as (Hd & Halive & before & after & Hseen & Hb & Ha).
      subst d.
      destruct (Num.leb (health w x) 0) eqn:Hx.
      * apply Num_leb_le in Hx. simpl. split; [reflexivity|]. split; [exact Halive|].
        exists before, (after ++ [x]). split; [by rewrite Hseen, <- app_assoc|].
        split; [exact Hb|]. intros y Hy Hyalive.
        apply elem_of_app in Hy. destruct Hy as [Hy|Hy]; [by apply Ha|].
        apply list_elem_of_singleton in Hy. subst y. lra.
      * apply Num_leb_gt in Hx. cbv zeta. fold (distSq w pos x).
        destruct (Num.ltb (distSq w pos x) (distSq w pos e)) eqn:Hlt.
        -- apply Num_ltb_lt in Hlt. simpl. split; [reflexivity|].
           split; [exact Hx|]. exists seen, []. split; [reflexivity|].
           split; [|intros y Hy; by apply elem_of_nil in Hy].
           intros y Hy Hyalive. rewrite Hseen in Hy.
           apply elem_of_app in Hy. destruct Hy as [Hy|Hy].
           ++ specialize (Hb y Hy Hyalive). lra.
           ++ apply elem_of_cons in Hy. destruct Hy as [->|Hy].
              ** lra.
              ** specialize (Ha y Hy Hyalive). lra.
        -- apply Num_ltb_ge in Hlt. simpl. split; [reflexivity|].
           split; [exact Halive|]. exists before, (after ++ [x]).
           split; [by rewrite Hseen, <- app_assoc|]. split; [exact Hb|].
           intros y Hy Hyalive. apply elem_of_app in Hy.
           destruct Hy as [Hy|Hy]; [by apply Ha|].
           apply list_elem_of_singleton in Hy. subst y. lra.
    + destruct (Num.leb (health w x) 0) eqn:Hx.
      * apply Num_leb_le in Hx. simpl. intros y Hy.
        apply elem_of_app in Hy. destruct Hy as [Hy|Hy]; [by apply Hacc|].
        apply list_elem_of_singleton in Hy. by subst y.
      * apply Num_leb_gt in Hx. cbv zeta. fold (distSq w pos x). simpl.
        split; [reflexivity|]. split; [exact Hx|]. exists seen, [].
        split; [reflexivity|]. split; [|intros y Hy; by apply elem_of_nil in Hy].
        intros y Hy Hyalive. specialize (Hacc y Hy). lra.
Qed.

Lemma findNearestEnemy_loop w pos :
  exists acc,
    findNearestEnemy w pos = fst acc
    /\ nearestSoFar w pos (enemies w) acc.
Proof.
  unfold findNearestEnemy. eexists. split; [reflexivity|].
  apply (nearest_loop w pos (enemies w) [] (None, None)).
  intros e He. by apply elem_of_nil in He.
Qed.

(** [findNearestEnemy] returns nothing exactly when no enemy has positive
    health; otherwise it returns a living enemy of the roster whose
    squared distance, as the code computes it in doubles, is not above
    that of any living enemy, and is below that of every living enemy
    that comes before it in the roster: among the enemies whose computed
    distances are equal, the first of the roster is returned. *)
Theorem findNearestEnemy_is_nearest (w : World) (pos : Vector3) :
  match findNearestEnemy w pos with
  | None => forall e, e ∈ enemies w -> health w e <= 0
  | Some e =>
      0 < health w e
      /\ exists before after,
           enemies w = before ++ e :: after
           /\ (forall x, x ∈ before -> 0 < health w x ->
                         distSq w pos e < distSq w pos x)
           /\ (forall x, x ∈ enemies w -> 0 < health w x ->
                         distSq w pos e <= distSq w pos x)
  end.
Proof.
  destruct (findNearestEnemy_loop w pos) as ([[e|] [d|]] & -> & Hinv);
    simpl in Hinv; try contradiction; simpl.
  - destruct Hinv as (-> & Halive & before & after & Hseen & Hb & Ha).
    split; [exact Halive|]. exists before, after. split; [exact Hseen|].
    split; [exact Hb|]. intros x Hx Hxalive. rewrite Hseen in Hx.
    apply elem_of_app in Hx. destruct Hx as [Hx|Hx].
    + specialize (Hb x Hx Hxalive). lra.
    + apply elem_of_cons in Hx. destruct Hx as [->|Hx];
        [apply Qle_refl | by apply Ha].
  - exact Hinv.
Qed.

(** Seen from the origin, the first two spawn points are at the computed
    squared distance 25, although the second is nearer by [1.3e-15] in
    exact arithmetic: the first enemy is returned. *)
Lemma findNearestEnemy_is_nearest_witness :
  let w := Scenario.twoSpawned in
  let pos := position (ent w (player w)) in
  findNearestEnemy w pos = Some 1%nat
  /\ distSq w pos 1 <= distSq w pos 2
  /\ distSq w pos 1 == 25 /\ distSq w pos 2 == 25
  /\ vx (position (ent w 2)) * vx (position (ent w 2))
     + vz (position (ent w 2)) * vz (position (ent w 2)) < 25.
Proof.
  cbv zeta.
  assert (E : findNearestEnemy Scenario.twoSpawned
                (position (ent Scenario.twoSpawned
                             (player Scenario.twoSpawned)))
              = Some 1%nat) by (vm_compute; reflexivity).
  pose proof (findNearestEnemy_is_nearest Scenario.twoSpawned
                (position (ent Scenario.twoSpawned
                             (player Scenario.twoSpawned)))) as H.
  rewrite E in H. destruct H as (_ & _ & _ & _ & _ & Hall).
  split; [exact E|]. split.
  - apply Hall; [|vm_compute; reflexivity].
    change (enemies Scenario.twoSpawned) with [1%nat; 2%nat].
    apply elem_of_cons. right. apply elem_of_cons. by left.
  - vm_compute. repeat split; reflexivity.
Defined.

(** ** What the actions of a round leave in place *)

Lemma steady_refl w : steady w w.
Proof. by repeat split. Qed.

Lemma steady_trans w1 w2 w3 : steady w1 w2 -> steady w2 w3 -> steady w1 w3.
Proof.
  intros (A1 & A2 & A3 & A4 & A5 & A6) (B1 & B2 & B3 & B4 & B5 & B6).
  split; [intros r; by rewrite B1|].
  split; [congruence|]. split; [congruence|]. split; [congruence|].
  split; [congruence|]. intros e He. by apply A6, B6.
Qed.

Lemma fixedPart_update_stats r r' f h :
  (forall s, level (f s) = level s /\ maxHealth (f s) = maxHealth s
             /\ attack (f s) = attack s /\ defense (f s) = defense s
             /\ speed (f s) = speed s /\ maxEnergy (f s) = maxEnergy s) ->
  fixedPart (entity (update_stats r f h) r') = fixedPart (entity h r').
Proof.
  intros Hf. destruct (decide (r = r')) as [->|Hne].
  - unfold update_stats. rewrite entity_update_entity_eq.
    unfold fixedPart. cbn [set_stats ent_id isPlayer stats].
    destruct (Hf (stats (entity h r'))) as (-> & -> & -> & -> & -> & ->).
    reflexivity.
  - by rewrite entity_update_stats_ne.
Qed.

Lemma steady_set_heap w h :
  (forall r, fixedPart (entity h r) = fixedPart (ent w r)) ->
  steady w (set_heap h w).
Proof. intros Hh. by repeat split. Qed.

Lemma elem_of_removeFirst e r l : e ∈ removeFirst r l -> e ∈ l.
Proof.
  induction l as [|x xs IH]; simpl; [done|].
  destruct (decide (x = r)); [by right|].
  rewrite !elem_of_cons. intros [->|H]; [by left | right; by apply IH].
Qed.

Lemma steady_handleAttack attacker target w :
  steady w (handleAttack attacker target w).
Proof.
  split.
  { intros r. unfold ent. rewrite heap_handleAttack.
    apply fixedPart_update_stats. intros s. by repeat split. }
  rewrite handleAttack_from. unfold handleAttackFrom, removeEnemy.
  repeat match goal with
         | |- context [if ?b then _ else _] => destruct b
         end;
    repeat split; try reflexivity; try (intros e He; exact He).
  all: intros e He; cbn in He; by apply elem_of_removeFirst in He.
Qed.

Lemma steady_handleSkillEffect source effect w :
  steady w (handleSkillEffect source effect w).
Proof.
  destruct effect as [[target eff] v]. unfold handleSkillEffect.
  destruct (se_type eff); try apply steady_refl.
  - apply steady_handleAttack.
  - apply steady_set_heap. intros r. apply fixedPart_update_stats.
    intros s. by repeat split.
Qed.

Lemma steady_executeSkill sk source targets w :
  steady w (set_heap (snd (SkillManager.executeSkill (heap w) sk source targets)) w).
Proof.
  apply steady_set_heap. intros r. unfold SkillManager.executeSkill.
  destruct (Num.ltb 0 _); [reflexivity|].
  destruct (Num.ltb _ _); [reflexivity|]. cbn [snd].
  rewrite fixedPart_update_stats by (intros s; by repeat split).
  reflexivity.
Qed.

Lemma steady_fold_effects source effects w :
  steady w
    (fold_left (fun w effect => handleSkillEffect source effect w) effects w).
Proof.
  revert w. induction effects as [|e es IH]; intros w; [apply steady_refl|].
  simpl. eapply steady_trans; [apply steady_handleSkillEffect | apply IH].
Qed.

Lemma steady_processAction sqrt action w :
  steady w (processAction sqrt action w).
Proof.
  destruct action as [source tp|source target damage|source target sk];
    unfold processAction.
  - unfold moveEntity. apply steady_set_heap. intros r.
    destruct (decide (source = r)) as [->|Hne].
    + by rewrite entity_update_entity_eq.
    + by rewrite entity_update_entity_ne.
  - destruct (PassiveManager.checkTrigger _ _ _ _ _ _ _) as [results r].
    eapply steady_trans; [|apply steady_handleAttack]. by repeat split.
  - pose proof (steady_executeSkill sk source [target] w) as Hex.
    destruct (SkillManager.executeSkill (heap w) sk source [target])
      as [res h'].
    cbn [snd] in Hex. destruct (success res); [|exact Hex].
    eapply steady_trans; [exact Hex | apply steady_fold_effects].
Qed.

Lemma steady_fold_actions sqrt queue w :
  steady w (fold_left (fun w action => processAction sqrt action w) queue w).
Proof.
  revert w. induction queue as [|a queue IH]; intros w; [apply steady_refl|].
  simpl. eapply steady_trans; [apply steady_processAction | apply IH].
Qed.

(** Resolving the queued actions changes, in the entities, only current
    health, current energy and positions: the level, the maximal health and
    energy, attack, defense, speed, the id and the player flag of every
    entity stay as they are; the player, the state of the session and the
    loadouts are unchanged, no enemy joins the roster, and the queue is
    empty afterwards. *)
Theorem processActions_frame (sqrt : Q -> Q) (w : World) :
  let w' := processActions sqrt w in
  (forall r, fixedPart (ent w' r) = fixedPart (ent w r))
  /\ player w' = player w
  /\ currentState w' = currentState w
  /\ skillSlots w' = skillSlots w
  /\ passiveSlots w' = passiveSlots w
  /\ (forall e, e ∈ enemies w' -> e ∈ enemies w)
  /\ actionQueue w' = [].
Proof.
  cbv zeta. unfold processActions.
  destruct (steady_fold_actions sqrt (actionQueue w) w)
    as (H1 & H2 & H3 & H4 & H5 & H6).
  by repeat split.
Qed.

(** ** The state of the session after an update *)

Lemma steady_advance sqrt now w : steady w (advance sqrt now w).
Proof.
  unfold advance, processActions.
  set (w1 := if Num.leb ROUND_DURATION (now - lastRoundTime w) then _ else w).
  assert (H1 : steady w w1).
  { unfold w1. destruct (Num.leb _ _); [|apply steady_refl].
    split; [|by repeat split].
    intros r. unfold ent, entity. cbn [heap set_heap].
    by rewrite updateCooldowns_ents. }
  pose proof (steady_fold_actions sqrt (actionQueue w1) w1) as H2.
  destruct (steady_trans _ _ _ H1 H2) as (A1 & A2 & A3 & A4 & A5 & A6).
  by repeat split.
Qed.

(** [update] does nothing unless the session is in progress.  In progress,
    it ends the session in [DEFEAT] exactly when the player's health is at
    most 0 once the actions are resolved (also when all enemies are down
    as well), in [VICTORY] exactly when the player is alive and every
    enemy left in the roster is down, and leaves it in progress otherwise;
    ending the session changes nothing but its state. *)
Theorem update_outcome (sqrt : Q -> Q) (now : Q) (w : World) :
  let w1 := advance sqrt now w in
  let w' := update sqrt now w in
  match currentState w with
  | IN_PROGRESS =>
      (currentState w' = DEFEAT <-> health w1 (player w1) <= 0)
      /\ (currentState w' = VICTORY
          <-> 0 < health w1 (player w1) /\ allEnemiesDown w1 = true)
      /\ (currentState w' = IN_PROGRESS
          <-> 0 < health w1 (player w1) /\ allEnemiesDown w1 = false)
      /\ heap w' = heap w1 /\ enemies w' = enemies w1
      /\ progression w' = progression w1 /\ rounds w' = rounds w1
  | _ => w' = w
  end.
Proof.
  cbv zeta. unfold update.
  destruct (currentState w) eqn:Hst; try reflexivity.
  pose proof (steady_advance sqrt now w) as (_ & _ & Hs & _).
  rewrite Hst in Hs. unfold checkCombatEnd, endCombat.
  destruct (Num.leb (health (advance sqrt now w) (player (advance sqrt now w))) 0)
    eqn:Hp.
  - apply Num_leb_le in Hp. cbn [orb state currentState set_currentState].
    repeat split; try reflexivity; try discriminate;
      try (intros [H _]; lra); intros; assumption.
  - apply Num_leb_gt in Hp. cbn [orb].
    destruct (allEnemiesDown (advance sqrt now w)) eqn:Hall.
    + cbn [state currentState set_currentState].
      repeat split; try reflexivity; try discriminate; try assumption;
        try (intros H; lra); intros [_ H]; discriminate.
    + rewrite Hs.
      repeat split; try reflexivity; try discriminate; try assumption;
        try (intros H; lra); intros [_ H]; discriminate.
Qed.

(** ** The actions of a round *)

Lemma findNearestEnemy_none_iff w pos :
  findNearestEnemy w pos = None <-> anyEnemyAlive w = false.
Proof.
  unfold anyEnemyAlive.
  destruct (findNearestEnemy_loop w pos) as ([[e|] [d|]] & -> & Hinv);
    simpl in Hinv; try contradiction; simpl.
  - destruct Hinv as (_ & Halive & before & after & Hseen & _).
    split; [discriminate|]. intros Hnone. exfalso.
    assert (Hex : existsb (fun e => Num.ltb 0 (health w e)) (enemies w) = true).
    { apply existsb_exists. exists e. split; [|by apply Num_ltb_lt].
      rewrite Hseen. apply in_app_iff. right. by left. }
    congruence.
  - split; [|reflexivity]. intros _.
    destruct (existsb _ _) eqn:Hex; [|reflexivity].
    apply existsb_exists in Hex. destruct Hex as (e & He & Halive).
    apply Num_ltb_lt in Halive. apply list_elem_of_In in He.
    specialize (Hinv e He). lra.
Qed.

Lemma omap_sources (f : nat -> option CombatAction) (l : list nat) :
  (forall e, e ∈ l -> exists a, f e = Some a /\ action_source a = e) ->
  map action_source (omap f l) = l.
Proof.
  induction l as [|x l IH]; intros Hf; [reflexivity|].
  destruct (Hf x) as (a & Ha & Hsrc); [by left|].
  change (omap f (x :: l)) with
    (match f x with Some y => y :: omap f l | None => omap f l end).
  rewrite Ha. simpl. rewrite Hsrc. f_equal. apply IH.
  intros e He. apply Hf. by right.
Qed.

Lemma omap_none {A B} (f : A -> option B) (l : list A) :
  (forall e, e ∈ l -> f e = None) -> omap f l = [].
Proof.
  induction l as [|x l IH]; intros Hf; [reflexivity|].
  change (omap f (x :: l)) with
    (match f x with Some y => y :: omap f l | None => omap f l end).
  rewrite Hf by (by left). apply IH. intros e He. apply Hf. by right.
Qed.

Lemma aliveEntities_elem w e :
  e ∈ aliveEntities w <-> e ∈ player w :: enemies w /\ 0 < health w e.
Proof.
  unfold aliveEntities. rewrite (sortBy_Permutation _ _).
  rewrite list_elem_of_In, filter_In, <- list_elem_of_In.
  by rewrite Num_ltb_lt.
Qed.

(** When the player flag marks the player and nobody else, a round queues
    one action for each living entity, in the order in which they act, as
    long as some enemy is alive, and no action at all otherwise; every
    action of an enemy is an attack on the player or a move towards the
    player. *)
Theorem processRound_one_action_each (now : Q) (w : World) :
  rolesConsistent w ->
  let queue := actionQueue (processRound now w) in
  map action_source queue
  = (if anyEnemyAlive w then aliveEntities w else [])
  /\ (forall a, a ∈ queue -> action_source a <> player w ->
        (exists d, a = ATTACK (action_source a) (player w) d)
        \/ a = MOVE (action_source a) (player w))
  /\ rounds (processRound now w)
     = rounds w ++ [mkRound (currentRound w) queue now]
  /\ heap (processRound now w) = heap w.
Proof.
  intros [Hp He]. cbv zeta.
  change (actionQueue (processRound now w))
    with (omap (determineAction w) (aliveEntities w)).
  assert (Hrole : forall e, e ∈ aliveEntities w ->
            isPlayer (ent w e) = true -> e = player w).
  { intros e Hin Hflag. apply aliveEntities_elem in Hin.
    destruct Hin as [Hin _]. apply elem_of_cons in Hin.
    destruct Hin as [->|Hin]; [reflexivity|].
    rewrite (He e Hin) in Hflag. discriminate. }
  assert (Henemy : forall e, isPlayer (ent w e) = false ->
            exists a, determineAction w e = Some a /\ action_source a = e
                      /\ ((exists d, a = ATTACK e (player w) d)
                          \/ a = MOVE e (player w))).
  { intros e Hflag. unfold determineAction, determineEnemyAction.
    rewrite Hflag. destruct (isWithinAttackRange _ _); eexists;
      (split; [reflexivity|]); (split; [reflexivity|]);
      [left; by eexists | by right]. }
  split; [|split; [|by split]].
  - destruct (anyEnemyAlive w) eqn:Hany.
    + apply omap_sources. intros e Hin.
      destruct (isPlayer (ent w e)) eqn:Hflag.
      * rewrite (Hrole e Hin Hflag). unfold determineAction. rewrite Hp.
        unfold determinePlayerAction.
        destruct (findNearestEnemy w _) as [n|] eqn:Hn.
        -- destruct (SkillManager.getAvailableSkills _ _ _);
             [destruct (isWithinAttackRange _ _)|]; by eexists.
        -- apply findNearestEnemy_none_iff in Hn. congruence.
      * destruct (Henemy e Hflag) as (a & Ha & Hsrc & _). by exists a.
    + rewrite omap_none; [reflexivity|]. intros e Hin.
      pose proof Hin as Hin'. apply aliveEntities_elem in Hin'.
      destruct Hin' as [Hmem Halive]. apply elem_of_cons in Hmem.
      destruct Hmem as [->|Hmem].
      * unfold determineAction. rewrite Hp. unfold determinePlayerAction.
        apply (findNearestEnemy_none_iff w (position (ent w (player w))))
          in Hany. by rewrite Hany.
      * exfalso. unfold anyEnemyAlive in Hany.
        assert (Hex : existsb (fun e => Num.ltb 0 (health w e)) (enemies w) = true).
        { apply existsb_exists. exists e.
          split; [by apply list_elem_of_In | by apply Num_ltb_lt]. }
        congruence.
  - intros a Ha Hsrc. apply list_elem_of_omap in Ha.
    destruct Ha as (e & Hin & Hact).
    destruct (isPlayer (ent w e)) eqn:Hflag.
    + exfalso. apply Hsrc. rewrite (Hrole e Hin Hflag) in Hact.
      unfold determineAction in Hact. rewrite Hp in Hact.
      unfold determinePlayerAction in Hact.
      destruct (findNearestEnemy w _); [|discriminate].
      destruct (SkillManager.getAvailableSkills _ _ _);
        [destruct (isWithinAttackRange _ _)|]; by inversion Hact.
    + destruct (Henemy e Hflag) as (a' & Ha' & Hs' & Hshape).
      rewrite Hact in Ha'. inversion Ha'; subst a'. by rewrite Hs'.
Qed.

(** The player of speed 10 between the enemies of speed 5 and 15. *)
Lemma processRound_one_action_each_witness :
  map action_source (actionQueue (processRound 2000 Scenario.threeSpeeds))
  = aliveEntities Scenario.threeSpeeds.
Proof.
  destruct (processRound_one_action_each 2000 Scenario.threeSpeeds) as [H _].
  - split; [reflexivity|]. intros e He.
    change (enemies Scenario.threeSpeeds) with [1%nat; 2%nat] in He.
    apply elem_of_cons in He. destruct He as [->|He]; [reflexivity|].
    apply list_elem_of_singleton in He. by subst e.
  - exact H.
Defined.

(** ** The ledger of an attack *)

(** With a run in progress, [handleAttack] books the computed damage (at
    least 1, whatever health the target had left) as damage dealt when the
    attacker is the player and as damage taken otherwise; when the target
    is an enemy whose health is at most 0 afterwards, it counts one more
    defeated enemy, adds the reward of the enemy's level, and removes the
    enemy from the roster; no entity but the target is changed. *)
Theorem handleAttack_accounting
    (w : World) (attacker target : nat) (run : RunStats) :
  ProgressionManager.currentRun (progression w) = Some run ->
  let w' := handleAttack attacker target w in
  let dmg := attackDamage w attacker target in
  let defeated := negb (isPlayer (ent w target)) && Num.leb (health w' target) 0 in
  exists run',
    ProgressionManager.currentRun (progression w') = Some run'
    /\ 1 <= dmg
    /\ damageDealt run'
       = (if isPlayer (ent w attacker) then damageDealt run + dmg
          else damageDealt run)
    /\ damageTaken run'
       = (if isPlayer (ent w attacker) then damageTaken run
          else damageTaken run + dmg)
    /\ enemiesDefeated run'
       = (if defeated then enemiesDefeated run + 1 else enemiesDefeated run)
    /\ resourcesGained run'
       = (if defeated then
            resourcesGained run
            + ProgressionManager.calculateResourceGain
                (ProgressionManager.progress (progression w))
                (level (stats (ent w target)))
          else resourcesGained run)
    /\ enemies w'
       = (if defeated then removeFirst target (enemies w) else enemies w)
    /\ (forall r, r <> target -> ent w' r = ent w r).
Proof.
  intros Hrun. cbv zeta. rewrite health_handleAttack.
  pose proof (attackDamage_ge_1 w attacker target) as Hdmg.
  rewrite handleAttack_from. unfold handleAttackFrom.
  destruct (Num.leb (Qmax 0 (health w target - attackDamage w attacker target)) 0)
    eqn:Hdead;
    destruct (isPlayer (ent w target)) eqn:Ht;
    destruct (isPlayer (ent w attacker)) eqn:Ha;
    cbn [negb andb];
    rewrite ?enemies_removeEnemy; repeat (progress world_simpl);
    cbn [progression set_heap emit];
    unfold ProgressionManager.trackCombatEvent; rewrite Hrun;
    cbn [ProgressionManager.currentRun ProgressionManager.progress];
    eexists; (split; [reflexivity|]); cbn [damageDealt damageTaken
      enemiesDefeated resourcesGained];
    repeat split; try reflexivity; try exact Hdmg;
    intros r Hr; unfold ent; rewrite ?heap_removeEnemy;
    cbn [heap track emit set_heap set_progression];
    by apply entity_update_stats_ne.
Qed.

(** The last blow of the duel: 10 damage on an enemy with 10 health left. *)
Lemma handleAttack_accounting_witness :
  exists run',
    ProgressionManager.currentRun
      (progression (handleAttack 0 1 Scenario.twoAttacksQueued))
    = Some run'
    /\ damageDealt run' == 10 /\ enemiesDefeated run' == 1
    /\ resourcesGained run' == 5
    /\ enemies (handleAttack 0 1 Scenario.twoAttacksQueued) = [].
Proof.
  destruct (handleAttack_accounting Scenario.twoAttacksQueued 0 1
              Scenario.newRun eq_refl)
    as (run' & H1 & _ & H2 & _ & H3 & H4 & H5 & _).
  exists run'. split; [exact H1|].
  split; [rewrite H2; vm_compute; reflexivity|].
  split; [rewrite H3; vm_compute; reflexivity|].
  split; [rewrite H4; vm_compute; reflexivity|].
  rewrite H5. vm_compute. reflexivity.
Defined.

(** ** A skill between two uses *)

Lemma iter_updateCooldowns_ents slots h k :
  ents (Nat.iter k (SkillManager.updateCooldowns slots) h) = ents h.
Proof.
  induction k as [|k IH]; [reflexivity|].
  cbn [Nat.iter nat_rect].
  change (nat_rect _ h _ k)
    with (Nat.iter k (SkillManager.updateCooldowns slots) h).
  by rewrite updateCooldowns_ents.
Qed.

Lemma iter_updateCooldowns_cost slots h sk k :
  NoDup (omap id slots) ->
  energyCost (skill (Nat.iter k (SkillManager.updateCooldowns slots) h) sk)
  = energyCost (skill h sk).
Proof.
  intros Hnd. induction k as [|k IH]; [reflexivity|].
  cbn [Nat.iter nat_rect].
  change (nat_rect _ h _ k)
    with (Nat.iter k (SkillManager.updateCooldowns slots) h).
  rewrite (updateCooldowns_step slots _ sk Hnd).
  by destruct (_ && _).
Qed.

(** A skill in a slot with a whole cooldown of [n] rounds that has just
    been used is not offered by [getAvailableSkills] during the next
    [n - 1] rounds; from round [n] on it is offered again as soon as the
    source can pay for it. *)
Theorem skill_returns_after_cooldown
    (slots : SkillManager.Slots) (h : Heap) (sk source : nat)
    (targets : list nat) (n k : nat) :
  NoDup (omap id slots) ->
  Some sk ∈ slots ->
  cooldown (skill h sk) == inject_Z (Z.of_nat n) ->
  success (fst (SkillManager.executeSkill h sk source targets)) = true ->
  let h' := snd (SkillManager.executeSkill h sk source targets) in
  let hk := Nat.iter k (SkillManager.updateCooldowns slots) h' in
  ((k < n)%nat -> sk ∉ SkillManager.getAvailableSkills slots hk source)
  /\ ((n <= k)%nat ->
      (sk ∈ SkillManager.getAvailableSkills slots hk source
       <-> energyCost (skill h sk)
           <= currentEnergy (stats (entity h source)) - energyCost (skill h sk))).
Proof.
  intros Hnd Hin Hcd Hok. cbv zeta.
  unfold SkillManager.executeSkill in *.
  destruct (Num.ltb 0 (currentCooldown (skill h sk))); [discriminate|].
  destruct (Num.ltb _ (energyCost (skill h sk))); [discriminate|].
  cbn [snd]. set (h' := update_stats source _ (update_skill sk _ h)).
  assert (Hcd' : currentCooldown (skill h' sk) == inject_Z (Z.of_nat n)).
  { unfold h', update_stats. rewrite skill_update_entity.
    rewrite skill_update_skill_eq. exact Hcd. }
  assert (Hcost' : energyCost (skill h' sk) = energyCost (skill h sk)).
  { unfold h', update_stats. rewrite skill_update_entity.
    by rewrite skill_update_skill_eq. }
  assert (Hen' : currentEnergy (stats (entity h' source))
                 = currentEnergy (stats (entity h source)) - energyCost (skill h sk)).
  { unfold h'. rewrite stats_update_stats_eq. rewrite skill_update_skill_eq.
    reflexivity. }
  pose proof (countdown slots h' sk n k Hnd Hin Hcd') as Hk.
  set (hk := Nat.iter k (SkillManager.updateCooldowns slots) h') in *.
  assert (Hent : entity hk source = entity h' source).
  { unfold entity, hk. by rewrite iter_updateCooldowns_ents. }
  assert (Hcostk : energyCost (skill hk sk) = energyCost (skill h sk)).
  { unfold hk. rewrite iter_updateCooldowns_cost by exact Hnd. exact Hcost'. }
  split.
  - intros Hlt Hav. apply getAvailableSkills_elem in Hav.
    destruct Hav as (_ & Hzero & _). rewrite Hzero in Hk.
    assert (Hpos : inject_Z 1 <= inject_Z (Z.of_nat (n - k)))
      by (rewrite <- Zle_Qle; lia).
    change (inject_Z 1) with 1 in Hpos. lra.
  - intros Hge. rewrite getAvailableSkills_elem. rewrite Hent, Hcostk, Hen'.
    replace (n - k)%nat with 0%nat in Hk by lia.
    split; [by intros (_ & _ & H) | by intros H].
Qed.

(** "Power Strike" (cooldown 3, cost 30) used by the player with 100
    energy: gone after two rounds, back after three. *)
Lemma skill_returns_after_cooldown_witness :
  let slots := [Some 1%nat; Some 0%nat; None; None] in
  let h' := snd (SkillManager.executeSkill Examples.skillHeap 1 0 [1%nat]) in
  (1%nat ∉ SkillManager.getAvailableSkills slots
             (Nat.iter 2 (SkillManager.updateCooldowns slots) h') 0)
  /\ (1%nat ∈ SkillManager.getAvailableSkills slots
                (Nat.iter 3 (SkillManager.updateCooldowns slots) h') 0).
Proof.
  cbv zeta.
  assert (Hnd : NoDup (omap id [Some 1%nat; Some 0%nat; None; None]))
    by (apply (bool_decide_unpack _); vm_compute; exact I).
  assert (Hin : Some 1%nat ∈ [Some 1%nat; Some 0%nat; None; None]) by (by left).
  split.
  - apply (skill_returns_after_cooldown _ Examples.skillHeap 1 0 [1%nat] 3 2
             Hnd Hin); [vm_compute; reflexivity | vm_compute; reflexivity | lia].
  - apply (skill_returns_after_cooldown _ Examples.skillHeap 1 0 [1%nat] 3 3
             Hnd Hin); [vm_compute; reflexivity | vm_compute; reflexivity | lia |].
    vm_compute. discriminate.
Defined.

(** ** The step of a move *)


